(** * tle.js — two-line element sets: parsing, validation, field access,
      epoch arithmetic and memoised satellite look-ups

    A shallow embedding of [src/tle.js], in five parts:

    - [Module JS]: the fragment of the host language the program relies on
      (exceptions, numbers, strings and their built-ins, and the interface
      of what the environment supplies);
    - the program itself, one definition per source function, under the
      source's names;
    - the reference notions the statements are phrased with;
    - an example environment, on which the program runs on concrete
      inputs;
    - the properties established about the program.

    Conventions of the embedding.

    - A JavaScript string is a [string]; its characters stand for the code
      units 0..255.
    - A JavaScript number is a [JS.number]: [NaN], a signed infinity, or a
      finite value carried as a rational, which stands for the double
      nearest to it ([JS.double]); there is one zero, without a sign.  Reading
      a decimal literal, as [parseFloat] does, returns a double.
      [JS.add], [JS.sub], [JS.mul] and [JS.div] are the exact operations:
      they are what the operators give wherever operands and result are
      doubles, as for the digit sums of the checksum and the whole
      milliseconds of the clock.  [JS.add64], [JS.sub64], [JS.mul64] and
      [JS.div64] round the exact result to the nearest double; the
      conversion of a day of the year and the length of an orbit, which
      compute with fractions, are written with them.
    - A function that may throw returns a [JS.result].
    - The memoisation cache, the only mutable state of the program, is
      threaded explicitly as a [gmap string _]; the clock read by
      [Date.now()] is an explicit argument. *)

From Stdlib Require Import ZArith QArith Qround Qabs Qpower String Ascii List DecimalString.
From Stdlib Require Import Lia Lqa.
From stdpp Require Import base option list gmap strings.
Import ListNotations.
Open Scope string_scope.
Open Scope list_scope.
Open Scope Z_scope.

Module JS.

(** ** Exceptions *)

Inductive exn :=
  | Error (message : string)
  | TypeError (message : string)
  | ReferenceError (message : string).

Inductive result (A : Type) :=
  | Ok (a : A)
  | Throw (e : exn).
Arguments Ok {A} a.
Arguments Throw {A} e.

Definition bind {A B} (m : result A) (k : A -> result B) : result B :=
  match m with
  | Ok a => k a
  | Throw e => Throw e
  end.

Definition map_result {A B} (f : A -> B) (m : result A) : result B :=
  bind m (fun a => Ok (f a)).

(** ** Numbers *)

Inductive number :=
  | NaN
  | Infinity (negative : bool)
  | Finite (q : Q).

Definition of_Z (z : Z) : number := Finite (inject_Z z).

Definition isZero (q : Q) : bool := Qnum q =? 0.
Definition isNegative (q : Q) : bool := Qnum q <? 0.

(** [a + b] *)
Definition add (a b : number) : number :=
  match a, b with
  | NaN, _ | _, NaN => NaN
  | Infinity s, Infinity t => if Bool.eqb s t then Infinity s else NaN
  | Infinity s, Finite _ | Finite _, Infinity s => Infinity s
  | Finite x, Finite y => Finite (x + y)
  end.

Definition neg (a : number) : number :=
  match a with
  | NaN => NaN
  | Infinity s => Infinity (negb s)
  | Finite x => Finite (- x)
  end.

(** [a - b] *)
Definition sub (a b : number) : number := add a (neg b).

(** [a * b] *)
Definition mul (a b : number) : number :=
  match a, b with
  | NaN, _ | _, NaN => NaN
  | Infinity s, Infinity t => Infinity (xorb s t)
  | Infinity s, Finite y | Finite y, Infinity s =>
      if isZero y then NaN else Infinity (xorb s (isNegative y))
  | Finite x, Finite y => Finite (x * y)
  end.

(** [a / b] *)
Definition div (a b : number) : number :=
  match a, b with
  | NaN, _ | _, NaN => NaN
  | Infinity _, Infinity _ => NaN
  | Infinity s, Finite y => Infinity (xorb s (isNegative y))
  | Finite _, Infinity _ => of_Z 0
  | Finite x, Finite y =>
      if isZero y then (if isZero x then NaN else Infinity (isNegative x))
      else Finite (x / y)
  end.

(** Truncation toward zero. *)
Definition truncate (q : Q) : Z := if isNegative q then Qceiling q else Qfloor q.

(** [a % b]: the remainder takes the sign of the dividend. *)
Definition rem (a b : number) : number :=
  match a, b with
  | NaN, _ | _, NaN => NaN
  | Infinity _, _ => NaN
  | Finite x, Infinity _ => Finite x
  | Finite x, Finite y =>
      if isZero y then NaN else Finite (x - y * inject_Z (truncate (x / y)))
  end.

(** [Math.floor] *)
Definition Math_floor (a : number) : number :=
  match a with
  | Finite x => of_Z (Qfloor x)
  | other => other
  end.

(** ** Double precision

    [binary64 q] is the double nearest to the rational [q], ties going to
    the even significand: a significand of 53 bits, exponents down to
    [2^-1074] (the subnormal numbers included), and an infinity from
    [2^1024 - 2^970] on.  A result that rounds to zero is the one zero of
    this embedding. *)

(** [2^e] *)
Definition pow2 (e : Z) : Q :=
  if 0 <=? e then inject_Z (2 ^ e) else 1 # Z.to_pos (2 ^ (- e)).

(** The integer part of the binary logarithm of a positive [q]. *)
Definition ilog2 (q : Q) : Z :=
  let e := Z.log2 (Qnum q) - Z.log2 (Zpos (Qden q)) in
  if Qle_bool (pow2 e) q then e else e - 1.

Definition roundHalfEven (q : Q) : Z :=
  let f := Qfloor q in
  match (q - inject_Z f ?= 1 # 2)%Q with
  | Lt => f
  | Gt => f + 1
  | Eq => if Z.even f then f else f + 1
  end.

Definition binary64 (q : Q) : number :=
  let q := Qred q in
  if isZero q then Finite 0
  else
    let a := Qabs q in
    let e := Z.max (ilog2 a - 52) (-1074) in
    let m := roundHalfEven (a / pow2 e) in
    let r := Qred (inject_Z m * pow2 e) in
    if Qle_bool (pow2 1024) r then Infinity (isNegative q)
    else Finite (if isNegative q then - r else r)%Q.

(** The double a number of the embedding stands for. *)
Definition double (a : number) : number :=
  match a with
  | Finite q => binary64 q
  | other => other
  end.

(** The arithmetic operators on doubles: the operands are read as the
    doubles they stand for and the exact result is rounded to the nearest
    double.  [add], [sub], [mul] and [div] above are the operations before
    that rounding; they give what the operators give wherever operands and
    result are doubles, as for whole numbers below [2^53]. *)
Definition add64 (a b : number) : number := double (add (double a) (double b)).
Definition sub64 (a b : number) : number := double (sub (double a) (double b)).
Definition mul64 (a b : number) : number := double (mul (double a) (double b)).
Definition div64 (a b : number) : number := double (div (double a) (double b)).

(** [a < b] *)
Definition lt (a b : number) : bool :=
  match a, b with
  | NaN, _ | _, NaN => false
  | Infinity s, Infinity t => s && negb t
  | Infinity s, Finite _ => s
  | Finite _, Infinity t => negb t
  | Finite x, Finite y => negb (Qle_bool y x)
  end.

(** [a === b] on numbers: [NaN] differs from everything, itself included. *)
Definition number_eq (a b : number) : bool :=
  match a, b with
  | Finite x, Finite y => Qeq_bool x y
  | Infinity s, Infinity t => Bool.eqb s t
  | _, _ => false
  end.

(** [Number.isFinite] and [Number.isInteger] *)
Definition Number_isFinite (a : number) : bool :=
  match a with Finite _ => true | _ => false end.

Definition Number_isInteger (a : number) : bool :=
  match a with
  | Finite x => Qeq_bool x (inject_Z (Qfloor x))
  | _ => false
  end.

(** Truthiness of a number: [0] and [NaN] are falsy. *)
Definition truthy (a : number) : bool :=
  match a with
  | NaN => false
  | Infinity _ => true
  | Finite x => negb (isZero x)
  end.

(** [x || d] for an argument that is either omitted ([undefined]) or a
    number. *)
Definition or_else (x : option number) (d : number) : number :=
  match x with
  | Some n => if truthy n then n else d
  | None => d
  end.

(** ** Characters and strings *)

(** White space and line terminators among the code units below 256:
    TAB, LF, VT, FF, CR, SP and NBSP. *)
Definition isWhiteSpace (c : ascii) : bool :=
  existsb (Ascii.eqb c)
    ["009"%char; "010"%char; "011"%char; "012"%char; "013"%char; " "%char;
     "160"%char].

Fixpoint dropWhile {A} (p : A -> bool) (l : list A) : list A :=
  match l with
  | [] => []
  | x :: l' => if p x then dropWhile p l' else l
  end.

Definition trimStart (l : list ascii) : list ascii := dropWhile isWhiteSpace l.
Definition trimEnd (l : list ascii) : list ascii := rev (trimStart (rev l)).

(** [s.trim()] *)
Definition trim (s : string) : string :=
  string_of_list_ascii (trimEnd (trimStart (list_ascii_of_string s))).

(** [s.split(sep)] for a one-character separator. *)
Fixpoint split (sep : ascii) (s : string) : list string :=
  match s with
  | EmptyString => [EmptyString]
  | String c s' =>
      if Ascii.eqb c sep then EmptyString :: split sep s'
      else match split sep s' with
           | [] => [String c EmptyString]
           | w :: ws => String c w :: ws
           end
  end.

(** [s.split('')]: the one-character strings of [s], in order. *)
Definition chars (s : string) : list string :=
  map (fun c => String c EmptyString) (list_ascii_of_string s).

(** [bits.join('')] *)
Definition join (l : list string) : string := fold_right String.append EmptyString l.

(** [s.substr(start, length)] for non-negative arguments: the characters
    from [start] on, at most [length] of them, fewer when the string ends
    earlier. *)
Definition substr (s : string) (start length : nat) : string :=
  substring start length s.

(** The upper case of a code unit below 256: the letters a-z and the
    Latin-1 letters 224-254 (the division sign 247 apart) move down by 32,
    and the sharp s 223 becomes [SS].  Two code units have an upper case
    beyond the code units below 256, the micro sign 181 and the y with
    diaeresis 255; [upperInRange] excludes them, and [upper] leaves them as
    they are. *)
Definition upperInRange (c : ascii) : bool :=
  let n := nat_of_ascii c in
  negb (n =? 181)%nat && negb (n =? 255)%nat.

Definition upper (c : ascii) : string :=
  let n := nat_of_ascii c in
  if (n =? 223)%nat then "SS"
  else if (97 <=? n)%nat && (n <=? 122)%nat then String (ascii_of_nat (n - 32)) EmptyString
  else if (224 <=? n)%nat && (n <=? 254)%nat && negb (n =? 247)%nat
       then String (ascii_of_nat (n - 32)) EmptyString
  else String c EmptyString.

(** [s.toUpperCase()], for strings of code units that [upperInRange]
    admits. *)
Fixpoint toUpperCase (s : string) : string :=
  match s with
  | EmptyString => EmptyString
  | String c s' => upper c +:+ toUpperCase s'
  end.

(** Decimal rendering of an array index or a small counter. *)
Definition nat_toString (n : nat) : string := NilEmpty.string_of_uint (Nat.to_uint n).

(** ** Numeric literals *)

Definition digitValue (c : ascii) : option Z :=
  let n := nat_of_ascii c in
  if (48 <=? n)%nat && (n <=? 57)%nat then Some (Z.of_nat (n - 48)) else None.

(** Value of [c] as a digit in radix [r] (2, 8, 10 or 16). *)
Definition radixDigit (r : Z) (c : ascii) : option Z :=
  let n := nat_of_ascii c in
  let v :=
    if (48 <=? n)%nat && (n <=? 57)%nat then Some (Z.of_nat (n - 48))
    else if (97 <=? n)%nat && (n <=? 102)%nat then Some (Z.of_nat (n - 87))
    else if (65 <=? n)%nat && (n <=? 70)%nat then Some (Z.of_nat (n - 55))
    else None in
  match v with
  | Some d => if d <? r then Some d else None
  | None => None
  end.

(** The longest run of radix-[r] digits at the head of [l], most significant
    first, and what follows it. *)
Fixpoint scanDigits (r : Z) (l : list ascii) : list Z * list ascii :=
  match l with
  | [] => ([], [])
  | c :: l' =>
      match radixDigit r c with
      | Some d => let '(ds, rest) := scanDigits r l' in (d :: ds, rest)
      | None => ([], l)
      end
  end.

Definition digitsValue (r : Z) (ds : list Z) : Z :=
  fold_left (fun acc d => acc * r + d) ds 0.

(** An optional sign at the head of [l]: whether it is a minus, and the
    rest. *)
Definition scanSign (l : list ascii) : bool * list ascii :=
  match l with
  | "+"%char :: l' => (false, l')
  | "-"%char :: l' => (true, l')
  | _ => (false, l)
  end.

Definition signed (negative : bool) (z : Z) : Z := if negative then - z else z.

(** [m * 10^e], in lowest terms. *)
Definition decimal (m e : Z) : Q :=
  if 0 <=? e then inject_Z (m * 10 ^ e) else Qred (m # Z.to_pos (10 ^ (- e))).

(** Reading a decimal literal rounds to the nearest double: a magnitude of
    at least [2^1024 - 2^970] rounds to infinity, and one of at most
    [2^-1075] to zero. *)
Definition roundLiteral (negative : bool) (m e : Z) : number :=
  let v := decimal m e in
  binary64 (if negative then - v else v).

Fixpoint isPrefix (p l : list ascii) : bool :=
  match p, l with
  | [], _ => true
  | _ :: _, [] => false
  | a :: p', b :: l' => Ascii.eqb a b && isPrefix p' l'
  end.

(** An exponent part [e], [e+] or [e-] followed by at least one digit. *)
Definition scanExponent (l : list ascii) : Z * list ascii :=
  match l with
  | c :: l1 =>
      if Ascii.eqb c "e"%char || Ascii.eqb c "E"%char then
        let '(negative, l2) := scanSign l1 in
        match scanDigits 10 l2 with
        | ([], _) => (0, l)
        | (ds, l3) => (signed negative (digitsValue 10 ds), l3)
        end
      else (0, l)
  | [] => (0, l)
  end.

(** The longest prefix of [l] that is a signed decimal literal
    ([Infinity], [12], [12.], [12.5], [.5], each with an optional exponent),
    its value, and what follows it; [None] when no prefix is one. *)
Definition scanDecimal (l : list ascii) : option (number * list ascii) :=
  let '(negative, l1) := scanSign l in
  if isPrefix (list_ascii_of_string "Infinity") l1 then
    Some (Infinity negative, skipn 8 l1)
  else
    let '(ip, l2) := scanDigits 10 l1 in
    let '(fp, l3) :=
      match l2 with
      | "."%char :: r =>
          match ip, scanDigits 10 r with
          | [], ([], _) => ([], l2)
          | _, (fp, r') => (fp, r')
          end
      | _ => ([], l2)
      end in
    match ip ++ fp with
    | [] => None
    | ds =>
        let '(e, l4) := scanExponent l3 in
        Some (roundLiteral negative (digitsValue 10 ds) (e - Z.of_nat (length fp)), l4)
    end.

(** [parseFloat(s)] *)
Definition parseFloat (s : string) : number :=
  match scanDecimal (trimStart (list_ascii_of_string s)) with
  | Some (n, _) => n
  | None => NaN
  end.

(** [parseInt(s)] with the radix omitted: decimal, or hexadecimal after a
    [0x] prefix. *)
Definition parseInt_string (s : string) : number :=
  let '(negative, l1) := scanSign (trimStart (list_ascii_of_string s)) in
  let '(r, l2) :=
    match l1 with
    | "0"%char :: x :: l' =>
        if Ascii.eqb x "x"%char || Ascii.eqb x "X"%char then (16, l') else (10, l1)
    | _ => (10, l1)
    end in
  match scanDigits r l2 with
  | ([], _) => NaN
  | (ds, _) => of_Z (signed negative (digitsValue r ds))
  end.

(** A literal [0x..], [0o..] or [0b..] that spans all of [l]. *)
Definition scanNonDecimal (l : list ascii) : option number :=
  match l with
  | "0"%char :: x :: l' =>
      let r :=
        if Ascii.eqb x "x"%char || Ascii.eqb x "X"%char then Some 16
        else if Ascii.eqb x "o"%char || Ascii.eqb x "O"%char then Some 8
        else if Ascii.eqb x "b"%char || Ascii.eqb x "B"%char then Some 2
        else None in
      match r with
      | Some r =>
          match scanDigits r l' with
          | (_ :: _ as ds, []) => Some (of_Z (digitsValue r ds))
          | _ => None
          end
      | None => None
      end
  | _ => None
  end.

(** Conversion of a string to a number, as the arithmetic operators apply
    it: the whole trimmed string must be a numeric literal; the empty string
    is [0]. *)
Definition stringToNumber (s : string) : number :=
  match trimEnd (trimStart (list_ascii_of_string s)) with
  | [] => of_Z 0
  | l =>
      match scanNonDecimal l with
      | Some n => n
      | None =>
          match scanDecimal l with
          | Some (n, []) => n
          | _ => NaN
          end
      end
  end.

(** ** The host: what the program takes from its environment

    Rendering a number as a string is fixed for [NaN], the infinities and
    the integers of magnitude below [10^21]; the shortest-digits rendering of
    the other doubles is the host's.  So are the reading of a date string
    that is not in the ISO format, and the transcendental part of [Math]. *)

Class Host := {
  renderFraction : Q -> string;
  Date_parse : string -> number;
  Math_PI : number;
  Math_sqrt : number -> number;
  Math_pow : number -> number -> number
}.

Definition integer_toString (z : Z) : string := NilZero.string_of_int (Z.to_int z).

(** [String(n)], as string concatenation and template literals apply it. *)
Definition Number_toString `{Host} (n : number) : string :=
  match n with
  | NaN => "NaN"
  | Infinity negative => if negative then "-Infinity" else "Infinity"
  | Finite q =>
      if Qeq_bool q (inject_Z (Qfloor q)) && (Z.abs (Qfloor q) <? 10 ^ 21)
      then integer_toString (Qfloor q)
      else renderFraction q
  end.

(** [String(x)] for an argument that may have been omitted. *)
Definition toString `{Host} (x : option number) : string :=
  match x with
  | Some n => Number_toString n
  | None => "undefined"
  end.

(** [String(s)] for an array element that may be missing. *)
Definition element_toString (x : option string) : string :=
  match x with
  | Some s => s
  | None => "undefined"
  end.

(** A [Date] object is represented by its time value, in milliseconds since
    the epoch.  The constructor clips the value it is given: a fraction of a
    millisecond is dropped, and a value that is not finite or lies more than
    [8.64e15] ms from the epoch gives an invalid date, whose time value is
    [NaN]. *)
Definition Date := number.
Definition new_Date (timeValue : number) : Date :=
  match timeValue with
  | Finite q =>
      if Qle_bool (Qabs q) (inject_Z 8640000000000000) then of_Z (truncate q) else NaN
  | _ => NaN
  end.
Definition getTime (d : Date) : number := d.

(** ** Values that are a string or a number *)

Inductive value :=
  | VNum (n : number)
  | VStr (s : string).

(** [parseInt(v)].  A number is first rendered as a string; for [NaN] and
    the infinities that string has no digits, and for a finite value of
    magnitude below [10^21] (and not below [10^-6] unless it is zero) it is
    the plain decimal expansion, whose integer part is read back. *)
Definition parseInt (v : value) : number :=
  match v with
  | VStr s => parseInt_string s
  | VNum (Finite q) => of_Z (truncate q)
  | VNum _ => NaN
  end.

(** The numeric value the operators [%], [*], [-] see. *)
Definition toNumber (v : value) : number :=
  match v with
  | VNum n => n
  | VStr s => stringToNumber s
  end.

(** [a === b] *)
Definition strict_eq (a b : value) : bool :=
  match a, b with
  | VNum x, VNum y => number_eq x y
  | VStr s, VStr t => String.eqb s t
  | _, _ => false
  end.

End JS.

Import JS.

Notation "'let*' x ':=' m 'in' k" := (JS.bind m (fun x => k))
  (at level 10, x name, m at level 100, k at level 200).

(** * The program *)

(** ** The column table [tleLines] *)

Module FieldSpec.
Record t := { start : nat; length : nat }.
End FieldSpec.

Definition field (start length : nat) : FieldSpec.t :=
  {| FieldSpec.start := start; FieldSpec.length := length |}.

(** An object literal: its keys in insertion order, with their values. *)
Definition object (A : Type) := list (string * A).

Definition keys {A} (o : object A) : list string := map fst o.

(** [o[k]], [None] standing for [undefined]. *)
Definition prop {A} (k : string) (o : object A) : option A :=
  match find (fun p => String.eqb (fst p) k) o with
  | Some p => Some (snd p)
  | None => None
  end.

Definition tleLines : object (object FieldSpec.t) :=
  [ ("line1",
      [ ("lineNumber1", field 0 1);
        ("satelliteNumber", field 2 5);
        ("classification", field 7 1);
        ("intDesignatorYear", field 9 2);
        ("intDesignatorLaunchNumber", field 11 3);
        ("intDesignatorPieceOfLaunch", field 14 3);
        ("epochYear", field 18 2);
        ("epochDay", field 20 12);
        ("firstTimeDerivative", field 33 11);
        ("secondTimeDerivative", field 44 8);
        ("bstarDrag", field 53 8);
        ("numZero", field 62 1);
        ("tleSetNumber", field 64 4);
        ("checksum1", field 68 1) ]);
    ("line2",
      [ ("lineNumber2", field 0 1);
        ("satelliteNumber2", field 2 5);
        ("inclination", field 8 8);
        ("rightAscension", field 17 8);
        ("eccentricity", field 26 7);
        ("perigee", field 34 8);
        ("meanAnomaly", field 43 8);
        ("meanMotion", field 52 11);
        ("revNumberAtEpoch", field 63 5);
        ("checksum2", field 68 1) ]) ].

(** ** [parseTLE] *)

(** The parsed form: [{ name, arr }]. *)
Record ParsedTLE := { name : string; arr : list string }.

(** What callers pass as a TLE: an object carrying a truthy [arr] (the
    parsed form), an array of lines, a string, [null], or any other value,
    given by what [typeof] says of it. *)
Inductive tle_input :=
  | Parsed (tle : ParsedTLE)
  | Lines (tle : list string)
  | Text (tle : string)
  | Other (tleType : string)
  | Null.

(** The first test reads [tle.arr] of whatever [typeof] calls an object,
    and [null] is one: the engine throws a [TypeError] there. *)
Definition parseTLE (tle : tle_input) : result ParsedTLE :=
  match tle with
  | Parsed tle => Ok tle
  | Null => Throw (TypeError "Cannot read properties of null (reading 'arr')")
  | Other tleType => Throw (Error ("TLE passed is invalid type " +:+ tleType))
  | Lines _ | Text _ =>
      let tleArr :=
        match tle with
        | Lines tle => tle
        | Text tle => split "010"%char tle
        | _ => []
        end in
      let '(outputName, tleArr) :=
        if (2 <? List.length tleArr)%nat
        then (List.hd EmptyString tleArr, List.tl tleArr)
        else ("Unknown", tleArr) in
      Ok {| name := outputName; arr := map trim tleArr |}
  end.

(** ** [toCamelCase] *)

Definition capitalize (bit : string) : string :=
  toUpperCase (substr bit 0 1) +:+ substr bit 1 (String.length bit - 1).

Definition toCamelCase (str : string) (divider : option ascii) : string :=
  let divider := match divider with Some d => d | None => "-"%char end in
  match split divider str with
  | [] => EmptyString
  | bit0 :: bits => join (bit0 :: map capitalize bits)
  end.

(** ** [createTLEGetters] *)

(** The body of the getter created for property [prop] of [tleLine]. *)
Definition getter (tleLine prop_ : string) (tle : tle_input) : result value :=
  let* parsedTLE := parseTLE tle in
  let tleArr := arr parsedTLE in
  let line := if String.eqb tleLine "line1" then nth_error tleArr 0 else nth_error tleArr 1 in
  match prop tleLine tleLines ≫= prop prop_ with
  | None => Throw (TypeError "field is undefined")
  | Some spec =>
      let start := FieldSpec.start spec in
      let length := FieldSpec.length spec in
      match line with
      | None => Throw (TypeError "line is undefined")
      | Some line =>
          let substr := substr line start length in
          let intSubstr := parseFloat substr in
          Ok (if Number_isFinite intSubstr then VNum intSubstr else VStr substr)
      end
  end.

(** The getters [createTLEGetters] installs on the [tle] object: for each
    name, the line and property its closure captured.  A later assignment
    to the same name replaces an earlier one. *)
Definition createTLEGetters : gmap string (string * string) :=
  fold_left (fun self tleLine =>
    fold_left (fun self prop_ =>
        <[ toCamelCase ("get-" +:+ prop_) None := (tleLine, prop_) ]> self)
      (match prop tleLine tleLines with Some o => keys o | None => [] end) self)
    (keys tleLines) ∅.

(** [this[getterName](tle)] *)
Definition callGetter (getterName : string) (tle : tle_input) : result value :=
  match createTLEGetters !! getterName with
  | Some (tleLine, prop_) => getter tleLine prop_ tle
  | None => Throw (TypeError (getterName +:+ " is not a function"))
  end.

Definition getLineNumber1 := callGetter "getLineNumber1".
Definition getLineNumber2 := callGetter "getLineNumber2".
Definition getChecksum1 := callGetter "getChecksum1".
Definition getChecksum2 := callGetter "getChecksum2".
Definition getEpochYear := callGetter "getEpochYear".
Definition getEpochDay := callGetter "getEpochDay".
Definition getMeanMotion := callGetter "getMeanMotion".
Definition getClassification := callGetter "getClassification".

(** ** [tleLineChecksum] *)

(** The callback handed to [reduce]. *)
Definition checksumStep (sum : value) (val : string) : value :=
  let parsedVal := parseInt (VStr val) in
  let parsedSum := parseInt sum in
  if Number_isInteger parsedVal then VNum (add parsedSum parsedVal)
  else if String.eqb val "-" then VNum (add parsedSum (of_Z 1))
  else VNum parsedSum.

(** [arr.reduce(f)] with no initial value: the first element seeds the
    accumulator and the callback runs from the second element on. *)
Definition reduce (f : value -> string -> value) (charArr : list string) : result value :=
  match charArr with
  | [] => Throw (TypeError "Reduce of empty array with no initial value")
  | first :: rest => Ok (fold_left f rest (VStr first))
  end.

Definition tleLineChecksum (tleLine : string) : result number :=
  let charArr := removelast (chars tleLine) in
  if (List.length charArr =? 0)%nat then Throw (Error "Character array empty!")
  else
    let* checksum := reduce checksumStep charArr in
    Ok (rem (toNumber checksum) (of_Z 10)).

(** ** [isValidTLE] *)

(** [arr.forEach(f)], the callback updating the captured variable [s]. *)
Fixpoint forEach {A St} (f : St -> A -> nat -> result St) (l : list A) (index : nat)
    (s : St) : result St :=
  match l with
  | [] => Ok s
  | x :: l' => let* s' := f s x index in forEach f l' (S index) s'
  end.

Definition isValidTLE (tle : tle_input) : result bool :=
  let isValid := true in
  let* parsedTLE := parseTLE tle in
  if negb (List.length (arr parsedTLE) =? 2)%nat then Ok false
  else
    forEach (fun (isValid : bool) (line : string) (index : nat) =>
      if negb isValid then Ok isValid
      else
        let lineNumber := (index + 1)%nat in
        let* parsedLineNumber :=
          callGetter ("getLineNumber" +:+ nat_toString lineNumber) (Parsed parsedTLE) in
        let lineNumberIsValid :=
          strict_eq parsedLineNumber (VNum (of_Z (Z.of_nat lineNumber))) in
        let* calculatedLineChecksum :=
          match nth_error (arr parsedTLE) index with
          | Some line => tleLineChecksum line
          | None => Throw (TypeError "line is undefined")
          end in
        let* parsedChecksum :=
          callGetter ("getChecksum" +:+ nat_toString lineNumber) (Parsed parsedTLE) in
        let checksumIsValid := strict_eq parsedChecksum (VNum calculatedLineChecksum) in
        if negb lineNumberIsValid || negb checksumIsValid then Ok false else Ok isValid)
      (arr parsedTLE) 0%nat isValid.

(** ** [dayOfYearToTimeStamp] *)

(** [currentYear] is what [(new Date()).getFullYear()] returns at the time of
    the call. *)
Definition dayOfYearToTimeStamp `{Host} (currentYear : Z) (dayOfYear : number)
    (year : option number) : number :=
  let year := or_else year (of_Z currentYear) in
  let dayMS := of_Z (1000 * 60 * 60 * 24) in
  let yearStart := new_Date (Date_parse ("1/1/" +:+ Number_toString year +:+ " 0:0:0 Z")) in
  let yearStart := getTime yearStart in
  Math_floor (add64 yearStart (mul64 (sub64 dayOfYear (of_Z 1)) dayMS)).

(** ** The [satellite.js] library, as the program uses it *)

Module Vec.
Record t := { x : number; y : number; z : number }.
End Vec.

Module Geodetic.
Record t := { longitude : number; latitude : number; height : number }.
End Geodetic.

Module Look.
Record t := { azimuth : number; elevation : number; rangeSat : number }.
End Look.

Module PV.
Record t := { position : Vec.t; velocity : Vec.t }.
End PV.

(** [error] is the library's error flag as the program reads it right after
    [propagate] returned. *)
Class Satellite := {
  satrec : Type;
  twoline2satrec : option string -> option string -> satrec;
  propagate : satrec -> Date -> PV.t;
  error : satrec -> Date -> bool;
  gstimeFromDate : Date -> number;
  eciToEcf : Vec.t -> number -> Vec.t;
  geodeticToEcf : Geodetic.t -> Vec.t;
  eciToGeodetic : Vec.t -> number -> Geodetic.t;
  ecfToLookAngles : Geodetic.t -> Vec.t -> Look.t;
  dopplerFactor : Vec.t -> Vec.t -> Vec.t -> number;
  degreesLong : number -> number;
  degreesLat : number -> number
}.

(** ** [getSatelliteInfo] and its clients *)

Module Observation.
Record t := {
  lng : number;
  lat : number;
  elevation : number;
  azimuth : number;
  range : number;
  height : number;
  velocity : number
}.
End Observation.

Module LatLon.
Record t := { lat : number; lng : number }.
End LatLon.

Module LookAngles.
Record t := { elevation : number; azimuth : number; range : number }.
End LookAngles.

Section Propagation.

Context `{Host} `{Satellite}.

(** The memoisation cache [tle.cache]. *)
Definition Cache := gmap string Observation.t.

Definition radiansToDegrees (radians : number) : number :=
  mul radians (div (of_Z 180) Math_PI).

Definition degreesToRadians (degrees : number) : number :=
  mul degrees (div Math_PI (of_Z 180)).

(** The memoisation key, a template literal over the raw arguments. *)
Definition cacheKey (fnName : string) (tleArr : list string)
    (timestamp observerLat observerLng observerHeight : option number) : string :=
  fnName +:+ "-" +:+ element_toString (nth_error tleArr 0)
         +:+ "-" +:+ element_toString (nth_error tleArr 1)
         +:+ "-" +:+ toString timestamp
         +:+ "-" +:+ toString observerLat
         +:+ "-" +:+ toString observerLng
         +:+ "-" +:+ toString observerHeight.

(** [now] is what [Date.now()] returns during the call. *)
Definition getSatelliteInfo (now : Z) (tle : tle_input)
    (timestamp observerLat observerLng observerHeight : option number)
    (cache : Cache) : result Observation.t * Cache :=
  let fnName := "getSatelliteInfo" in
  let timestampCopy := or_else timestamp (of_Z now) in
  match parseTLE tle with
  | Throw e => (Throw e, cache)
  | Ok parsedTLE =>
      let tleArr := arr parsedTLE in
      let cacheKey :=
        cacheKey fnName tleArr timestamp observerLat observerLng observerHeight in
      match cache !! cacheKey with
      | Some cached => (Ok cached, cache)
      | None =>
          let defaultObserverPosition :=
            {| Geodetic.latitude := Finite 36.9613422;
               Geodetic.longitude := Finite (-122.0308);
               Geodetic.height := Finite 0.370 |} in
          let obsLat := or_else observerLat (Geodetic.latitude defaultObserverPosition) in
          let obsLng := or_else observerLng (Geodetic.longitude defaultObserverPosition) in
          let obsHeight := or_else observerHeight (Geodetic.height defaultObserverPosition) in
          let satrec := twoline2satrec (nth_error tleArr 0) (nth_error tleArr 1) in
          let time := new_Date timestampCopy in
          let positionAndVelocity := propagate satrec time in
          if error satrec time then
            (Throw (Error "Error: problematic TLE with unexpected eccentricity"), cache)
          else
            let positionEci := PV.position positionAndVelocity in
            let velocityEci := PV.velocity positionAndVelocity in
            let observerGd :=
              {| Geodetic.latitude := degreesToRadians obsLat;
                 Geodetic.longitude := degreesToRadians obsLng;
                 Geodetic.height := obsHeight |} in
            let gmst := gstimeFromDate time in
            let positionEcf := eciToEcf positionEci gmst in
            let observerEcf := geodeticToEcf observerGd in
            let positionGd := eciToGeodetic positionEci gmst in
            let lookAngles := ecfToLookAngles observerGd positionEcf in
            let dopplerFactor := dopplerFactor observerEcf positionEci velocityEci in
            let velocityKmS :=
              Math_sqrt (add (add (Math_pow (Vec.x velocityEci) (of_Z 2))
                                  (Math_pow (Vec.y velocityEci) (of_Z 2)))
                             (Math_pow (Vec.z velocityEci) (of_Z 2))) in
            let azimuth := Look.azimuth lookAngles in
            let longitude := Geodetic.longitude positionGd in
            let latitude := Geodetic.latitude positionGd in
            let output :=
              {| Observation.lng := degreesLong longitude;
                 Observation.lat := degreesLat latitude;
                 Observation.elevation := radiansToDegrees (Look.elevation lookAngles);
                 Observation.azimuth := radiansToDegrees azimuth;
                 Observation.range := Look.rangeSat lookAngles;
                 Observation.height := Geodetic.height positionGd;
                 Observation.velocity := velocityKmS |} in
            (Ok output, <[ cacheKey := output ]> cache)
      end
  end.

Definition getLatLon (now : Z) (tle : tle_input) (timestamp : option number)
    (cache : Cache) : result LatLon.t * Cache :=
  match parseTLE tle with
  | Throw e => (Throw e, cache)
  | Ok tleObj =>
      match isValidTLE (Parsed tleObj) with
      | Throw e => (Throw e, cache)
      | Ok false => (Throw (Error "TLE could not be parsed"), cache)
      | Ok true =>
          let '(satInfo, cache) :=
            getSatelliteInfo now (Lines (arr tleObj)) timestamp None None None cache in
          (map_result (fun satInfo =>
             {| LatLon.lat := Observation.lat satInfo;
                LatLon.lng := Observation.lng satInfo |}) satInfo, cache)
      end
  end.

Definition getLatLonArr (now : Z) (tle : tle_input) (timestamp : option number)
    (cache : Cache) : result (list number) * Cache :=
  let '(ll, cache) := getLatLon now tle timestamp cache in
  (map_result (fun ll => [LatLon.lat ll; LatLon.lng ll]) ll, cache).

(** The parameters [lat], [lng] and [height] are declared and not used. *)
Definition getLookAngles (now : Z) (tle : tle_input)
    (timestamp lat lng height : option number)
    (cache : Cache) : result LookAngles.t * Cache :=
  let '(satInfo, cache) := getSatelliteInfo now tle timestamp None None None cache in
  (map_result (fun satInfo =>
     {| LookAngles.elevation := Observation.elevation satInfo;
        LookAngles.azimuth := Observation.azimuth satInfo;
        LookAngles.range := Observation.range satInfo |}) satInfo, cache).

(** ** [getGroundTrack]

    The declarations of this function are chained with commas across the
    [var] and [const] keywords, which the grammar rejects; they are
    read here as the separate declarations they spell.  Two things then
    decide what the loop does: [curMarkerTime] is declared [const], and
    [getLatLonArr] is called as a free identifier, not as a method of
    [this], so it resolves in the enclosing scopes, where the module does
    not define it. *)

Inductive declaration := Const_ | Var_.

(** [name op= v] on a binding declared with [d]. *)
Definition assign (d : declaration) (v : number) : result number :=
  match d with
  | Const_ => Throw (TypeError "Assignment to constant variable.")
  | Var_ => Ok v
  end.

(** A function value found under a free identifier. *)
Definition callee := tle_input -> option number -> Cache -> result (list number) * Cache.

(** The [while] loop; [fuel] bounds the number of iterations, and [None]
    reports that it did not suffice. *)
Fixpoint groundTrackLoop (fuel : nat) (curMarkerTimeDecl : declaration)
    (free_getLatLonArr : option callee) (tle : tle_input)
    (stepMSCopy endTime curMarkerTime : number) (latLngs : list (list number))
    (cache : Cache) : option (result (list (list number)) * Cache) :=
  if lt curMarkerTime endTime then
    match fuel with
    | O => None
    | S fuel =>
        match free_getLatLonArr with
        | None => Some (Throw (ReferenceError "getLatLonArr is not defined"), cache)
        | Some getLatLonArr =>
            match getLatLonArr tle (Some curMarkerTime) cache with
            | (Throw e, cache) => Some (Throw e, cache)
            | (Ok latLng, cache) =>
                let latLngs := latLngs ++ [latLng] in
                match assign curMarkerTimeDecl (add curMarkerTime stepMSCopy) with
                | Throw e => Some (Throw e, cache)
                | Ok curMarkerTime =>
                    groundTrackLoop fuel curMarkerTimeDecl free_getLatLonArr tle
                      stepMSCopy endTime curMarkerTime latLngs cache
                end
            end
        end
    end
  else Some (Ok latLngs, cache).

(** [scope] is what the free identifier [getLatLonArr] is bound to outside
    the module, if anything. *)
Definition getGroundTrack (fuel : nat) (scope : option callee) (now : Z)
    (tle : tle_input) (stepMS : option number) (cache : Cache)
    : option (result (list (list number)) * Cache) :=
  let defaultStepMS := of_Z (1000 * 60 * 1) in
  let stepMSCopy := or_else stepMS defaultStepMS in
  let timeOffset := of_Z (1000 * 60 * 60 * 3) in
  let now := of_Z now in
  let startTime := sub now timeOffset in
  let curMarkerTime := startTime in
  let endTime := add now timeOffset in
  let latLngs := [] in
  groundTrackLoop fuel Const_ scope tle stepMSCopy endTime curMarkerTime latLngs cache.

End Propagation.

(** * The rest of the program *)

(** ** [isInt] *)

Definition isInt (num : value) : bool :=
  match num with
  | VNum n => number_eq (rem n (of_Z 1)) (of_Z 0)
  | VStr _ => false
  end.

(** ** Epoch of a record *)

(** Truthiness and rendering of what a getter returns. *)
Definition value_truthy (v : value) : bool :=
  match v with
  | VNum n => truthy n
  | VStr s => negb (String.eqb s EmptyString)
  end.

Definition value_toString `{Host} (v : value) : string :=
  match v with
  | VNum n => Number_toString n
  | VStr s => s
  end.

(** [dayOfYearToTimeStamp] on arguments as the getters supply them, each a
    number or a string: [year || ...] tests the value's truthiness, the
    string concatenation renders it, and [dayOfYear - 1] converts the day to
    a number. *)
Definition dayOfYearToTimeStampOf `{Host} (currentYear : Z) (dayOfYear year : value)
    : number :=
  let year := if value_truthy year then year else VNum (of_Z currentYear) in
  let dayMS := of_Z (1000 * 60 * 60 * 24) in
  let yearStart := new_Date (Date_parse ("1/1/" +:+ value_toString year +:+ " 0:0:0 Z")) in
  let yearStart := getTime yearStart in
  Math_floor (add64 yearStart (mul64 (sub64 (toNumber dayOfYear) (of_Z 1)) dayMS)).

Definition getEpochTimestamp `{Host} (currentYear : Z) (tle : tle_input) : result number :=
  let* epochDay := getEpochDay tle in
  let* epochYear := getEpochYear tle in
  Ok (dayOfYearToTimeStampOf currentYear epochDay epochYear).

Definition getTLEEpochTimestamp `{Host} (currentYear : Z) (tle : tle_input)
    : result number :=
  let* epochYear := getEpochYear tle in
  let* epochDayOfYear := getEpochDay tle in
  let timestamp := dayOfYearToTimeStampOf currentYear epochDayOfYear epochYear in
  Ok timestamp.

(** ** [getAverageOrbitLengthMins] *)

Definition getAverageOrbitLengthMins (tle : tle_input) : result number :=
  let* meanMotion := getMeanMotion tle in
  Ok (div64 (of_Z (24 * 60)) (toNumber meanMotion)).

(** ** Distance and speed over the ground *)

(** The trigonometric functions of [Math] the distance needs. *)
Class Trig := {
  Math_cos : number -> number;
  Math_asin : number -> number
}.

Section Ground.

Context `{Host} `{Trig} `{Satellite}.

Definition getDistanceBetweenPointsGround (lat1 lon1 lat2 lon2 : number) : number :=
  let p := Finite 0.017453292519943295 in
  let c := Math_cos in
  let a :=
    add (sub (Finite 0.5) (div (c (mul (sub lat2 lat1) p)) (of_Z 2)))
        (div (mul (mul (c (mul lat1 p)) (c (mul lat2 p)))
                  (sub (of_Z 1) (c (mul (sub lon2 lon1) p))))
             (of_Z 2)) in
  mul (of_Z 12742) (Math_asin (Math_sqrt a)).

(** [now] is what [Date.now()] returns in the function itself, [now1] and
    [now2] what it returns during the two calls of [getSatelliteInfo]. *)
Definition getSatGroundSpeed (now now1 now2 : Z) (tle : tle_input)
    (timestamp : option number) (cache : Cache) : result number * Cache :=
  match parseTLE tle with
  | Throw e => (Throw e, cache)
  | Ok parsedTLE =>
      let timestampCopy := or_else timestamp (of_Z now) in
      let timestampPlus := add timestampCopy (of_Z 10000) in
      match getSatelliteInfo now1 (Parsed parsedTLE) (Some timestampCopy) None None None
              cache with
      | (Throw e, cache) => (Throw e, cache)
      | (Ok position1, cache) =>
          match getSatelliteInfo now2 (Parsed parsedTLE) (Some timestampPlus) None None None
                  cache with
          | (Throw e, cache) => (Throw e, cache)
          | (Ok position2, cache) =>
              let distance :=
                getDistanceBetweenPointsGround
                  (Observation.lat position1) (Observation.lng position1)
                  (Observation.lat position2) (Observation.lng position2) in
              let kmPerSec := div distance (of_Z 10) in
              (Ok kmPerSec, cache)
          end
      end
  end.

(** [currentYear] is the host's current year, read when the epoch year is
    falsy.  The argument [getEpochTimestamp(tle)] is evaluated before
    [getLatLon] is entered. *)
Definition getLatLonAtEpoch (now currentYear : Z) (tle : tle_input) (cache : Cache)
    : result LatLon.t * Cache :=
  match getEpochTimestamp currentYear tle with
  | Throw e => (Throw e, cache)
  | Ok timestamp => getLatLon now tle (Some timestamp) cache
  end.

End Ground.

(** * Reference notions used in the statements *)

(** ** The checksum as the documentation words it

    Every digit counts for its value, every minus sign for one, and every
    other character for nothing; the last character of the line is left
    out. *)

Definition contribution (c : ascii) : Z :=
  match digitValue c with
  | Some d => d
  | None => if Ascii.eqb c "-"%char then 1 else 0
  end.

Definition contributions (l : list ascii) : Z :=
  fold_right (fun c s => contribution c + s) 0 l.

Definition documentedChecksum (tleLine : string) : Z :=
  contributions (removelast (list_ascii_of_string tleLine)) mod 10.

(** ** Field values *)

(** The value a getter returns for the raw column text [raw]: its reading as
    a decimal floating-point number when that is finite, else [raw] as it
    is. *)
Definition coerced (raw : string) : value :=
  match parseFloat raw with
  | Finite q => VNum (Finite q)
  | _ => VStr raw
  end.

(** The fields of the column table, each with its line and its name. *)
Definition schema : list (string * string * FieldSpec.t) :=
  flat_map (fun '(tleLine, o) => map (fun '(prop_, spec) => (tleLine, prop_, spec)) o) tleLines.

(** The line of the record that fields of [tleLine] are read from. *)
Definition lineOf (tleLine : string) (tle : ParsedTLE) : option string :=
  if String.eqb tleLine "line1" then nth_error (arr tle) 0 else nth_error (arr tle) 1.

(** ** Validity of one line *)

(** The two comparisons the validator makes on line number [n], given the
    checksum [c] computed for the line. *)
Definition passes (n : Z) (line : string) (c : number) : bool :=
  strict_eq (coerced (substr line 0 1)) (VNum (of_Z n))
  && strict_eq (coerced (substr line 68 1)) (VNum c).

(** The one-character string of the decimal digit [d]. *)
Definition digit (d : Z) : string :=
  String (ascii_of_nat (48 + Z.to_nat d)) EmptyString.

(** Line [n] of a record passes: its column 0 holds the digit [n], and its
    column 68 holds a digit equal to the checksum computed for the line. *)
Definition linePasses (n : Z) (line : string) : Prop :=
  substr line 0 1 = digit n /\
  exists d, 0 <= d <= 9 /\ substr line 68 1 = digit d /\ tleLineChecksum line = Ok (of_Z d).

(** [line] with its last character replaced by [c]. *)
Definition replaceLast (line : string) (c : ascii) : string :=
  string_of_list_ascii (removelast (list_ascii_of_string line) ++ [c]).

Definition lastChar (line : string) : option ascii :=
  List.last (map Some (list_ascii_of_string line)) None.

(** The record [tle] with line [index] replaced. *)
Definition withLine (tle : ParsedTLE) (index : nat) (line : string) : ParsedTLE :=
  {| name := name tle; arr := <[ index := line ]> (arr tle) |}.

(** ** Calendar *)

(** Day number of 1 January of year [y], counted from 1 January 1970, in
    the proleptic Gregorian calendar. *)
Definition dayFromYear (y : Z) : Z :=
  365 * (y - 1970) + (y - 1969) / 4 - (y - 1901) / 100 + (y - 1601) / 400.

Definition msPerDay : Z := 86400000.

(** The instant at which year [y] starts in UTC, in milliseconds since the
    epoch. *)
Definition utcYearStart (y : Z) : Z := msPerDay * dayFromYear y.

(** A host reads the date string the program builds for year [y] as the
    start of that year in UTC. *)
Definition readsYearStart `{Host} (y : Z) : Prop :=
  Date_parse ("1/1/" +:+ integer_toString y +:+ " 0:0:0 Z") = of_Z (utcYearStart y).

(** ** Doubles *)

(** [q] is a double: rounding to the nearest double leaves it as it is. *)
Definition exact64 (q : Q) : bool :=
  match binary64 q with
  | Finite r => Qeq_bool r q
  | _ => false
  end.

(** ** Sampling *)

(** The number of instants [cur], [cur + step], [cur + 2 step], ... that lie
    before [endTime]. *)
Definition samples (endTime cur step : Q) : nat :=
  Z.to_nat (Qceiling ((endTime - cur) / step)).

(** ** Observer coordinates *)

(** The coordinate [x] with a zero treated as left out. *)
Definition omitZero (x : option number) : option number :=
  match x with
  | Some (Finite q) => if isZero q then None else x
  | _ => x
  end.

(** A timestamp argument that [||] replaces by the clock. *)
Definition falsy (x : option number) : Prop :=
  match x with
  | Some n => truthy n = false
  | None => True
  end.

(** ** Sequences of calls on one cache *)

Inductive call :=
  | CallSatelliteInfo (now : Z) (tle : tle_input)
      (timestamp observerLat observerLng observerHeight : option number)
  | CallLatLon (now : Z) (tle : tle_input) (timestamp : option number)
  | CallLatLonArr (now : Z) (tle : tle_input) (timestamp : option number)
  | CallLookAngles (now : Z) (tle : tle_input)
      (timestamp lat lng height : option number).

Section Calls.

Context `{Host} `{Satellite}.

(** The cache a call leaves behind. *)
Definition after (c : call) (cache : Cache) : Cache :=
  match c with
  | CallSatelliteInfo now tle timestamp observerLat observerLng observerHeight =>
      snd (getSatelliteInfo now tle timestamp observerLat observerLng observerHeight cache)
  | CallLatLon now tle timestamp => snd (getLatLon now tle timestamp cache)
  | CallLatLonArr now tle timestamp => snd (getLatLonArr now tle timestamp cache)
  | CallLookAngles now tle timestamp lat lng height =>
      snd (getLookAngles now tle timestamp lat lng height cache)
  end.

Definition afterAll (calls : list call) (cache : Cache) : Cache :=
  fold_left (fun cache c => after c cache) calls cache.

End Calls.

(** * An example environment

    A host and a propagation library small enough to run the program on
    concrete inputs.  The host reads the date strings of the form the
    program builds for a four-digit year; the library's results are simple
    functions of the time and of the observer, so that calls at different
    times or from different places are told apart. *)

Definition exampleDateParse (s : string) : number :=
  let l := list_ascii_of_string s in
  if isPrefix (list_ascii_of_string "1/1/") l then
    match scanDigits 10 (skipn 4 l) with
    | ([_; _; _; _] as ds, rest) =>
        if String.eqb (string_of_list_ascii rest) " 0:0:0 Z"
        then of_Z (utcYearStart (digitsValue 10 ds))
        else NaN
    | _ => NaN
    end
  else NaN.

Definition exampleSqrt (n : number) : number :=
  match n with
  | Finite q => if isNegative q then NaN else Finite (Z.sqrt (Qnum q) # Pos.sqrt (Qden q))
  | Infinity false => Infinity false
  | _ => NaN
  end.

Definition examplePow (a b : number) : number :=
  if number_eq b (of_Z 2) then mul a a else NaN.

#[export] Instance exampleHost : Host := {|
  renderFraction q := integer_toString (Qnum q) +:+ "/" +:+ integer_toString (Zpos (Qden q));
  Date_parse := exampleDateParse;
  Math_PI := Finite 3.141592653589793;
  Math_sqrt := exampleSqrt;
  Math_pow := examplePow
|}.

Definition vec (a b c : number) : Vec.t := {| Vec.x := a; Vec.y := b; Vec.z := c |}.

#[export] Instance exampleSatellite : Satellite := {|
  satrec := option string * option string;
  twoline2satrec l1 l2 := (l1, l2);
  propagate _ time :=
    {| PV.position := vec time (of_Z 0) (of_Z 7000); PV.velocity := vec (of_Z 3) (of_Z 4) (of_Z 0) |};
  error _ _ := false;
  gstimeFromDate time := time;
  eciToEcf v gmst := vec (add (Vec.x v) gmst) (Vec.y v) (Vec.z v);
  geodeticToEcf g := vec (Geodetic.longitude g) (Geodetic.latitude g) (Geodetic.height g);
  eciToGeodetic v gmst :=
    {| Geodetic.longitude := Vec.x v; Geodetic.latitude := gmst; Geodetic.height := Vec.z v |};
  ecfToLookAngles g v :=
    {| Look.azimuth := Geodetic.longitude g;
       Look.elevation := Geodetic.latitude g;
       Look.rangeSat := add (Vec.x v) (Geodetic.height g) |};
  dopplerFactor _ _ _ := of_Z 1;
  degreesLong n := n;
  degreesLat n := n
|}.

(** A catalogued element set of the ISS. *)
Definition issLine1 : string :=
  "1 25544U 98067A   08264.51782528 -.00002182  00000-0 -11606-4 0  2927".
Definition issLine2 : string :=
  "2 25544  51.6416 247.4627 0006703 130.5360 325.0288 15.72125391563537".
Definition iss : ParsedTLE := {| name := "ISS (ZARYA)"; arr := [issLine1; issLine2] |}.

(** The element set quoted in the specification's end-to-end scenario. *)
Definition scenarioLine1 : string :=
  "1 25544U 98067A   21275.52719505  .00002182  00000-0  49422-4 0  9992".
Definition scenarioLine2 : string :=
  "2 25544  51.6442  40.7625 0003438 154.0455 306.1756 15.48783287303095".
Definition scenario : tle_input := Lines [scenarioLine1; scenarioLine2].

(** A record that is valid although its first line has 70 characters: the
    digits of columns 0..67 add up to 10, column 68 holds 5, and one more
    digit follows. *)
Definition overlongLine1 : string :=
  "19                                                                  57".
Definition shortLine2 : string :=
  "2                                                                   2".
Definition overlong : ParsedTLE :=
  {| name := "Unknown"; arr := [overlongLine1; shortLine2] |}.

(** A record whose lines are too short to carry a checksum. *)
Definition stubby : ParsedTLE := {| name := "Unknown"; arr := ["1"; "2"] |}.

(** Two records whose memoisation keys meet: the second line of one ends in
    the dash that the other gets from a negative timestamp. *)
Definition plain : ParsedTLE := {| name := "Unknown"; arr := ["a"; "b"] |}.
Definition dashed : ParsedTLE := {| name := "Unknown"; arr := ["a"; "b-"] |}.

(** The projections the clients of [getSatelliteInfo] return. *)
Definition latLonOf (satInfo : Observation.t) : LatLon.t :=
  {| LatLon.lat := Observation.lat satInfo; LatLon.lng := Observation.lng satInfo |}.

Definition lookAnglesOf (satInfo : Observation.t) : LookAngles.t :=
  {| LookAngles.elevation := Observation.elevation satInfo;
     LookAngles.azimuth := Observation.azimuth satInfo;
     LookAngles.range := Observation.range satInfo |}.

(** * Notions for the rest of the program *)

(** Whether [c] occurs in [s]. *)
Fixpoint hasChar (c : ascii) (s : string) : bool :=
  match s with
  | EmptyString => false
  | String a s' => Ascii.eqb a c || hasChar c s'
  end.

(** The lines joined by line feeds, as a TLE is written in a text. *)
Definition joinLines (lines : list string) : string :=
  String.concat (String "010"%char EmptyString) lines.

(** The lines joined by carriage return and line feed. *)
Definition joinCRLF (lines : list string) : string :=
  String.concat (String "013"%char (String "010"%char EmptyString)) lines.

(** A 68-character body with the digit of its documented checksum put in
    column 68. *)
Definition sealed (body : string) : string :=
  body +:+ digit (contributions (list_ascii_of_string body) mod 10).

(** Whether the input is a text or an array of lines, not a parsed record. *)
Definition unparsed (tle : tle_input) : bool :=
  match tle with
  | Lines _ | Text _ => true
  | _ => false
  end.

(** The fields of one line of the column table do not overlap. *)
Definition disjointSpans (a b : FieldSpec.t) : bool :=
  (FieldSpec.start a + FieldSpec.length a <=? FieldSpec.start b)%nat
  || (FieldSpec.start b + FieldSpec.length b <=? FieldSpec.start a)%nat.

(** Cosine and arc sine for the example environment: exact at 0, and
    rational approximations elsewhere. *)
Definition exampleCos (n : number) : number :=
  match n with
  | Finite q => Finite (Qred (1 - q * q / 2))
  | _ => NaN
  end.

Definition exampleAsin (n : number) : number :=
  match n with
  | Finite q => Finite q
  | _ => NaN
  end.

#[export] Instance exampleTrig : Trig := {|
  Math_cos := exampleCos;
  Math_asin := exampleAsin
|}.

(** The column table keeps every field within the 69 columns of a line and
    keeps the fields of one line apart. *)
Definition layoutOk : bool :=
  forallb (fun '(l, p, s) =>
    (FieldSpec.start s + FieldSpec.length s <=? 69)%nat
    && forallb (fun '(l', p', s') =>
         negb (String.eqb l l') || String.eqb p p' || disjointSpans s s') schema) schema.

(** A string with its first character in upper case. *)
Definition upperFirst (s : string) : string :=
  match s with
  | EmptyString => EmptyString
  | String c s' => upper c +:+ s'
  end.

(** The first character of [s], if any, has its upper case among the code
    units below 256. *)
Definition upperFirstInRange (s : string) : bool :=
  match s with
  | EmptyString => true
  | String c _ => upperInRange c
  end.

(** What the distance to the same point asks of the host's [Math]: the
    cosine of zero is one, the cosine of a finite number is finite, and a
    function such as the square root or the arc sine maps zero to zero. *)
Definition zeroPreserving (f : number -> number) : Prop :=
  forall x, number_eq x (of_Z 0) = true -> number_eq (f x) (of_Z 0) = true.

Definition cosineAtZero `{Trig} : Prop :=
  forall x, number_eq x (of_Z 0) = true -> number_eq (Math_cos x) (of_Z 1) = true.

Definition cosineFinite `{Trig} : Prop :=
  forall x, Number_isFinite x = true -> Number_isFinite (Math_cos x) = true.

(** A propagation library that reports an error for every time after
    5000. *)
Definition lateError : Satellite := {|
  satrec := option string * option string;
  twoline2satrec l1 l2 := (l1, l2);
  propagate _ time :=
    {| PV.position := vec time (of_Z 0) (of_Z 7000); PV.velocity := vec (of_Z 3) (of_Z 4) (of_Z 0) |};
  error _ time := lt (of_Z 5000) time;
  gstimeFromDate time := time;
  eciToEcf v gmst := v;
  geodeticToEcf g := vec (Geodetic.longitude g) (Geodetic.latitude g) (Geodetic.height g);
  eciToGeodetic v gmst :=
    {| Geodetic.longitude := Vec.x v; Geodetic.latitude := gmst; Geodetic.height := Vec.z v |};
  ecfToLookAngles g v :=
    {| Look.azimuth := Geodetic.longitude g;
       Look.elevation := Geodetic.latitude g;
       Look.rangeSat := Vec.x v |};
  dopplerFactor _ _ _ := of_Z 1;
  degreesLong n := n;
  degreesLat n := n
|}.

(** The ISS element set with its epoch year set to 00 and the checksum of
    line 1 adjusted. *)
Definition y2kLine1 : string :=
  "1 25544U 98067A   00264.51782528 -.00002182  00000-0 -11606-4 0  2929".

(** * Properties *)

(** ** One-character strings *)

Ltac each_char c := destruct c as [[] [] [] [] [] [] [] []].

Lemma parseInt_string_char (c : ascii) :
  parseInt_string (String c EmptyString)
  = match digitValue c with Some d => of_Z d | None => NaN end.
Proof. each_char c; reflexivity. Qed.

Lemma parseFloat_char (c : ascii) :
  parseFloat (String c EmptyString)
  = match digitValue c with Some d => of_Z d | None => NaN end.
Proof. each_char c; reflexivity. Qed.

Lemma parseFloat_empty : parseFloat EmptyString = NaN.
Proof. reflexivity. Qed.

Lemma stringToNumber_char (c : ascii) :
  stringToNumber (String c EmptyString)
  = match digitValue c with
    | Some d => of_Z d
    | None => if isWhiteSpace c then of_Z 0 else NaN
    end.
Proof. each_char c; reflexivity. Qed.

Lemma digitValue_range (c : ascii) (d : Z) : digitValue c = Some d -> 0 <= d <= 9.
Proof.
  unfold digitValue. destruct (_ && _) eqn:E; [|discriminate].
  intros [= <-]. apply andb_prop in E as [E1 E2].
  apply Nat.leb_le in E1, E2. lia.
Qed.

Lemma digitValue_digit (c : ascii) (d : Z) :
  digitValue c = Some d -> String c EmptyString = digit d.
Proof. each_char c; cbn; intros [= <-]; reflexivity. Qed.

Lemma digit_digitValue (d : Z) :
  0 <= d <= 9 -> exists c, digit d = String c EmptyString /\ digitValue c = Some d.
Proof.
  intros Hd. unfold digit. eexists. split; [reflexivity|].
  assert (Hc : d = 0 \/ d = 1 \/ d = 2 \/ d = 3 \/ d = 4 \/ d = 5 \/ d = 6 \/ d = 7
               \/ d = 8 \/ d = 9) by lia.
  repeat destruct Hc as [-> | Hc]; try subst d; reflexivity.
Qed.

Lemma digitValue_not_minus (c : ascii) (d : Z) :
  digitValue c = Some d -> Ascii.eqb c "-"%char = false.
Proof. each_char c; intros Hd; try reflexivity; vm_compute in Hd; discriminate. Qed.

(** ** Arithmetic on integral numbers *)

Lemma add_of_Z (a b : Z) : add (of_Z a) (of_Z b) = of_Z (a + b).
Proof. unfold add, of_Z. now rewrite inject_Z_plus. Qed.

Lemma truncate_inject_Z (a : Z) : truncate (inject_Z a) = a.
Proof.
  unfold truncate, isNegative, Qceiling.
  change (Qnum (inject_Z a)) with a.
  change (- inject_Z a)%Q with (inject_Z (- a)).
  rewrite !Qfloor_Z. destruct (a <? 0); lia.
Qed.

Lemma parseInt_of_Z (a : Z) : parseInt (VNum (of_Z a)) = of_Z a.
Proof. unfold parseInt, of_Z. now rewrite truncate_inject_Z. Qed.

Lemma Number_isInteger_of_Z (a : Z) : Number_isInteger (of_Z a) = true.
Proof. unfold Number_isInteger, of_Z. rewrite Qfloor_Z. apply Qeq_bool_iff. reflexivity. Qed.

Lemma rem_of_Z_10 (s : Z) : 0 <= s -> rem (of_Z s) (of_Z 10) = of_Z (s mod 10).
Proof.
  intros Hs. unfold rem, of_Z. cbn [isZero Qnum inject_Z Z.eqb].
  unfold truncate, isNegative, Qdiv, Qmult, Qinv, Qfloor, Qminus, Qplus, Qopp, inject_Z.
  cbn [Qnum Qden Z.mul Pos.mul Z.opp].
  replace (s * 1 <? 0) with false by (symmetry; apply Z.ltb_ge; lia).
  f_equal. f_equal. rewrite (Z.mod_eq s 10) by lia.
  change (Z.pos (1 * 1)) with 1. change (Z.pos (1 * 10)) with 10.
  rewrite !Z.mul_1_r. lia.
Qed.

(** ** The checksum *)

Lemma chars_removelast (s : string) :
  removelast (chars s)
  = map (fun c => String c EmptyString) (removelast (list_ascii_of_string s)).
Proof.
  unfold chars. induction (list_ascii_of_string s) as [|c [|c' l] IH]; cbn in *; congruence.
Qed.

Lemma contribution_nonneg (c : ascii) : 0 <= contribution c.
Proof.
  unfold contribution. destruct (digitValue c) as [d|] eqn:E.
  - apply digitValue_range in E. lia.
  - destruct (Ascii.eqb c "-"); lia.
Qed.

Lemma contributions_nonneg (l : list ascii) : 0 <= contributions l.
Proof.
  induction l as [|c l IH]; [cbn; lia|].
  change (0 <= contribution c + contributions l). pose proof (contribution_nonneg c). lia.
Qed.

(** The callback on a numeric accumulator adds the character's
    contribution. *)
Lemma checksumStep_number (s : Z) (c : ascii) :
  checksumStep (VNum (of_Z s)) (String c EmptyString) = VNum (of_Z (s + contribution c)).
Proof.
  unfold checksumStep, contribution. rewrite parseInt_of_Z.
  change (parseInt (VStr (String c EmptyString))) with (parseInt_string (String c EmptyString)).
  rewrite parseInt_string_char. destruct (digitValue c) as [d|] eqn:E.
  - now rewrite Number_isInteger_of_Z, add_of_Z.
  - cbn [Number_isInteger String.eqb]. destruct (Ascii.eqb c "-").
    + now rewrite add_of_Z.
    + now rewrite Z.add_0_r.
Qed.

(** Once the accumulator is [NaN] it stays so. *)
Lemma checksumStep_NaN (c : ascii) :
  checksumStep (VNum NaN) (String c EmptyString) = VNum NaN.
Proof.
  unfold checksumStep.
  change (parseInt (VStr (String c EmptyString))) with (parseInt_string (String c EmptyString)).
  rewrite parseInt_string_char. destruct (digitValue c) as [d|] eqn:E.
  - now rewrite Number_isInteger_of_Z.
  - cbn [Number_isInteger String.eqb]. now destruct (Ascii.eqb c "-").
Qed.

(** The first call of the callback sees the first character itself as the
    accumulator and reads it with [parseInt]. *)
Lemma checksumStep_first (c0 c : ascii) :
  checksumStep (VStr (String c0 EmptyString)) (String c EmptyString)
  = match digitValue c0 with
    | Some d => VNum (of_Z (d + contribution c))
    | None => VNum NaN
    end.
Proof.
  destruct (digitValue c0) as [d|] eqn:E0.
  - rewrite <- checksumStep_number. unfold checksumStep. rewrite parseInt_of_Z.
    change (parseInt (VStr (String c0 EmptyString))) with (parseInt_string (String c0 EmptyString)).
    now rewrite (parseInt_string_char c0), E0.
  - rewrite <- (checksumStep_NaN c). unfold checksumStep.
    change (parseInt (VStr (String c0 EmptyString))) with (parseInt_string (String c0 EmptyString)).
    now rewrite (parseInt_string_char c0), E0.
Qed.

Lemma fold_checksumStep_number (l : list ascii) (s : Z) :
  fold_left checksumStep (map (fun c => String c EmptyString) l) (VNum (of_Z s))
  = VNum (of_Z (s + contributions l)).
Proof.
  revert s. induction l as [|c l IH]; intros s; cbn [map fold_left contributions fold_right].
  - now rewrite Z.add_0_r.
  - rewrite checksumStep_number, IH. do 2 f_equal. unfold contributions. lia.
Qed.

Lemma fold_checksumStep_NaN (l : list ascii) :
  fold_left checksumStep (map (fun c => String c EmptyString) l) (VNum NaN) = VNum NaN.
Proof.
  induction l as [|c l IH]; cbn [map fold_left]; [reflexivity|].
  now rewrite checksumStep_NaN.
Qed.

(** What [tleLineChecksum] computes, by the shape of the line without its
    last character. *)
Lemma tleLineChecksum_eq (tleLine : string) :
  tleLineChecksum tleLine
  = match removelast (list_ascii_of_string tleLine) with
    | [] => Throw (Error "Character array empty!")
    | [c] =>
        Ok (match digitValue c with
            | Some d => of_Z d
            | None => if isWhiteSpace c then of_Z 0 else NaN
            end)
    | c :: rest =>
        Ok (match digitValue c with
            | Some d => of_Z ((d + contributions rest) mod 10)
            | None => NaN
            end)
    end.
Proof.
  unfold tleLineChecksum. rewrite chars_removelast.
  destruct (removelast (list_ascii_of_string tleLine)) as [|c [|c' rest]]; [reflexivity| |].
  - cbn [map List.length Nat.eqb reduce fold_left bind toNumber].
    rewrite stringToNumber_char. destruct (digitValue c) as [d|] eqn:E.
    + apply digitValue_range in E as Hd. rewrite rem_of_Z_10 by lia.
      now rewrite Z.mod_small by lia.
    + now destruct (isWhiteSpace c).
  - cbn [map List.length Nat.eqb reduce fold_left bind].
    rewrite checksumStep_first. destruct (digitValue c) as [d|] eqn:E.
    + rewrite fold_checksumStep_number. cbn [toNumber].
      apply digitValue_range in E as Hd.
      pose proof (contribution_nonneg c'). pose proof (contributions_nonneg rest).
      change (contributions (c' :: rest)) with (contribution c' + contributions rest).
      rewrite rem_of_Z_10 by lia. do 3 f_equal. lia.
    + now rewrite fold_checksumStep_NaN.
Qed.

(** A computed checksum is [NaN] or one of the integers 0..9. *)
Lemma tleLineChecksum_range (tleLine : string) (n : number) :
  tleLineChecksum tleLine = Ok n -> n = NaN \/ exists k, 0 <= k <= 9 /\ n = of_Z k.
Proof.
  rewrite tleLineChecksum_eq.
  destruct (removelast (list_ascii_of_string tleLine)) as [|c [|c' rest]]; [discriminate| |];
    intros [= <-]; destruct (digitValue c) as [d|] eqn:E.
  - right. exists d. split; [now apply digitValue_range in E|reflexivity].
  - destruct (isWhiteSpace c); [right; exists 0; split; [lia|reflexivity]|now left].
  - right. eexists. split; [|reflexivity].
    match goal with |- 0 <= ?x mod 10 <= 9 => pose proof (Z.mod_pos_bound x 10) end. lia.
  - now left.
Qed.

(** When the line starts with a digit, the computed checksum is the
    documented one. *)
Lemma tleLineChecksum_digit_first (tleLine : string) (c : ascii) (rest : list ascii) (d : Z) :
  removelast (list_ascii_of_string tleLine) = c :: rest ->
  digitValue c = Some d ->
  tleLineChecksum tleLine = Ok (of_Z (documentedChecksum tleLine)).
Proof.
  intros Hl Hd. rewrite tleLineChecksum_eq. unfold documentedChecksum. rewrite Hl.
  assert (Hc : contribution c = d) by (unfold contribution; now rewrite Hd).
  cbn [contributions fold_right]. rewrite Hc, Hd.
  destruct rest as [|c' rest]; [|reflexivity].
  cbn. apply digitValue_range in Hd. rewrite Z.add_0_r. now rewrite Z.mod_small by lia.
Qed.

(** ** Strings as lists of characters *)

Lemma substring_chars (n m : nat) (s : string) :
  list_ascii_of_string (substring n m s)
  = firstn m (skipn n (list_ascii_of_string s)).
Proof.
  revert n m. induction s as [|c s IH]; intros [|n] [|m]; cbn; try reflexivity.
  - now rewrite IH.
  - apply IH.
  - apply IH.
Qed.

Lemma string_eq_chars (s t : string) :
  list_ascii_of_string s = list_ascii_of_string t -> s = t.
Proof.
  intros E. rewrite <- (string_of_list_ascii_of_string s), <- (string_of_list_ascii_of_string t).
  now rewrite E.
Qed.

Lemma append_nil (t : string) : EmptyString +:+ t = t.
Proof. reflexivity. Qed.

Lemma append_cons (a : ascii) (s t : string) : String a s +:+ t = String a (s +:+ t).
Proof. reflexivity. Qed.

Lemma append_chars (s t : string) :
  list_ascii_of_string (s +:+ t) = list_ascii_of_string s ++ list_ascii_of_string t.
Proof. induction s as [|a s IH]; [reflexivity|]. rewrite append_cons. cbn. now rewrite IH. Qed.

Lemma append_cancel_l (s a b : string) : s +:+ a = s +:+ b -> a = b.
Proof.
  induction s as [|c s IH]; [now rewrite !append_nil|]. rewrite !append_cons.
  intros [= E]. now apply IH.
Qed.

Lemma append_cancel_r (a b s : string) : a +:+ s = b +:+ s -> a = b.
Proof.
  intros E. apply string_eq_chars. apply (f_equal list_ascii_of_string) in E.
  rewrite !append_chars in E. now apply app_inv_tail in E.
Qed.

Lemma length_chars (s : string) : List.length (list_ascii_of_string s) = String.length s.
Proof. induction s as [|c s IH]; cbn; congruence. Qed.

(** A one-column field is empty or one character. *)
Lemma substr_one (line : string) (start : nat) :
  substr line start 1 = EmptyString \/ exists c, substr line start 1 = String c EmptyString.
Proof.
  unfold substr.
  destruct (firstn 1 (skipn start (list_ascii_of_string line))) as [|c [|c' l]] eqn:E.
  - left. apply string_eq_chars. now rewrite substring_chars.
  - right. exists c. apply string_eq_chars. now rewrite substring_chars.
  - exfalso. assert (Hl := firstn_le_length 1 (skipn start (list_ascii_of_string line))).
    rewrite E in Hl. cbn in Hl. lia.
Qed.

(** ** Field values *)

Lemma coerced_eq (raw : string) :
  (if Number_isFinite (parseFloat raw) then VNum (parseFloat raw) else VStr raw) = coerced raw.
Proof. unfold coerced. now destruct (parseFloat raw). Qed.

Lemma coerced_empty : coerced EmptyString = VStr EmptyString.
Proof. reflexivity. Qed.

Lemma coerced_char (c : ascii) :
  coerced (String c EmptyString)
  = match digitValue c with
    | Some d => VNum (of_Z d)
    | None => VStr (String c EmptyString)
    end.
Proof. unfold coerced. rewrite parseFloat_char. now destruct (digitValue c). Qed.

Lemma number_eq_of_Z (a b : Z) : number_eq (of_Z a) (of_Z b) = true <-> a = b.
Proof.
  unfold number_eq, of_Z. rewrite Qeq_bool_iff. split.
  - intros E. unfold Qeq in E. cbn in E. lia.
  - now intros ->.
Qed.

(** A one-column field compares equal to the number [n] exactly when it is
    the digit of [n]. *)
Lemma one_column_equals (line : string) (start : nat) (n : Z) :
  strict_eq (coerced (substr line start 1)) (VNum (of_Z n)) = true
  <-> 0 <= n <= 9 /\ substr line start 1 = digit n.
Proof.
  destruct (substr_one line start) as [-> | [c ->]].
  - rewrite coerced_empty. cbn. split; [discriminate|]. intros [Hn E].
    destruct (digit_digitValue n Hn) as (c & Hc & _). congruence.
  - rewrite coerced_char. destruct (digitValue c) as [d|] eqn:E.
    + cbn [strict_eq]. rewrite number_eq_of_Z. split.
      * intros <-. split; [now apply digitValue_range in E|now apply digitValue_digit].
      * intros [Hn E']. destruct (digit_digitValue n Hn) as (c' & Hc & Hd).
        assert (c = c') by congruence. subst c'. congruence.
    + cbn. split; [discriminate|]. intros [Hn E'].
      destruct (digit_digitValue n Hn) as (c' & Hc & Hd).
      assert (c = c') by congruence. subst c'. congruence.
Qed.

Lemma one_column_NaN (line : string) (start : nat) :
  strict_eq (coerced (substr line start 1)) (VNum NaN) = false.
Proof.
  destruct (substr_one line start) as [-> | [c ->]]; [reflexivity|].
  rewrite coerced_char. now destruct (digitValue c).
Qed.

(** ** The generated getters *)

Lemma getter_eq (tleLine prop_ : string) (spec : FieldSpec.t) (tle : ParsedTLE) (line : string) :
  In (tleLine, prop_, spec) schema ->
  lineOf tleLine tle = Some line ->
  callGetter (toCamelCase ("get-" +:+ prop_) None) (Parsed tle)
  = Ok (coerced (substr line (FieldSpec.start spec) (FieldSpec.length spec))).
Proof.
  intros Hin Hline. unfold lineOf in Hline. cbn in Hin.
  repeat (destruct Hin as [[= <- <- <-] | Hin]); try contradiction;
    unfold callGetter;
    match goal with
    | |- context [createTLEGetters !! ?k] =>
        let v := eval vm_compute in (createTLEGetters !! k) in
        change (createTLEGetters !! k) with v
    end;
    unfold getter; cbn [parseTLE bind]; cbn in Hline |- *; rewrite Hline;
    now rewrite coerced_eq.
Qed.

(** ** The validator *)

Lemma isValidTLE_parsed (tle : tle_input) (parsedTLE : ParsedTLE) :
  parseTLE tle = Ok parsedTLE -> isValidTLE tle = isValidTLE (Parsed parsedTLE).
Proof. intros E. unfold isValidTLE. now rewrite E. Qed.

Lemma isValidTLE_length (tle : ParsedTLE) :
  List.length (arr tle) <> 2%nat -> isValidTLE (Parsed tle) = Ok false.
Proof.
  intros Hl. unfold isValidTLE. cbn [parseTLE bind].
  apply Nat.eqb_neq in Hl. now rewrite Hl.
Qed.

(** On a two-line record the validator checks line 1, and line 2 only when
    line 1 passed; an exception raised by a checksum escapes. *)
Lemma isValidTLE_two_lines (tle : ParsedTLE) (line1 line2 : string) :
  arr tle = [line1; line2] ->
  isValidTLE (Parsed tle)
  = (let* c1 := tleLineChecksum line1 in
     if passes 1 line1 c1
     then let* c2 := tleLineChecksum line2 in Ok (passes 2 line2 c2)
     else Ok false).
Proof.
  intros Harr. unfold isValidTLE. cbn [parseTLE bind]. rewrite Harr.
  cbn [List.length Nat.eqb negb forEach Nat.add nth_error].
  assert (G1 : callGetter "getLineNumber1" (Parsed tle) = Ok (coerced (substr line1 0 1))).
  { apply (getter_eq "line1" "lineNumber1" (field 0 1)); [cbn; tauto|].
    unfold lineOf. now rewrite Harr. }
  assert (G2 : callGetter "getChecksum1" (Parsed tle) = Ok (coerced (substr line1 68 1))).
  { apply (getter_eq "line1" "checksum1" (field 68 1)); [cbn; tauto|].
    unfold lineOf. now rewrite Harr. }
  assert (G3 : callGetter "getLineNumber2" (Parsed tle) = Ok (coerced (substr line2 0 1))).
  { apply (getter_eq "line2" "lineNumber2" (field 0 1)); [cbn; tauto|].
    unfold lineOf. now rewrite Harr. }
  assert (G4 : callGetter "getChecksum2" (Parsed tle) = Ok (coerced (substr line2 68 1))).
  { apply (getter_eq "line2" "checksum2" (field 68 1)); [cbn; tauto|].
    unfold lineOf. now rewrite Harr. }
  change ("getLineNumber" +:+ nat_toString 1) with "getLineNumber1".
  change ("getLineNumber" +:+ nat_toString 2) with "getLineNumber2".
  change ("getChecksum" +:+ nat_toString 1) with "getChecksum1".
  change ("getChecksum" +:+ nat_toString 2) with "getChecksum2".
  rewrite G1, G2, G3, G4. cbn [bind].
  destruct (tleLineChecksum line1) as [c1|e1]; [|reflexivity]. cbn [bind].
  unfold passes. change (Z.of_nat 1) with 1. change (Z.of_nat 2) with 2.
  destruct (strict_eq (coerced (substr line1 0 1)) (VNum (of_Z 1)));
    destruct (strict_eq (coerced (substr line1 68 1)) (VNum c1)); cbn; try reflexivity.
  destruct (tleLineChecksum line2) as [c2|e2]; [|reflexivity]. cbn [bind].
  destruct (strict_eq (coerced (substr line2 0 1)) (VNum (of_Z 2)));
    destruct (strict_eq (coerced (substr line2 68 1)) (VNum c2)); reflexivity.
Qed.

Lemma passes_iff (n : Z) (line : string) (c : number) :
  0 <= n <= 9 ->
  tleLineChecksum line = Ok c ->
  passes n line c = true <-> linePasses n line.
Proof.
  intros Hn Hc. unfold passes, linePasses. rewrite andb_true_iff, one_column_equals.
  destruct (tleLineChecksum_range _ _ Hc) as [-> | (k & Hk & ->)].
  - rewrite one_column_NaN. split; [intros [_ [=]]|].
    intros [_ (d & _ & _ & Hd)]. rewrite Hc in Hd. discriminate.
  - rewrite one_column_equals. split.
    + intros [[_ H0] [_ H68]]. split; [exact H0|]. now exists k.
    + intros [H0 (d & Hd & H68 & Hd')]. rewrite Hc in Hd'. injection Hd' as Hd'.
      assert (k = d) by (unfold of_Z, inject_Z in Hd'; congruence). subst d. tauto.
Qed.

Lemma isValidTLE_true (tle : ParsedTLE) :
  isValidTLE (Parsed tle) = Ok true
  <-> exists line1 line2,
        arr tle = [line1; line2] /\ linePasses 1 line1 /\ linePasses 2 line2.
Proof.
  split.
  - intros Hv. destruct (arr tle) as [|line1 [|line2 [|line3 rest]]] eqn:Harr;
      try (rewrite isValidTLE_length in Hv by (rewrite Harr; cbn; lia); discriminate).
    exists line1, line2. split; [reflexivity|].
    rewrite (isValidTLE_two_lines _ _ _ Harr) in Hv.
    destruct (tleLineChecksum line1) as [c1|] eqn:E1; [|discriminate]. cbn [bind] in Hv.
    destruct (passes 1 line1 c1) eqn:P1; [|discriminate].
    destruct (tleLineChecksum line2) as [c2|] eqn:E2; [|discriminate]. cbn [bind] in Hv.
    injection Hv as P2. split.
    + apply (passes_iff 1 line1 c1); [lia|assumption..].
    + apply (passes_iff 2 line2 c2); [lia|assumption..].
  - intros (line1 & line2 & Harr & H1 & H2). rewrite (isValidTLE_two_lines _ _ _ Harr).
    destruct H1 as [H10 (d1 & Hd1 & H168 & E1)]. destruct H2 as [H20 (d2 & Hd2 & H268 & E2)].
    rewrite E1. cbn [bind].
    rewrite (proj2 (passes_iff 1 line1 (of_Z d1) ltac:(lia) E1)).
    2:{ split; [assumption|]. now exists d1. }
    rewrite E2. cbn [bind]. f_equal. apply (passes_iff 2 line2 (of_Z d2)); [lia|assumption|].
    split; [assumption|]. now exists d2.
Qed.

(** ** Replacing the last character of a line *)

Lemma line_snoc (line : string) (n : nat) :
  String.length line = S n ->
  exists body x,
    list_ascii_of_string line = body ++ [x] /\ List.length body = n
    /\ lastChar line = Some x.
Proof.
  intros Hl. rewrite <- length_chars in Hl. unfold lastChar.
  destruct (exists_last (l := list_ascii_of_string line)) as (body & x & E).
  { intros E. rewrite E in Hl. discriminate. }
  exists body, x. rewrite E in Hl |- *. rewrite length_app in Hl. cbn in Hl.
  split; [reflexivity|]. split; [lia|]. rewrite map_app. cbn [map]. apply last_last.
Qed.

Lemma replaceLast_chars (line : string) (body : list ascii) (x c : ascii) :
  list_ascii_of_string line = body ++ [x] ->
  list_ascii_of_string (replaceLast line c) = body ++ [c].
Proof.
  intros E. unfold replaceLast.
  now rewrite list_ascii_of_string_of_list_ascii, E, removelast_last.
Qed.

Lemma tleLineChecksum_body (line line' : string) :
  removelast (list_ascii_of_string line) = removelast (list_ascii_of_string line') ->
  tleLineChecksum line = tleLineChecksum line'.
Proof. intros E. now rewrite !tleLineChecksum_eq, E. Qed.

Lemma substr_chars_eq (line line' : string) (start length : nat) :
  firstn length (skipn start (list_ascii_of_string line))
  = firstn length (skipn start (list_ascii_of_string line')) ->
  substr line start length = substr line' start length.
Proof. intros E. apply string_eq_chars. unfold substr. now rewrite !substring_chars. Qed.

Lemma substr_last (line : string) (body : list ascii) (x : ascii) :
  list_ascii_of_string line = body ++ [x] ->
  substr line (List.length body) 1 = String x EmptyString.
Proof.
  intros E. apply string_eq_chars. unfold substr. rewrite substring_chars, E.
  rewrite skipn_app, skipn_all, Nat.sub_diag. reflexivity.
Qed.

Lemma substr_first (line line' : string) (body : list ascii) (x x' : ascii) :
  list_ascii_of_string line = body ++ [x] ->
  list_ascii_of_string line' = body ++ [x'] ->
  body <> [] ->
  substr line' 0 1 = substr line 0 1.
Proof.
  intros E E' Hb. apply substr_chars_eq. rewrite E, E'.
  destruct body as [|b body]; [contradiction|reflexivity].
Qed.

(** On a 69-character line that passes, putting another digit in the last
    column makes the line fail, whatever its number. *)
Lemma replaceLast_fails (n : Z) (line : string) (c' : ascii) (d' : Z) :
  linePasses n line ->
  String.length line = 69%nat ->
  digitValue c' = Some d' ->
  lastChar line <> Some c' ->
  exists c, tleLineChecksum (replaceLast line c') = Ok c
            /\ passes n (replaceLast line c') c = false.
Proof.
  intros [H0 (d & Hd & H68 & Hc)] Hlen Hd' Hlast.
  destruct (line_snoc line 68 Hlen) as (body & x & E & Hb & Hx).
  pose proof (replaceLast_chars line body x c' E) as E'.
  exists (of_Z d). split.
  - rewrite <- Hc. apply tleLineChecksum_body. now rewrite E, E', !removelast_last.
  - unfold passes. apply andb_false_iff. right.
    rewrite <- Hb at 1. rewrite (substr_last _ _ _ E'), coerced_char, Hd'.
    cbn [strict_eq]. destruct (number_eq (of_Z d') (of_Z d)) eqn:N; [|reflexivity].
    apply number_eq_of_Z in N. subst d'. exfalso. apply Hlast. rewrite Hx. f_equal.
    rewrite <- Hb in H68. rewrite (substr_last _ _ _ E) in H68.
    apply digitValue_digit in Hd'. congruence.
Qed.

Lemma replaceLast_wrong_digit (tle : ParsedTLE) (index : nat) (line : string) (c' : ascii)
    (d' : Z) :
  isValidTLE (Parsed tle) = Ok true ->
  nth_error (arr tle) index = Some line ->
  String.length line = 69%nat ->
  digitValue c' = Some d' ->
  lastChar line <> Some c' ->
  isValidTLE (Parsed (withLine tle index (replaceLast line c'))) = Ok false.
Proof.
  intros Hv Hline Hlen Hd' Hlast.
  apply isValidTLE_true in Hv as (line1 & line2 & Harr & H1 & H2).
  rewrite Harr in Hline.
  destruct index as [|[|index]]; cbn in Hline.
  - injection Hline as ->.
    destruct (replaceLast_fails 1 line c' d' H1 Hlen Hd' Hlast) as (c & Hc & Hp).
    rewrite (isValidTLE_two_lines _ (replaceLast line c') line2)
      by (cbn; now rewrite Harr).
    now rewrite Hc; cbn [bind]; rewrite Hp.
  - injection Hline as ->.
    destruct (replaceLast_fails 2 line c' d' H2 Hlen Hd' Hlast) as (c & Hc & Hp).
    rewrite (isValidTLE_two_lines _ line1 (replaceLast line c'))
      by (cbn; now rewrite Harr).
    destruct H1 as [H10 (d1 & Hd1 & H168 & E1)]. rewrite E1. cbn [bind].
    rewrite (proj2 (passes_iff 1 line1 (of_Z d1) ltac:(lia) E1)).
    2:{ split; [assumption|]. now exists d1. }
    now rewrite Hc; cbn [bind]; rewrite Hp.
  - destruct index; discriminate.
Qed.

(** ** Validation of a record *)

(** C2, as the code has it.  For every input the parser accepts,
    [isValidTLE] returns [true] exactly when the parsed record has two
    lines, column 0 of line 1 is the digit 1 and that of line 2 the digit 2,
    and column 68 of each line is a digit equal to the checksum computed
    over the line without its last character.  Column 68 is the last column
    only on a line of 69 characters: on such a line of a valid record,
    replacing the last digit by another digit makes the result [false]. *)
Theorem isValidTLE_characterisation (tle : tle_input) (parsedTLE : ParsedTLE) :
  parseTLE tle = Ok parsedTLE ->
  (isValidTLE tle = Ok true
   <-> exists line1 line2,
         arr parsedTLE = [line1; line2] /\ linePasses 1 line1 /\ linePasses 2 line2)
  /\ (forall (index : nat) (line : string) (c' : ascii) (d' : Z),
        isValidTLE tle = Ok true ->
        nth_error (arr parsedTLE) index = Some line ->
        String.length line = 69%nat ->
        digitValue c' = Some d' ->
        lastChar line <> Some c' ->
        isValidTLE (Parsed (withLine parsedTLE index (replaceLast line c'))) = Ok false).
Proof.
  intros Hparse. rewrite (isValidTLE_parsed _ _ Hparse). split.
  - apply isValidTLE_true.
  - intros index line c' d'. apply replaceLast_wrong_digit.
Qed.

Lemma isValidTLE_characterisation_witness :
  isValidTLE (Lines [issLine1; issLine2]) = Ok true
  /\ isValidTLE (Parsed (withLine iss 0 (replaceLast issLine1 "3"%char))) = Ok false.
Proof.
  destruct (isValidTLE_characterisation (Lines [issLine1; issLine2])
              {| name := "Unknown"; arr := [issLine1; issLine2] |} eq_refl)
    as [Hiff Hflip].
  split.
  - vm_compute. reflexivity.
  - apply (Hflip 0%nat issLine1 "3"%char 3).
    + vm_compute. reflexivity.
    + reflexivity.
    + reflexivity.
    + reflexivity.
    + vm_compute. discriminate.
Defined.

(** C2, as stated, fails on a valid record with a line of 70 characters:
    the record is accepted and valid although the trailing digit of line 1
    (7) differs from the checksum computed for it (5), and replacing that
    digit by 3 leaves the record valid. *)
Lemma isValidTLE_overlong_counterexample :
  parseTLE (Lines [overlongLine1; shortLine2]) = Ok overlong
  /\ isValidTLE (Lines [overlongLine1; shortLine2]) = Ok true
  /\ lastChar overlongLine1 = Some "7"%char
  /\ tleLineChecksum overlongLine1 = Ok (of_Z 5)
  /\ isValidTLE (Lines [replaceLast overlongLine1 "3"%char; shortLine2]) = Ok true.
Proof. repeat split; vm_compute; reflexivity. Qed.

(** ** Field access *)

Lemma substr_length (line : string) (start length : nat) :
  (start + length <= String.length line)%nat ->
  String.length (substr line start length) = length.
Proof.
  intros Hl. unfold substr. rewrite <- length_chars, substring_chars.
  rewrite length_firstn, length_skipn, length_chars. lia.
Qed.

(** C3.  For every field of the column table and every record whose line
    covers the field's columns, the getter of the field reads the raw text
    of columns [start, start + length) of that line, untrimmed, and returns
    its reading as a decimal floating-point number when that is finite, and
    the raw text itself otherwise. *)
Theorem getter_raw_field (tleLine prop_ : string) (spec : FieldSpec.t) (tle : ParsedTLE)
    (line : string) :
  In (tleLine, prop_, spec) schema ->
  lineOf tleLine tle = Some line ->
  (FieldSpec.start spec + FieldSpec.length spec <= String.length line)%nat ->
  let raw := substr line (FieldSpec.start spec) (FieldSpec.length spec) in
  String.length raw = FieldSpec.length spec
  /\ (forall i, (i < FieldSpec.length spec)%nat ->
        String.get i raw = String.get (FieldSpec.start spec + i) line)
  /\ callGetter (toCamelCase ("get-" +:+ prop_) None) (Parsed tle)
     = Ok match parseFloat raw with
          | Finite q => VNum (Finite q)
          | _ => VStr raw
          end.
Proof.
  intros Hin Hline Hcover raw. split; [|split].
  - now apply substr_length.
  - intros i Hi. unfold raw, substr. rewrite Nat.add_comm. now apply substring_correct1.
  - apply (getter_eq _ _ _ _ _ Hin Hline).
Qed.

Ltac in_schema := cbn; repeat (first [left; reflexivity | right]).

Lemma getter_raw_field_witness :
  callGetter "getMeanMotion" (Parsed iss) = Ok (VNum (binary64 15.72125391))
  /\ callGetter "getClassification" (Parsed iss) = Ok (VStr "U").
Proof.
  split.
  - assert (Hin : In ("line2", "meanMotion", field 52 11) schema) by in_schema.
    assert (Hcover : (52 + 11 <= String.length issLine2)%nat) by (cbn; lia).
    exact (proj2 (proj2 (getter_raw_field "line2" "meanMotion" (field 52 11) iss issLine2
                           Hin eq_refl Hcover))).
  - assert (Hin : In ("line1", "classification", field 7 1) schema) by in_schema.
    assert (Hcover : (7 + 1 <= String.length issLine1)%nat) by (cbn; lia).
    exact (proj2 (proj2 (getter_raw_field "line1" "classification" (field 7 1) iss issLine1
                           Hin eq_refl Hcover))).
Defined.

(** ** Epoch arithmetic *)

Lemma Qfloor_add_Z (a : Z) (q : Q) : Qfloor (inject_Z a + q) = a + Qfloor q.
Proof.
  destruct q as [n d]. unfold Qplus, Qfloor, inject_Z. cbn [Qnum Qden].
  rewrite Pos.mul_1_l, Z.mul_1_r. rewrite Z.div_add_l by discriminate. reflexivity.
Qed.

Lemma Number_toString_year `{Host} (y : Z) :
  1000 <= y <= 9999 -> Number_toString (of_Z y) = integer_toString y.
Proof.
  intros Hy. unfold Number_toString, of_Z. rewrite Qfloor_Z.
  replace (Qeq_bool (inject_Z y) (inject_Z y)) with true
    by (symmetry; apply Qeq_bool_iff; reflexivity).
  replace (Z.abs y <? 10 ^ 21) with true by (symmetry; apply Z.ltb_lt; lia).
  reflexivity.
Qed.

Lemma or_else_year (y : Z) (d : number) : 1000 <= y <= 9999 -> or_else (Some (of_Z y)) d = of_Z y.
Proof.
  intros Hy. unfold or_else, truthy, of_Z, isZero. cbn [Qnum inject_Z].
  now replace (y =? 0) with false by (symmetry; apply Z.eqb_neq; lia).
Qed.

(** *** Rounding to a double *)

Lemma binary64_compat (q q' : Q) : q == q' -> binary64 q = binary64 q'.
Proof. intros E. unfold binary64. now rewrite (Qred_complete _ _ E). Qed.

Lemma exact64_compat (q q' : Q) : q == q' -> exact64 q = exact64 q'.
Proof.
  intros E. unfold exact64. rewrite (binary64_compat _ _ E).
  destruct (binary64 q') as [| |r]; try reflexivity.
  destruct (Qeq_bool r q) eqn:E1, (Qeq_bool r q') eqn:E2; try reflexivity.
  - apply Qeq_bool_iff in E1. apply not_true_iff_false in E2. exfalso. apply E2.
    apply Qeq_bool_iff. now rewrite E1.
  - apply Qeq_bool_iff in E2. apply not_true_iff_false in E1. exfalso. apply E1.
    apply Qeq_bool_iff. now rewrite E2.
Qed.

(** Rounding a number that stands for the double [q] gives [q]. *)
Lemma double_exact (r q : Q) :
  r == q -> exact64 q = true -> exists r', double (Finite r) = Finite r' /\ r' == q.
Proof.
  intros E Hq. unfold double. rewrite (binary64_compat _ _ E). unfold exact64 in Hq.
  destruct (binary64 q) as [| |r']; try discriminate. exists r'. split; [reflexivity|].
  now apply Qeq_bool_iff.
Qed.

Lemma roundHalfEven_Z (q : Q) (z : Z) : q == inject_Z z -> roundHalfEven q = z.
Proof.
  intros E. unfold roundHalfEven.
  assert (Hf : Qfloor q = z) by (rewrite (Qfloor_comp _ _ E); apply Qfloor_Z).
  rewrite Hf. cbv zeta.
  assert (Hc : (q - inject_Z z ?= 1 # 2)%Q = Lt).
  { apply (proj1 (Qlt_alt _ _)). rewrite E. unfold Qminus. rewrite Qplus_opp_r. reflexivity. }
  now rewrite Hc.
Qed.

Lemma Qred_inject_Z (z : Z) : Qred (inject_Z z) = inject_Z z.
Proof.
  unfold Qred, inject_Z. pose proof (Z.ggcd_gcd z 1) as Hg.
  pose proof (Z.ggcd_correct_divisors z 1) as Hd.
  destruct (Z.ggcd z 1) as [g [aa bb]]. cbn [fst] in Hg. rewrite Z.gcd_1_r in Hg. subst g.
  destruct Hd as [Ha Hb]. replace aa with z by lia. replace bb with 1 by lia. reflexivity.
Qed.

Lemma Qdiv_unit_frac (a : Z) (p : positive) : inject_Z a / (1 # p) == inject_Z (a * Zpos p).
Proof. unfold Qdiv, Qinv, Qmult, Qeq, inject_Z. cbn [Qnum Qden]. lia. Qed.

Lemma Qmult_unit_frac (a : Z) (p : positive) : inject_Z (a * Zpos p) * (1 # p) == inject_Z a.
Proof. unfold Qmult, Qeq, inject_Z. cbn [Qnum Qden]. lia. Qed.

(** The whole numbers below [2^52] are doubles. *)
Lemma exact64_Z (z : Z) : Z.abs z < 2 ^ 52 -> exact64 (inject_Z z) = true.
Proof.
  intros Hz. unfold exact64, binary64. rewrite Qred_inject_Z. cbv zeta.
  unfold isZero, isNegative. cbn [Qnum inject_Z].
  destruct (Z.eqb_spec z 0) as [->|Hnz]; [reflexivity|].
  change (Qabs (inject_Z z)) with (inject_Z (Z.abs z)).
  assert (Ha : 0 < Z.abs z) by lia.
  destruct (Z.log2_spec (Z.abs z) Ha) as [Hlo Hhi].
  assert (Hk : 0 <= Z.log2 (Z.abs z) < 52)
    by (split; [apply Z.log2_nonneg | apply Z.log2_lt_pow2; lia]).
  remember (Z.abs z) as a eqn:Ea. remember (Z.log2 a) as k eqn:Ek.
  assert (Hlog : ilog2 (inject_Z a) = k).
  { unfold ilog2. cbn [Qnum Qden inject_Z]. change (Z.log2 1) with 0. rewrite Z.sub_0_r, <- Ek.
    unfold pow2. destruct (Z.leb_spec 0 k); [|lia].
    destruct (Qle_bool (inject_Z (2 ^ k)) (inject_Z a)) eqn:E; [reflexivity|].
    exfalso. apply not_true_iff_false in E. apply E. apply Qle_bool_iff.
    rewrite <- Zle_Qle. exact Hlo. }
  rewrite Hlog. replace (Z.max (k - 52) (-1074)) with (k - 52) by lia.
  set (p := Z.to_pos (2 ^ (52 - k))).
  assert (Hpow : pow2 (k - 52) = 1 # p).
  { unfold pow2. destruct (Z.leb_spec 0 (k - 52)); [lia|]. unfold p.
    now replace (- (k - 52)) with (52 - k) by lia. }
  rewrite Hpow.
  rewrite (roundHalfEven_Z _ (a * Zpos p)) by apply Qdiv_unit_frac.
  assert (Hr : Qred (inject_Z (a * Zpos p) * (1 # p)) == inject_Z a)
    by (rewrite Qred_correct; apply Qmult_unit_frac).
  set (r := Qred _) in *.
  assert (Hle : Qle_bool (pow2 1024) r = false).
  { apply not_true_iff_false. intros Hle. apply Qle_bool_iff in Hle. rewrite Hr in Hle.
    change (pow2 1024) with (inject_Z (2 ^ 1024)) in Hle. rewrite <- Zle_Qle in Hle.
    assert (2 ^ 52 < 2 ^ 1024) by (apply Z.pow_lt_mono_r; lia). lia. }
  rewrite Hle. apply Qeq_bool_iff.
  destruct (Z.ltb_spec z 0); rewrite Hr; unfold Qeq, Qopp, inject_Z; cbn; lia.
Qed.

(** The rounding at work: a decimal fraction, the two ties next to [2^53],
    the largest double and the first value that overflows, the smallest
    double and the underflow to zero. *)
Lemma binary64_examples :
  binary64 0.1 = Finite (3602879701896397 # 36028797018963968)
  /\ binary64 (inject_Z (2 ^ 53 + 1)) = of_Z (2 ^ 53)
  /\ binary64 (inject_Z (2 ^ 53 + 3)) = of_Z (2 ^ 53 + 4)
  /\ binary64 (inject_Z (2 ^ 1024 - 2 ^ 970 - 1)) = of_Z ((2 ^ 53 - 1) * 2 ^ 971)
  /\ binary64 (inject_Z (2 ^ 1024 - 2 ^ 970)) = Infinity false
  /\ binary64 (- inject_Z (2 ^ 1024)) = Infinity true
  /\ binary64 (3 # Z.to_pos (2 ^ 1076)) = Finite (1 # Z.to_pos (2 ^ 1074))
  /\ binary64 (1 # Z.to_pos (2 ^ 1075)) = Finite 0
  /\ binary64 (1 # Z.to_pos (10 ^ 400)) = Finite 0.
Proof. repeat split; vm_compute; reflexivity. Qed.

(** *** The error of rounding *)

Lemma pow2_Qpower (e : Z) : pow2 e == 2 ^ e.
Proof.
  unfold pow2. destruct (Z.leb_spec 0 e) as [He|He].
  - now rewrite Zpower_Qpower.
  - assert (Hp : 0 < 2 ^ (- e)) by (apply Z.pow_pos_nonneg; lia).
    replace e with (- - e) at 2 by lia. rewrite Qpower_opp.
    change 2%Q with (inject_Z 2). rewrite <- Zpower_Qpower by lia.
    destruct (2 ^ (- e))%Z as [|p|p] eqn:Ep; try lia. reflexivity.
Qed.

Lemma pow2_pos (e : Z) : (0 < pow2 e)%Q.
Proof. rewrite pow2_Qpower. now apply Qpower_0_lt. Qed.

Lemma pow2_add (a b : Z) : pow2 (a + b) == pow2 a * pow2 b.
Proof. rewrite !pow2_Qpower. now apply Qpower_plus. Qed.

Lemma pow2_le (a b : Z) : a <= b -> (pow2 a <= pow2 b)%Q.
Proof. intros H. rewrite !pow2_Qpower. now apply Qpower_le_compat_l. Qed.

Lemma pow2_lt_inv (a b : Z) : (pow2 a < pow2 b)%Q -> a < b.
Proof. rewrite !pow2_Qpower. intros H. now apply (Qpower_lt_compat_l_inv 2). Qed.

(** [ilog2] does not overshoot. *)
Lemma pow2_nonneg_Z (e : Z) : 0 <= e -> pow2 e = inject_Z (2 ^ e).
Proof. intros He. unfold pow2. now destruct (Z.leb_spec 0 e); [|lia]. Qed.

Lemma ilog2_le (a : Q) : (0 < a)%Q -> (pow2 (ilog2 a) <= a)%Q.
Proof.
  intros Ha. unfold ilog2. set (e := Z.log2 (Qnum a) - Z.log2 (Zpos (Qden a))).
  destruct (Qle_bool (pow2 e) a) eqn:E; [now apply Qle_bool_iff|].
  destruct a as [n d]. cbn [Qnum Qden] in *.
  assert (Hn : (0 < n)%Z) by (unfold Qlt in Ha; cbn in Ha; lia).
  destruct (Z.log2_spec n Hn) as [Hn1 _].
  destruct (Z.log2_spec (Zpos d) ltac:(lia)) as [_ Hd2].
  pose proof (Z.log2_nonneg n) as Hln. pose proof (Z.log2_nonneg (Zpos d)) as Hld.
  assert (Hd' : (inject_Z (Zpos d) <= pow2 (Z.log2 (Zpos d) + 1))%Q).
  { rewrite pow2_nonneg_Z by lia. rewrite <- Zle_Qle.
    replace (Z.log2 (Zpos d) + 1) with (Z.succ (Z.log2 (Zpos d))) by lia. lia. }
  assert (Hn' : (pow2 (Z.log2 n) <= inject_Z n)%Q).
  { rewrite pow2_nonneg_Z by lia. now rewrite <- Zle_Qle. }
  assert (H : (pow2 (e - 1) * inject_Z (Zpos d) <= inject_Z n)%Q).
  { eapply Qle_trans;
      [apply (proj2 (Qmult_le_l (inject_Z (Zpos d)) (pow2 (Z.log2 (Zpos d) + 1))
                       (pow2 (e - 1)) (pow2_pos (e - 1)))); exact Hd'|].
    rewrite <- pow2_add. replace (e - 1 + (Z.log2 (Zpos d) + 1)) with (Z.log2 n)
      by (unfold e; lia). exact Hn'. }
  apply Qle_shift_div_l in H; [|reflexivity].
  eapply Qle_trans; [exact H|]. unfold Qle, Qdiv, Qmult, Qinv, inject_Z. cbn. lia.
Qed.

Lemma roundHalfEven_err (q : Q) : (Qabs (inject_Z (roundHalfEven q) - q) <= 1 # 2)%Q.
Proof.
  unfold roundHalfEven. pose proof (Qfloor_le q) as Hlo. pose proof (Qlt_floor q) as Hhi.
  set (f := Qfloor q) in *. rewrite inject_Z_plus in Hhi. change (inject_Z 1) with 1%Q in Hhi.
  apply Qabs_Qle_condition.
  destruct (q - inject_Z f ?= 1 # 2)%Q eqn:E.
  - apply Qeq_alt in E. destruct (Z.even f);
      [|rewrite inject_Z_plus; change (inject_Z 1) with 1%Q]; split; lra.
  - apply Qlt_alt in E. split; lra.
  - apply Qgt_alt in E. rewrite inject_Z_plus. change (inject_Z 1) with 1%Q. split; lra.
Qed.

(** Rounding a number below [2^(k+1)] in magnitude errs by at most
    [2^(k-53)], half a unit in the last place. *)
Lemma binary64_err (q : Q) (k : Z) :
  -1022 <= k <= 1022 ->
  (Qabs q < pow2 (k + 1))%Q ->
  exists r, binary64 q = Finite r /\ (Qabs (r - q) <= pow2 (k - 53))%Q.
Proof.
  intros Hk Hq. unfold binary64.
  assert (Eq : Qred q == q) by apply Qred_correct.
  assert (Hq' : (Qabs (Qred q) < pow2 (k + 1))%Q) by now rewrite Eq.
  revert Eq Hq'. generalize (Qred q) as q'. intros q' Eq Hq'. cbv zeta.
  destruct (isZero q') eqn:Hz.
  - exists 0%Q. split; [reflexivity|].
    assert (q' == 0) by (unfold isZero in Hz; apply Z.eqb_eq in Hz; destruct q' as [n d];
                         cbn in Hz; subst n; reflexivity).
    assert (E0 : 0 - q == 0) by (rewrite <- Eq; lra). rewrite E0. cbn [Qabs Z.abs].
    apply Qlt_le_weak, pow2_pos.
  - assert (Ha : (0 < Qabs q')%Q).
    { pose proof (Qabs_nonneg q') as Hn. apply Qle_lteq in Hn as [Hn|Hn]; [exact Hn|].
      exfalso. unfold isZero in Hz. apply Z.eqb_neq in Hz. apply Hz.
      symmetry in Hn. destruct q' as [[|n|n] d]; cbn in *; try reflexivity;
        unfold Qeq in Hn; cbn in Hn; lia. }
    set (a := Qabs q') in *.
    pose proof (ilog2_le a Ha) as Hlog.
    assert (Hlt : ilog2 a < k + 1)
      by (apply pow2_lt_inv; eapply Qle_lt_trans; [exact Hlog|exact Hq']).
    set (e := Z.max (ilog2 a - 52) (-1074)).
    assert (He : e <= k - 52) by lia.
    pose proof (roundHalfEven_err (a / pow2 e)) as Herr.
    set (m := roundHalfEven (a / pow2 e)) in *.
    pose proof (pow2_pos e) as Hpe.
    assert (Hr : (Qabs (inject_Z m * pow2 e - a) <= pow2 (k - 53))%Q).
    { assert (E1 : inject_Z m * pow2 e - a == (inject_Z m - a / pow2 e) * pow2 e)
        by (field; lra).
      rewrite E1, Qabs_Qmult, (Qabs_pos (pow2 e)) by lra.
      apply Qle_trans with ((1 # 2) * pow2 e)%Q.
      - apply Qmult_le_compat_r; [exact Herr|lra].
      - replace (k - 53) with (-1 + (k - 52)) by lia. rewrite pow2_add.
        change (pow2 (-1)) with (1 # 2)%Q.
        apply (proj2 (Qmult_le_l _ _ (1 # 2) ltac:(reflexivity))). now apply pow2_le. }
    set (r := Qred (inject_Z m * pow2 e)).
    assert (Er : r == inject_Z m * pow2 e) by apply Qred_correct.
    assert (Hover : Qle_bool (pow2 1024) r = false).
    { apply not_true_iff_false. intros Hle. apply Qle_bool_iff in Hle. rewrite Er in Hle.
      apply Qabs_Qle_condition in Hr as [_ Hr].
      assert (H1 : (pow2 (k - 53) <= pow2 (k + 1))%Q) by (apply pow2_le; lia).
      assert (H2 : (pow2 (k + 1 + 1) <= pow2 1024)%Q) by (apply pow2_le; lia).
      rewrite pow2_add in H2. change (pow2 1) with 2%Q in H2. fold a in Hq'. lra. }
    rewrite Hover. eexists. split; [reflexivity|].
    unfold isNegative. destruct (Z.ltb_spec (Qnum q') 0) as [Hneg|Hpos].
    + assert (Eabs : a == - q') by (unfold a; apply Qabs_neg; destruct q' as [n d];
                                    unfold Qle; cbn in *; lia).
      assert (E2 : - r - q == - (inject_Z m * pow2 e - a)) by (rewrite Er, Eabs, <- Eq; ring).
      now rewrite E2, Qabs_opp.
    + assert (Eabs : a == q') by (unfold a; apply Qabs_pos; destruct q' as [n d];
                                  unfold Qle; cbn in *; lia).
      assert (E2 : r - q == inject_Z m * pow2 e - a) by (rewrite Er, Eabs, <- Eq; ring).
      now rewrite E2.
Qed.

Lemma double_err (q : Q) (k : Z) :
  -1022 <= k <= 1022 ->
  (Qabs q < pow2 (k + 1))%Q ->
  exists r, double (Finite q) = Finite r /\ (Qabs (r - q) <= pow2 (k - 53))%Q.
Proof. apply binary64_err. Qed.

Lemma Qfloor_near (a b : Q) : (Qabs (a - b) < 1)%Q -> Z.abs (Qfloor a - Qfloor b) <= 1.
Proof.
  intros H. apply Qabs_Qlt_condition in H as [H1 H2].
  pose proof (Qfloor_le a) as Ha1. pose proof (Qlt_floor a) as Ha2.
  pose proof (Qfloor_le b) as Hb1. pose proof (Qlt_floor b) as Hb2.
  rewrite inject_Z_plus in Ha2, Hb2. change (inject_Z 1) with 1%Q in Ha2, Hb2.
  assert (Hlt1 : (inject_Z (Qfloor a) < inject_Z (Qfloor b + 2))%Q)
    by (rewrite inject_Z_plus; change (inject_Z 2) with 2%Q; lra).
  assert (Hlt2 : (inject_Z (Qfloor b) < inject_Z (Qfloor a + 2))%Q)
    by (rewrite inject_Z_plus; change (inject_Z 2) with 2%Q; lra).
  rewrite <- Zlt_Qlt in Hlt1, Hlt2. lia.
Qed.

(** *** The start of a four-digit year *)

Lemma utcYearStart_bound (y : Z) : 1000 <= y <= 9999 -> Z.abs (utcYearStart y) < 2 ^ 48.
Proof.
  intros Hy. unfold utcYearStart, dayFromYear, msPerDay.
  assert (H4 : -243 <= (y - 1969) / 4 <= 2008)
    by (split; [apply Z.div_le_lower_bound | apply Z.div_le_upper_bound]; lia).
  assert (H100 : -10 <= (y - 1901) / 100 <= 81)
    by (split; [apply Z.div_le_lower_bound | apply Z.div_le_upper_bound]; lia).
  assert (H400 : -2 <= (y - 1601) / 400 <= 21)
    by (split; [apply Z.div_le_lower_bound | apply Z.div_le_upper_bound]; lia).
  change (2 ^ 48) with 281474976710656. lia.
Qed.

Lemma truncate_Z (q : Q) (z : Z) : q == inject_Z z -> truncate q = z.
Proof.
  intros E. unfold truncate. destruct (isNegative q).
  - rewrite E. apply Qceiling_Z.
  - rewrite E. apply Qfloor_Z.
Qed.

(** A time value within the range of [Date] is kept by the constructor. *)
Lemma new_Date_Z (z : Z) : Z.abs z < 2 ^ 52 -> new_Date (of_Z z) = of_Z z.
Proof.
  intros Hz. unfold new_Date, of_Z.
  replace (Qle_bool (Qabs (inject_Z z)) (inject_Z 8640000000000000)) with true.
  - now rewrite (truncate_Z (inject_Z z) z).
  - symmetry. apply Qle_bool_iff. change (Qabs (inject_Z z)) with (inject_Z (Z.abs z)).
    rewrite <- Zle_Qle. change (2 ^ 52) with 4503599627370496 in Hz. lia.
Qed.

(** The value where no step of the arithmetic rounds. *)
Lemma dayOfYearToTimeStamp_eq `{Host} (currentYear y : Z) (d : Q) :
  1000 <= y <= 9999 ->
  readsYearStart y ->
  exact64 d = true ->
  exact64 (d - 1) = true ->
  exact64 ((d - 1) * inject_Z msPerDay) = true ->
  exact64 (inject_Z (utcYearStart y) + (d - 1) * inject_Z msPerDay) = true ->
  dayOfYearToTimeStamp currentYear (Finite d) (Some (of_Z y))
  = of_Z (utcYearStart y + Qfloor ((d - 1) * inject_Z msPerDay)).
Proof.
  intros Hy Hstart Hd Hd1 Hprod Hsum. unfold dayOfYearToTimeStamp.
  rewrite (or_else_year _ _ Hy), (Number_toString_year _ Hy). unfold readsYearStart in Hstart.
  rewrite Hstart. pose proof (utcYearStart_bound y Hy) as Hb.
  assert (Hb' : Z.abs (utcYearStart y) < 2 ^ 52)
    by (assert (2 ^ 48 < 2 ^ 52) by (apply Z.pow_lt_mono_r; lia); lia).
  rewrite (new_Date_Z _ Hb'). unfold getTime, add64, sub64, mul64.
  destruct (double_exact d d (Qeq_refl d) Hd) as (r0 & -> & E0).
  change (double (of_Z 1)) with (Finite 1).
  change (double (of_Z (1000 * 60 * 60 * 24))) with (of_Z msPerDay).
  cbn [sub add neg].
  assert (E1 : r0 + Qopp 1 == d - 1) by (rewrite E0; reflexivity).
  destruct (double_exact _ _ E1 Hd1) as (r1 & -> & E1').
  destruct (double_exact _ _ E1' Hd1) as (r1' & -> & E1'').
  change (of_Z msPerDay) with (Finite (inject_Z msPerDay)). cbn [mul].
  assert (E2 : r1' * inject_Z msPerDay == (d - 1) * inject_Z msPerDay) by now rewrite E1''.
  destruct (double_exact _ _ E2 Hprod) as (r2 & -> & E2').
  destruct (double_exact _ _ E2' Hprod) as (r2' & -> & E2'').
  destruct (double_exact _ _ (Qeq_refl _) (exact64_Z _ Hb')) as (r3 & Hr3 & E3).
  change (of_Z (utcYearStart y)) with (Finite (inject_Z (utcYearStart y))).
  rewrite Hr3. cbn [add].
  assert (E4 : r3 + r2' == inject_Z (utcYearStart y) + (d - 1) * inject_Z msPerDay)
    by now rewrite E3, E2''.
  destruct (double_exact _ _ E4 Hsum) as (r4 & -> & E4').
  unfold Math_floor. now rewrite (Qfloor_comp _ _ E4'), Qfloor_add_Z.
Qed.

Lemma inject_Z_pred (n : Z) : inject_Z n - 1 == inject_Z (n - 1).
Proof. unfold Qeq, Qminus, Qplus, Qopp, inject_Z. cbn [Qnum Qden]. lia. Qed.

(** A whole number of milliseconds after the start of the year. *)
Lemma dayOfYearToTimeStamp_whole `{Host} (currentYear y : Z) (d : Q) (n : Z) :
  1000 <= y <= 9999 ->
  readsYearStart y ->
  exact64 d = true ->
  exact64 (d - 1) = true ->
  (d - 1) * inject_Z msPerDay == inject_Z n ->
  Z.abs n < 2 ^ 48 ->
  dayOfYearToTimeStamp currentYear (Finite d) (Some (of_Z y)) = of_Z (utcYearStart y + n).
Proof.
  intros Hy Hstart Hd Hd1 Hn Hbound. pose proof (utcYearStart_bound y Hy) as Hb.
  assert (Hp : 2 ^ 48 < 2 ^ 51 /\ 2 * 2 ^ 51 = 2 ^ 52) by (split; reflexivity).
  rewrite dayOfYearToTimeStamp_eq; try assumption.
  - now rewrite (Qfloor_comp _ _ Hn), Qfloor_Z.
  - rewrite (exact64_compat _ _ Hn). apply exact64_Z. lia.
  - rewrite (exact64_compat _ (inject_Z (utcYearStart y + n))).
    + apply exact64_Z. lia.
    + rewrite Hn, inject_Z_plus. reflexivity.
Qed.

(** For every day count of a year, the result is the floor of a value
    within a thirtieth of a millisecond of the start of the year plus
    [(d - 1)] days, and so within one millisecond of that sum rounded
    down. *)
Lemma dayOfYearToTimeStamp_near `{Host} (currentYear y : Z) (d : Q) :
  1000 <= y <= 9999 ->
  readsYearStart y ->
  (1 <= d <= 367)%Q ->
  exists s : Q,
    dayOfYearToTimeStamp currentYear (Finite d) (Some (of_Z y)) = of_Z (Qfloor s)
    /\ (Qabs (s - (inject_Z (utcYearStart y) + (d - 1) * inject_Z msPerDay)) <= 1 # 30)%Q
    /\ Z.abs (Qfloor s - (utcYearStart y + Qfloor ((d - 1) * inject_Z msPerDay))) <= 1.
Proof.
  intros Hy Hstart Hd. unfold dayOfYearToTimeStamp.
  rewrite (or_else_year _ _ Hy), (Number_toString_year _ Hy). unfold readsYearStart in Hstart.
  rewrite Hstart. pose proof (utcYearStart_bound y Hy) as Hb.
  assert (Hb' : Z.abs (utcYearStart y) < 2 ^ 52)
    by (assert (2 ^ 48 < 2 ^ 52) by (apply Z.pow_lt_mono_r; lia); lia).
  rewrite (new_Date_Z _ Hb'). unfold getTime, add64, sub64, mul64.
  change (double (of_Z 1)) with (Finite 1).
  change (double (of_Z (1000 * 60 * 60 * 24))) with (of_Z msPerDay).
  assert (P9 : pow2 (8 + 1) == 512) by reflexivity.
  assert (P45 : pow2 (8 - 53) == 1 # 35184372088832) by reflexivity.
  assert (P36 : pow2 (35 + 1) == 68719476736) by reflexivity.
  assert (P18 : pow2 (35 - 53) == 1 # 262144) by reflexivity.
  assert (P49 : pow2 (48 + 1) == 562949953421312) by reflexivity.
  assert (P5 : pow2 (48 - 53) == 1 # 32) by reflexivity.
  destruct (double_err d 8 ltac:(lia)) as (r0 & -> & E0).
  { rewrite P9. apply Qabs_Qlt_condition. split; lra. }
  rewrite P45 in E0. apply Qabs_Qle_condition in E0.
  cbn [sub add neg].
  destruct (double_err (r0 + - (1)) 8 ltac:(lia)) as (r1 & -> & E1).
  { rewrite P9. apply Qabs_Qlt_condition. split; lra. }
  rewrite P45 in E1. apply Qabs_Qle_condition in E1.
  destruct (double_err r1 8 ltac:(lia)) as (r1' & -> & E1').
  { rewrite P9. apply Qabs_Qlt_condition. split; lra. }
  rewrite P45 in E1'. apply Qabs_Qle_condition in E1'.
  change (of_Z msPerDay) with (Finite (inject_Z msPerDay)). cbn [mul].
  change (inject_Z msPerDay) with 86400000%Q in *.
  destruct (double_err (r1' * 86400000) 35 ltac:(lia)) as (r2 & -> & E2).
  { rewrite P36. apply Qabs_Qlt_condition. split; lra. }
  rewrite P18 in E2. apply Qabs_Qle_condition in E2.
  destruct (double_err r2 35 ltac:(lia)) as (r2' & -> & E2').
  { rewrite P36. apply Qabs_Qlt_condition. split; lra. }
  rewrite P18 in E2'. apply Qabs_Qle_condition in E2'.
  destruct (double_exact _ _ (Qeq_refl _) (exact64_Z _ Hb')) as (r3 & Hr3 & E3).
  change (of_Z (utcYearStart y)) with (Finite (inject_Z (utcYearStart y))).
  rewrite Hr3. cbn [add].
  assert (Hys : (- (281474976710656) < inject_Z (utcYearStart y) < 281474976710656)%Q).
  { change (2 ^ 48) with 281474976710656 in Hb.
    change (- (281474976710656))%Q with (inject_Z (- 281474976710656)).
    change 281474976710656%Q with (inject_Z 281474976710656).
    rewrite <- !Zlt_Qlt. lia. }
  destruct (double_err (r3 + r2') 48 ltac:(lia)) as (r4 & -> & E4).
  { rewrite P49. apply Qabs_Qlt_condition. split; lra. }
  rewrite P5 in E4. apply Qabs_Qle_condition in E4.
  unfold Math_floor. exists r4. split; [reflexivity|]. split.
  - apply Qabs_Qle_condition. split; lra.
  - rewrite <- Qfloor_add_Z. apply Qfloor_near.
    change (inject_Z msPerDay) with 86400000%Q. apply Qabs_Qlt_condition. split; lra.
Qed.

(** C4, as the code has it.  For a four-digit year [y] that the host reads
    as starting at the UTC start of the year, [dayOfYearToTimeStamp d y] is,
    for every day count [d] of a year, the floor of a value within a
    thirtieth of a millisecond of the start of the year plus [(d - 1)] days
    of 86,400,000 ms, and so within one millisecond of that sum rounded down
    to a whole millisecond.  It is that sum rounded down wherever no step of
    the double arithmetic rounds ([d], [d - 1], [(d - 1)] days in
    milliseconds and their sum with the start of the year are doubles), as
    for every whole day of the year; day 1.0 gives the start of the year and
    day 1.5 gives twelve hours later. *)
Theorem dayOfYearToTimeStamp_floor `{Host} (currentYear y : Z) :
  1000 <= y <= 9999 ->
  readsYearStart y ->
  (forall d : Q,
     (1 <= d <= 367)%Q ->
     exists s : Q,
       dayOfYearToTimeStamp currentYear (Finite d) (Some (of_Z y)) = of_Z (Qfloor s)
       /\ (Qabs (s - (inject_Z (utcYearStart y) + (d - 1) * inject_Z msPerDay)) <= 1 # 30)%Q
       /\ Z.abs (Qfloor s - (utcYearStart y + Qfloor ((d - 1) * inject_Z msPerDay))) <= 1)
  /\ (forall d : Q,
        exact64 d = true ->
        exact64 (d - 1) = true ->
        exact64 ((d - 1) * inject_Z msPerDay) = true ->
        exact64 (inject_Z (utcYearStart y) + (d - 1) * inject_Z msPerDay) = true ->
        dayOfYearToTimeStamp currentYear (Finite d) (Some (of_Z y))
        = of_Z (utcYearStart y + Qfloor ((d - 1) * inject_Z msPerDay)))
  /\ (forall n : Z,
        1 <= n <= 366 ->
        dayOfYearToTimeStamp currentYear (of_Z n) (Some (of_Z y))
        = of_Z (utcYearStart y + (n - 1) * msPerDay))
  /\ dayOfYearToTimeStamp currentYear (Finite 1) (Some (of_Z y)) = of_Z (utcYearStart y)
  /\ dayOfYearToTimeStamp currentYear (Finite 1.5) (Some (of_Z y))
     = of_Z (utcYearStart y + 12 * 60 * 60 * 1000).
Proof.
  intros Hy Hstart.
  assert (Hp : 2 ^ 48 < 2 ^ 52 /\ 2 ^ 36 < 2 ^ 48 /\ 2 ^ 36 = 68719476736)
    by (repeat split; reflexivity).
  split; [|split; [|split; [|split]]].
  - intros d. now apply dayOfYearToTimeStamp_near.
  - intros d. now apply dayOfYearToTimeStamp_eq.
  - intros n Hn. unfold of_Z at 1.
    apply (dayOfYearToTimeStamp_whole currentYear y (inject_Z n) ((n - 1) * msPerDay));
      try assumption.
    + apply exact64_Z. lia.
    + rewrite (exact64_compat _ (inject_Z (n - 1))).
      * apply exact64_Z. lia.
      * apply inject_Z_pred.
    + now rewrite inject_Z_mult, inject_Z_pred.
    + unfold msPerDay. lia.
  - rewrite (dayOfYearToTimeStamp_whole currentYear y 1 0);
      try assumption; try reflexivity.
    now rewrite Z.add_0_r.
  - apply (dayOfYearToTimeStamp_whole currentYear y 1.5 (12 * 60 * 60 * 1000));
      try assumption; reflexivity.
Qed.

Lemma dayOfYearToTimeStamp_floor_witness :
  dayOfYearToTimeStamp 2026 (Finite 264.53125) (Some (of_Z 2008)) = of_Z 1221914700000
  /\ dayOfYearToTimeStamp 2026 (Finite 1) (Some (of_Z 2008)) = of_Z 1199145600000
  /\ dayOfYearToTimeStamp 2026 (Finite 1.5) (Some (of_Z 2008)) = of_Z 1199188800000.
Proof.
  assert (Hy : 1000 <= 2008 <= 9999) by lia.
  assert (Hstart : readsYearStart 2008) by reflexivity.
  destruct (dayOfYearToTimeStamp_floor 2026 2008 Hy Hstart) as (_ & Hd & _ & H1 & H15).
  split; [|split; [exact H1|exact H15]].
  exact (Hd 264.53125%Q eq_refl eq_refl eq_refl eq_refl).
Defined.

(** C4, as stated, fails wherever [(d - 1)] days is not a whole number of
    milliseconds.  For day [1 + 1/4096] of 2021, where the arithmetic is
    exact, the claim gives the start of the year plus 21093.75 ms, and the
    code returns the start of the year plus 21093 ms.  For the double
    nearest to 1.7 the claim gives a value just below 1609519680000, whose
    floor is 1609519679999, and the code, which rounds the sum to a double
    before it takes the floor, returns 1609519680000; for the double nearest to
    [1 + 0.99999 / 86400000] the code returns the start of the year plus
    1 ms. *)
Lemma dayOfYearToTimeStamp_fraction_counterexample :
  readsYearStart 2021
  /\ (dayOfYearToTimeStamp 2026 (Finite (4097 # 4096)) (Some (of_Z 2021))
      = of_Z (utcYearStart 2021 + 21093)
      /\ number_eq (of_Z (utcYearStart 2021 + 21093))
           (Finite (inject_Z (utcYearStart 2021) + ((4097 # 4096) - 1) * inject_Z msPerDay))
         = false)
  /\ (exact64 (7656119366529843 # 4503599627370496) = true
      /\ dayOfYearToTimeStamp 2026 (Finite (7656119366529843 # 4503599627370496))
           (Some (of_Z 2021))
         = of_Z 1609519680000
      /\ number_eq (of_Z 1609519680000)
           (Finite (inject_Z (utcYearStart 2021)
                    + ((7656119366529843 # 4503599627370496) - 1) * inject_Z msPerDay))
         = false
      /\ Qfloor (inject_Z (utcYearStart 2021)
                 + ((7656119366529843 # 4503599627370496) - 1) * inject_Z msPerDay)
         = 1609519679999)
  /\ (exact64 (2251799839747485 # 2251799813685248) = true
      /\ dayOfYearToTimeStamp 2026 (Finite (2251799839747485 # 2251799813685248))
           (Some (of_Z 2021))
         = of_Z (utcYearStart 2021 + 1)).
Proof. repeat split; vm_compute; reflexivity. Qed.

(** The epoch of the ISS element set, day 264.51782528 of 2008. *)
Lemma dayOfYearToTimeStamp_iss_epoch :
  dayOfYearToTimeStamp 2026 (binary64 264.51782528) (Some (of_Z 2008)) = of_Z 1221913540104.
Proof. vm_compute. reflexivity. Qed.

(** ** Parsing *)

(** C8.  Parsing is idempotent: parsing the result of a parse gives that
    result again, and an input that already has the parsed shape is
    returned as it is. *)
Theorem parseTLE_idempotent (tle : tle_input) :
  (let* parsedTLE := parseTLE tle in parseTLE (Parsed parsedTLE)) = parseTLE tle
  /\ (forall parsedTLE : ParsedTLE, parseTLE (Parsed parsedTLE) = Ok parsedTLE).
Proof.
  split.
  - destruct (parseTLE tle) as [parsedTLE|e]; reflexivity.
  - intros parsedTLE. reflexivity.
Qed.

Section PropagationProperties.

Context `{Host} `{Satellite}.

(** ** The cache only grows *)

Lemma getSatelliteInfo_keeps (now : Z) (tle : tle_input)
    (timestamp observerLat observerLng observerHeight : option number)
    (cache : Cache) (k : string) (o : Observation.t) :
  cache !! k = Some o ->
  snd (getSatelliteInfo now tle timestamp observerLat observerLng observerHeight cache) !! k
  = Some o.
Proof.
  intros Hk. unfold getSatelliteInfo.
  destruct (parseTLE tle) as [parsedTLE|e]; [|exact Hk].
  set (key := cacheKey _ _ _ _ _ _).
  destruct (cache !! key) as [cached|] eqn:Hkey; [exact Hk|].
  destruct (error _ _); [exact Hk|]. cbn [snd].
  unfold Cache in *. rewrite lookup_insert_ne; [exact Hk|]. congruence.
Qed.

Lemma getLatLon_keeps (now : Z) (tle : tle_input) (timestamp : option number)
    (cache : Cache) (k : string) (o : Observation.t) :
  cache !! k = Some o -> snd (getLatLon now tle timestamp cache) !! k = Some o.
Proof.
  intros Hk. unfold getLatLon.
  destruct (parseTLE tle) as [tleObj|e]; [|exact Hk].
  destruct (isValidTLE (Parsed tleObj)) as [[|]|e]; try exact Hk.
  pose proof (getSatelliteInfo_keeps now (Lines (arr tleObj)) timestamp None None None
                cache k o Hk) as Hkeep.
  now destruct (getSatelliteInfo now (Lines (arr tleObj)) timestamp None None None cache).
Qed.

Lemma after_keeps (c : call) (cache : Cache) (k : string) (o : Observation.t) :
  cache !! k = Some o -> after c cache !! k = Some o.
Proof.
  intros Hk. destruct c; cbn [after].
  - now apply getSatelliteInfo_keeps.
  - now apply getLatLon_keeps.
  - unfold getLatLonArr.
    pose proof (getLatLon_keeps now tle timestamp cache k o Hk) as Hkeep.
    now destruct (getLatLon now tle timestamp cache).
  - unfold getLookAngles.
    pose proof (getSatelliteInfo_keeps now tle timestamp None None None cache k o Hk) as Hkeep.
    now destruct (getSatelliteInfo now tle timestamp None None None cache).
Qed.

Lemma afterAll_keeps (calls : list call) (cache : Cache) (k : string) (o : Observation.t) :
  cache !! k = Some o -> afterAll calls cache !! k = Some o.
Proof.
  revert cache. induction calls as [|c calls IH]; intros cache Hk; [exact Hk|].
  cbn. apply IH. now apply after_keeps.
Qed.

(** A call that returns an observation leaves it in the cache under the
    call's key. *)
Lemma getSatelliteInfo_stores (now : Z) (tle : tle_input) (parsedTLE : ParsedTLE)
    (timestamp observerLat observerLng observerHeight : option number)
    (cache cache' : Cache) (o : Observation.t) :
  parseTLE tle = Ok parsedTLE ->
  getSatelliteInfo now tle timestamp observerLat observerLng observerHeight cache
  = (Ok o, cache') ->
  cache' !! cacheKey "getSatelliteInfo" (arr parsedTLE) timestamp observerLat observerLng
                     observerHeight
  = Some o.
Proof.
  intros Hparse. unfold getSatelliteInfo. rewrite Hparse.
  set (key := cacheKey _ _ _ _ _ _).
  destruct (cache !! key) as [cached|] eqn:Hkey.
  - intros [= <- <-]. exact Hkey.
  - destruct (error _ _); [discriminate|]. intros [= <- <-].
    unfold Cache in *. apply lookup_insert_eq.
Qed.

(** A call whose key is in the cache returns what is stored there, whatever
    the clock says. *)
Lemma getSatelliteInfo_hit (now : Z) (tle : tle_input) (parsedTLE : ParsedTLE)
    (timestamp observerLat observerLng observerHeight : option number)
    (cache : Cache) (o : Observation.t) :
  parseTLE tle = Ok parsedTLE ->
  cache !! cacheKey "getSatelliteInfo" (arr parsedTLE) timestamp observerLat observerLng
                    observerHeight
  = Some o ->
  getSatelliteInfo now tle timestamp observerLat observerLng observerHeight cache
  = (Ok o, cache).
Proof.
  intros Hparse Hkey. unfold getSatelliteInfo. rewrite Hparse. cbv zeta. now rewrite Hkey.
Qed.

End PropagationProperties.

Section ClientProperties.

Context `{Host} `{Satellite}.

(** ** Look angles *)

Lemma getLookAngles_eq (now : Z) (tle : tle_input) (timestamp lat lng height : option number)
    (cache : Cache) :
  getLookAngles now tle timestamp lat lng height cache
  = (map_result lookAnglesOf (fst (getSatelliteInfo now tle timestamp None None None cache)),
     snd (getSatelliteInfo now tle timestamp None None None cache)).
Proof.
  unfold getLookAngles.
  now destruct (getSatelliteInfo now tle timestamp None None None cache).
Qed.

(** ** Position on the ground *)

(** C7, as the code has it.  [getLatLon] validates the record before any
    position is computed.  When the validator reports the record invalid
    the call fails with 'TLE could not be parsed'; when the validator
    itself raises (the checksum of a line of fewer than two characters) the
    call fails with that error; in both cases the cache is left as it was
    and nothing is returned.  When the record is valid the call returns the
    latitude and longitude of the observation [getSatelliteInfo] gives for
    the record's lines, the timestamp and no observer. *)
Theorem getLatLon_validates (now : Z) (tle : tle_input) (parsedTLE : ParsedTLE)
    (timestamp : option number) (cache : Cache) :
  parseTLE tle = Ok parsedTLE ->
  (isValidTLE (Parsed parsedTLE) = Ok false ->
     getLatLon now tle timestamp cache = (Throw (Error "TLE could not be parsed"), cache))
  /\ (forall e, isValidTLE (Parsed parsedTLE) = Throw e ->
        getLatLon now tle timestamp cache = (Throw e, cache))
  /\ (isValidTLE (Parsed parsedTLE) = Ok true ->
        getLatLon now tle timestamp cache
        = (map_result latLonOf
             (fst (getSatelliteInfo now (Lines (arr parsedTLE)) timestamp None None None cache)),
           snd (getSatelliteInfo now (Lines (arr parsedTLE)) timestamp None None None cache))).
Proof.
  intros Hparse. unfold getLatLon. rewrite Hparse. repeat split.
  - now intros ->.
  - now intros e ->.
  - intros ->.
    now destruct (getSatelliteInfo now (Lines (arr parsedTLE)) timestamp None None None cache).
Qed.

(** ** Observer defaults *)

Lemma or_else_omitZero (x : option number) (d : number) : or_else (omitZero x) d = or_else x d.
Proof.
  destruct x as [[| |q]|]; try reflexivity. unfold omitZero.
  destruct (isZero q) eqn:E; [|reflexivity]. cbn. now rewrite E.
Qed.

Lemma or_else_default (x : option number) (d : number) :
  truthy d = true -> or_else (Some (or_else x d)) d = or_else x d.
Proof.
  intros Hd. destruct x as [n|]; cbn.
  - destruct (truthy n) eqn:E; cbn; now rewrite ?E, ?Hd.
  - now rewrite Hd.
Qed.

(** What a call whose key is not in the cache computes depends on the
    clock and the timestamp only through the time propagated to, and on the
    observer only through the coordinates with the defaults filled in; the
    cache plays no part in it. *)
Lemma getSatelliteInfo_computes (now now' : Z) (tle : tle_input) (parsedTLE : ParsedTLE)
    (timestamp lat lng height timestamp' lat' lng' height' : option number)
    (cache cache' : Cache) :
  parseTLE tle = Ok parsedTLE ->
  cache !! cacheKey "getSatelliteInfo" (arr parsedTLE) timestamp lat lng height = None ->
  cache' !! cacheKey "getSatelliteInfo" (arr parsedTLE) timestamp' lat' lng' height' = None ->
  or_else timestamp' (of_Z now') = or_else timestamp (of_Z now) ->
  or_else lat' (Finite 36.9613422) = or_else lat (Finite 36.9613422) ->
  or_else lng' (Finite (-122.0308)) = or_else lng (Finite (-122.0308)) ->
  or_else height' (Finite 0.370) = or_else height (Finite 0.370) ->
  fst (getSatelliteInfo now' tle timestamp' lat' lng' height' cache')
  = fst (getSatelliteInfo now tle timestamp lat lng height cache).
Proof.
  intros Hparse Hmiss Hmiss' Htime Hlat Hlng Hheight. unfold getSatelliteInfo.
  rewrite Hparse. cbv zeta. rewrite Hmiss, Hmiss'. cbn [Geodetic.latitude Geodetic.longitude
    Geodetic.height]. rewrite Htime, Hlat, Hlng, Hheight.
  now destruct (error _ _).
Qed.

(** *** The text of the key *)

Lemma Number_toString_zero (q : Q) : isZero q = true -> Number_toString (Finite q) = "0".
Proof.
  destruct q as [n d]. unfold isZero. cbn [Qnum]. intros Hn. apply Z.eqb_eq in Hn. subst n.
  reflexivity.
Qed.

(** For one record and one observer, two keys are the same exactly when
    the timestamp arguments render to the same text. *)
Lemma cacheKey_timestamp (fnName : string) (tleArr : list string)
    (timestamp timestamp' lat lng height : option number) :
  cacheKey fnName tleArr timestamp' lat lng height
  = cacheKey fnName tleArr timestamp lat lng height
  <-> toString timestamp' = toString timestamp.
Proof.
  unfold cacheKey. split.
  - intros E. do 6 apply append_cancel_l in E. now apply append_cancel_r in E.
  - now intros ->.
Qed.

Lemma omitZero_cases (x : option number) :
  omitZero x = x \/ (omitZero x = None /\ toString x = "0").
Proof.
  destruct x as [[| |q]|]; try (now left). unfold omitZero.
  destruct (isZero q) eqn:E; [right|now left]. split; [reflexivity|].
  now apply Number_toString_zero.
Qed.

(** A key with a coordinate 0 differs from the key with that coordinate
    left out. *)
Lemma cacheKey_zero (fnName : string) (tleArr : list string)
    (timestamp lat lng height : option number) :
  (omitZero lat, omitZero lng, omitZero height) <> (lat, lng, height) ->
  cacheKey fnName tleArr timestamp (omitZero lat) (omitZero lng) (omitZero height)
  <> cacheKey fnName tleArr timestamp lat lng height.
Proof.
  intros Hne E. unfold cacheKey in E. do 8 apply append_cancel_l in E.
  destruct (omitZero_cases lat) as [Hlat | [Hlat Hzero]].
  2:{ rewrite Hlat, Hzero in E. discriminate. }
  rewrite Hlat in E. do 2 apply append_cancel_l in E.
  destruct (omitZero_cases lng) as [Hlng | [Hlng Hzero]].
  2:{ rewrite Hlng, Hzero in E. discriminate. }
  rewrite Hlng in E. do 2 apply append_cancel_l in E.
  destruct (omitZero_cases height) as [Hheight | [Hheight Hzero]].
  2:{ rewrite Hheight, Hzero in E. discriminate. }
  apply Hne. now rewrite Hlat, Hlng, Hheight.
Qed.

(** C9, as the code has it.  A call with an observer coordinate equal to 0
    that is not answered from the cache returns what the call with the
    coordinate left out returns when it is not answered from the cache
    either, whatever cache each of the two runs on, and what the call with
    the default coordinate (latitude 36.9613422, longitude -122.0308, height
    0.370) passed explicitly returns then.  A call that is answered from the
    cache returns what is stored under its own key, and the key with a
    coordinate 0 is not the key with the coordinate left out. *)
Theorem getSatelliteInfo_zero_coordinate (now : Z) (tle : tle_input) (parsedTLE : ParsedTLE)
    (timestamp lat lng height : option number) (cache : Cache) :
  parseTLE tle = Ok parsedTLE ->
  (cache !! cacheKey "getSatelliteInfo" (arr parsedTLE) timestamp lat lng height = None ->
   forall cache' : Cache,
     (cache' !! cacheKey "getSatelliteInfo" (arr parsedTLE) timestamp
                  (omitZero lat) (omitZero lng) (omitZero height) = None ->
      fst (getSatelliteInfo now tle timestamp lat lng height cache)
      = fst (getSatelliteInfo now tle timestamp (omitZero lat) (omitZero lng)
               (omitZero height) cache'))
     /\ (cache' !! cacheKey "getSatelliteInfo" (arr parsedTLE) timestamp
                     (Some (or_else lat (Finite 36.9613422)))
                     (Some (or_else lng (Finite (-122.0308))))
                     (Some (or_else height (Finite 0.370))) = None ->
         fst (getSatelliteInfo now tle timestamp lat lng height cache)
         = fst (getSatelliteInfo now tle timestamp
                  (Some (or_else lat (Finite 36.9613422)))
                  (Some (or_else lng (Finite (-122.0308))))
                  (Some (or_else height (Finite 0.370))) cache')))
  /\ (forall o,
        cache !! cacheKey "getSatelliteInfo" (arr parsedTLE) timestamp lat lng height
        = Some o ->
        getSatelliteInfo now tle timestamp lat lng height cache = (Ok o, cache))
  /\ ((omitZero lat, omitZero lng, omitZero height) <> (lat, lng, height) ->
      cacheKey "getSatelliteInfo" (arr parsedTLE) timestamp
        (omitZero lat) (omitZero lng) (omitZero height)
      <> cacheKey "getSatelliteInfo" (arr parsedTLE) timestamp lat lng height).
Proof.
  intros Hparse. split; [|split].
  - intros Hmiss cache'. split; intros Hmiss'; symmetry.
    + apply (getSatelliteInfo_computes _ _ _ _ _ _ _ _ _ _ _ _ _ _ Hparse Hmiss Hmiss');
        try reflexivity; apply or_else_omitZero.
    + apply (getSatelliteInfo_computes _ _ _ _ _ _ _ _ _ _ _ _ _ _ Hparse Hmiss Hmiss');
        try reflexivity; now apply or_else_default.
  - intros o Hhit. now apply (getSatelliteInfo_hit _ _ _ _ _ _ _ _ _ Hparse).
  - apply cacheKey_zero.
Qed.

(** ** Memoisation *)

Lemma or_else_falsy (x : option number) (d : number) : falsy x -> or_else x d = d.
Proof. destruct x as [n|]; [|reflexivity]. cbn. now intros ->. Qed.

(** C10, as the code has it.  The cache key is built from the timestamp
    argument as passed, not from the time used for propagation: for one
    record and one observer two keys are the same exactly when the two
    timestamp arguments render to the same text, and an omitted timestamp
    renders [undefined], a zero [0] and [NaN] its name.  When the argument
    is falsy the time a call would propagate to is the clock's; yet once a
    call has returned an observation, every later call with the same
    record, timestamp argument and observer returns that same observation,
    whatever calls were made in between and whatever the clock says at
    either call.  A call with a falsy timestamp whose own key is not in the
    cache is not answered from that entry: it returns what a call without a
    timestamp computes on an empty cache at the same clock time. *)
Theorem getSatelliteInfo_omitted_timestamp (now1 now2 : Z) (tle : tle_input)
    (timestamp lat lng height : option number) (cache cache1 : Cache)
    (o : Observation.t) (calls : list call) :
  falsy timestamp ->
  getSatelliteInfo now1 tle timestamp lat lng height cache = (Ok o, cache1) ->
  or_else timestamp (of_Z now2) = of_Z now2
  /\ getSatelliteInfo now2 tle timestamp lat lng height (afterAll calls cache1)
     = (Ok o, afterAll calls cache1)
  /\ (forall (tleArr : list string) (timestamp' : option number),
        cacheKey "getSatelliteInfo" tleArr timestamp' lat lng height
        = cacheKey "getSatelliteInfo" tleArr timestamp lat lng height
        <-> toString timestamp' = toString timestamp)
  /\ (toString None = "undefined"
      /\ toString (Some NaN) = "NaN"
      /\ forall q, isZero q = true -> toString (Some (Finite q)) = "0")
  /\ (forall (parsedTLE : ParsedTLE) (timestamp' : option number) (cache2 : Cache),
        parseTLE tle = Ok parsedTLE ->
        falsy timestamp' ->
        cache2 !! cacheKey "getSatelliteInfo" (arr parsedTLE) timestamp' lat lng height
        = None ->
        fst (getSatelliteInfo now2 tle timestamp' lat lng height cache2)
        = fst (getSatelliteInfo now2 tle None lat lng height ∅)).
Proof.
  intros Hfalsy Hfirst. split; [|split; [|split; [|split]]].
  - now apply or_else_falsy.
  - destruct (parseTLE tle) as [parsedTLE|e] eqn:Hparse.
    + apply (getSatelliteInfo_hit _ _ _ _ _ _ _ _ _ Hparse).
      apply afterAll_keeps. exact (getSatelliteInfo_stores _ _ _ _ _ _ _ _ _ _ Hparse Hfirst).
    + unfold getSatelliteInfo in Hfirst. rewrite Hparse in Hfirst. discriminate.
  - intros tleArr timestamp'. apply cacheKey_timestamp.
  - split; [reflexivity|]. split; [reflexivity|]. intros q Hq. now apply Number_toString_zero.
  - intros parsedTLE timestamp' cache2 Hparse Hfalsy' Hmiss.
    apply (getSatelliteInfo_computes now2 now2 tle parsedTLE None lat lng height
             timestamp' lat lng height ∅ cache2 Hparse); try reflexivity; try assumption.
    now apply or_else_falsy.
Qed.

(** ** Ground track *)

Lemma window_open (now : Z) :
  lt (sub (of_Z now) (of_Z (1000 * 60 * 60 * 3))) (add (of_Z now) (of_Z (1000 * 60 * 60 * 3)))
  = true.
Proof.
  unfold lt, sub, add, neg, of_Z. apply negb_true_iff.
  destruct (Qle_bool _ _) eqn:E; [|reflexivity].
  apply Qle_bool_iff in E. unfold Qle in E. cbn in E. lia.
Qed.

(** C6, on the code as written.  [getGroundTrack] returns no track: the
    first pass through the loop ends in a [ReferenceError] at the call of
    the free identifier [getLatLonArr], or, where the enclosing scope binds
    that name, in whatever that function throws or in the [TypeError] of
    the assignment to the constant [curMarkerTime]. *)
Theorem getGroundTrack_throws (fuel : nat) (scope : option callee) (now : Z)
    (tle : tle_input) (stepMS : option number) (cache : Cache) :
  exists e cache',
    getGroundTrack (S fuel) scope now tle stepMS cache = Some (Throw e, cache')
    /\ (scope = None -> e = ReferenceError "getLatLonArr is not defined" /\ cache' = cache).
Proof.
  unfold getGroundTrack. cbn [groundTrackLoop]. rewrite window_open.
  destruct scope as [getLatLonArr|].
  - destruct (getLatLonArr tle _ cache) as [[latLng|e] cache'].
    + cbn [assign]. eexists _, cache'. split; [reflexivity|discriminate].
    + exists e, cache'. split; [reflexivity|discriminate].
  - eexists _, cache. split; [reflexivity|]. intros _. split; reflexivity.
Qed.

End ClientProperties.

(** ** The clients in the example environment *)

(** C5, on the code as written.  [getLookAngles] declares the observer's
    latitude, longitude and height and passes none of them on: its result
    is the one for the call without an observer.  In the example
    environment, for an observer at height 1 it reports the range 2000.37
    seen from the default observer, where [getSatelliteInfo] for that
    observer gives 2001. *)
Theorem getLookAngles_drops_observer :
  (forall (host : Host) (library : Satellite) (now : Z) (tle : tle_input)
          (timestamp lat lng height : option number) (cache : Cache),
     getLookAngles now tle timestamp lat lng height cache
     = getLookAngles now tle timestamp None None None cache
     /\ fst (getLookAngles now tle timestamp lat lng height cache)
        = map_result lookAnglesOf
            (fst (getSatelliteInfo now tle timestamp None None None cache)))
  /\ map_result LookAngles.range
       (fst (getLookAngles 0 (Parsed iss) (Some (of_Z 1000))
               (Some (of_Z 10)) (Some (of_Z 20)) (Some (of_Z 1)) ∅))
     = Ok (Finite 2000.370)
  /\ map_result Observation.range
       (fst (getSatelliteInfo 0 (Parsed iss) (Some (of_Z 1000))
               (Some (of_Z 10)) (Some (of_Z 20)) (Some (of_Z 1)) ∅))
     = Ok (of_Z 2001).
Proof.
  split; [|split].
  - intros host library now tle timestamp lat lng height cache.
    rewrite !getLookAngles_eq. split; reflexivity.
  - vm_compute. reflexivity.
  - vm_compute. reflexivity.
Qed.

Lemma getLatLon_validates_witness :
  fst (getLatLon 0 (Parsed iss) (Some (of_Z 1000)) ∅)
  = Ok {| LatLon.lat := of_Z 1000; LatLon.lng := of_Z 1000 |}
  /\ getLatLon 0 (Parsed (withLine iss 0 (replaceLast issLine1 "3"%char))) (Some (of_Z 1000)) ∅
     = (Throw (Error "TLE could not be parsed"), ∅).
Proof.
  split.
  - destruct (getLatLon_validates 0 (Parsed iss) iss (Some (of_Z 1000)) ∅ eq_refl)
      as (_ & _ & Hvalid).
    rewrite Hvalid by (vm_compute; reflexivity). vm_compute. reflexivity.
  - destruct (getLatLon_validates 0
                (Parsed (withLine iss 0 (replaceLast issLine1 "3"%char)))
                (withLine iss 0 (replaceLast issLine1 "3"%char))
                (Some (of_Z 1000)) ∅ eq_refl)
      as (Hinvalid & _ & _).
    apply Hinvalid. vm_compute. reflexivity.
Defined.

(** C7, as stated, fails on a record with a line of one character: the
    validator does not report it invalid but raises 'Character array
    empty!', and that error, not 'TLE could not be parsed', is what
    [getLatLon] fails with. *)
Lemma getLatLon_short_line_counterexample :
  isValidTLE (Parsed stubby) = Throw (Error "Character array empty!")
  /\ getLatLon 0 (Parsed stubby) (Some (of_Z 1000)) ∅
     = (Throw (Error "Character array empty!"), ∅)
  /\ fst (getLatLon 0 (Parsed stubby) (Some (of_Z 1000)) ∅)
     <> Throw (Error "TLE could not be parsed").
Proof.
  split; [|split].
  - vm_compute. reflexivity.
  - vm_compute. reflexivity.
  - vm_compute. discriminate.
Qed.

Lemma getSatelliteInfo_zero_coordinate_witness :
  fst (getSatelliteInfo 0 (Parsed iss) (Some (of_Z 1000)) (Some (of_Z 0)) None (Some (of_Z 0)) ∅)
  = fst (getSatelliteInfo 0 (Parsed iss) (Some (of_Z 1000)) None None None ∅)
  /\ fst (getSatelliteInfo 0 (Parsed iss) (Some (of_Z 1000)) (Some (of_Z 0)) None
            (Some (of_Z 0)) ∅)
     = fst (getSatelliteInfo 0 (Parsed iss) (Some (of_Z 1000))
              (Some (Finite 36.9613422)) (Some (Finite (-122.0308))) (Some (Finite 0.370)) ∅).
Proof.
  destruct (getSatelliteInfo_zero_coordinate 0 (Parsed iss) iss (Some (of_Z 1000))
              (Some (of_Z 0)) None (Some (of_Z 0)) ∅ eq_refl) as (Hmiss & _ & _).
  destruct (Hmiss eq_refl ∅) as [Homit Hdefault].
  split; [exact (Homit eq_refl)|exact (Hdefault eq_refl)].
Defined.

(** C9, as stated, fails for calls answered from the cache, because the key
    tells a coordinate 0 from an omitted one.  After a call at clock 1000
    with timestamp 0 and latitude 0, at clock 2000 the same call returns
    the stored observation of time 1000, while the call without the
    latitude computes the one of time 2000.  With timestamps that are not
    falsy the same happens where keys meet: after a call on the record
    [dashed] with timestamp 5 and latitude 0, the call on [plain] with
    timestamp -5 and latitude 0 returns the observation stored for
    [dashed], and the call without the latitude computes the one of
    [plain]. *)
Lemma getSatelliteInfo_zero_coordinate_counterexample :
  (let cache := snd (getSatelliteInfo 1000 (Parsed iss) (Some (of_Z 0)) (Some (of_Z 0))
                       None None ∅) in
   map_result Observation.lng
     (fst (getSatelliteInfo 2000 (Parsed iss) (Some (of_Z 0)) (Some (of_Z 0)) None None cache))
   = Ok (of_Z 1000)
   /\ map_result Observation.lng
        (fst (getSatelliteInfo 2000 (Parsed iss) (Some (of_Z 0)) None None None cache))
      = Ok (of_Z 2000))
  /\ (let cache := snd (getSatelliteInfo 0 (Parsed dashed) (Some (of_Z 5)) (Some (of_Z 0))
                          None None ∅) in
      map_result Observation.lng
        (fst (getSatelliteInfo 0 (Parsed plain) (Some (of_Z (-5))) (Some (of_Z 0)) None None
                cache))
      = Ok (of_Z 5)
      /\ map_result Observation.lng
           (fst (getSatelliteInfo 0 (Parsed plain) (Some (of_Z (-5))) None None None cache))
         = Ok (of_Z (-5))).
Proof. repeat split; vm_compute; reflexivity. Qed.

(** C10, as stated, fails for falsy timestamps that are not the same
    value: they do not share one key.  After a call without a timestamp at
    clock 1000, a call without a timestamp at clock 2000 returns the stored
    observation of time 1000, while the calls with timestamp 0 and with
    timestamp [NaN] at clock 2000 are not answered from that entry and
    compute the observation of time 2000; the three keys differ. *)
Lemma getSatelliteInfo_falsy_timestamp_counterexample :
  let cache1 := snd (getSatelliteInfo 1000 (Parsed iss) None None None None ∅) in
  map_result Observation.lng
    (fst (getSatelliteInfo 2000 (Parsed iss) None None None None cache1))
  = Ok (of_Z 1000)
  /\ map_result Observation.lng
       (fst (getSatelliteInfo 2000 (Parsed iss) (Some (of_Z 0)) None None None cache1))
     = Ok (of_Z 2000)
  /\ map_result Observation.lng
       (fst (getSatelliteInfo 2000 (Parsed iss) (Some NaN) None None None cache1))
     = Ok (of_Z 2000)
  /\ String.eqb (cacheKey "getSatelliteInfo" (arr iss) None None None None)
                (cacheKey "getSatelliteInfo" (arr iss) (Some (of_Z 0)) None None None)
     = false
  /\ String.eqb (cacheKey "getSatelliteInfo" (arr iss) None None None None)
                (cacheKey "getSatelliteInfo" (arr iss) (Some NaN) None None None)
     = false
  /\ String.eqb (cacheKey "getSatelliteInfo" (arr iss) (Some (of_Z 0)) None None None)
                (cacheKey "getSatelliteInfo" (arr iss) (Some NaN) None None None)
     = false.
Proof. repeat split; vm_compute; reflexivity. Qed.

Lemma getSatelliteInfo_omitted_timestamp_witness :
  map_result Observation.lng
    (fst (getSatelliteInfo 2000 (Parsed iss) None None None None
            (afterAll [CallLatLon 1500 (Parsed iss) (Some (of_Z 7))]
               (snd (getSatelliteInfo 1000 (Parsed iss) None None None None ∅)))))
  = Ok (of_Z 1000)
  /\ map_result Observation.lng (fst (getSatelliteInfo 2000 (Parsed iss) None None None None ∅))
     = Ok (of_Z 2000).
Proof.
  split.
  - pose (r := getSatelliteInfo 1000 (Parsed iss) None None None None ∅).
    assert (Hfirst : exists o, fst r = Ok o /\ Observation.lng o = of_Z 1000).
    { eexists. split; vm_compute; reflexivity. }
    destruct Hfirst as (o & Hfirst & Hlng).
    apply (f_equal (fun x => (x, snd r))) in Hfirst. rewrite <- surjective_pairing in Hfirst.
    destruct (getSatelliteInfo_omitted_timestamp 1000 2000 (Parsed iss) None None None None
                ∅ (snd r) o [CallLatLon 1500 (Parsed iss) (Some (of_Z 7))] I Hfirst)
      as (_ & Hlater & _).
    fold r. rewrite Hlater. cbn. now rewrite Hlng.
  - vm_compute. reflexivity.
Defined.

(** ** The checksum against its documentation *)

(** C1, on the code as written.  The documentation of [tleLineChecksum]
    has every character that is neither a digit nor a minus sign ignored.
    The code seeds the sum with the first character itself and reads it
    with [parseInt], so a line that does not start with a digit yields
    [NaN]: for the name line 'ISS (ZARYA)' the documented checksum is 0,
    for '-12' it is 2 and for '-1' it is 1, and the code returns [NaN] for
    all three. *)
Theorem tleLineChecksum_nondigit_first :
  (tleLineChecksum "ISS (ZARYA)" = Ok NaN /\ documentedChecksum "ISS (ZARYA)" = 0)
  /\ (tleLineChecksum "-12" = Ok NaN /\ documentedChecksum "-12" = 2)
  /\ (tleLineChecksum "-1" = Ok NaN /\ documentedChecksum "-1" = 1).
Proof.
  repeat split; try (rewrite tleLineChecksum_eq; reflexivity); vm_compute; reflexivity.
Qed.

(** Whenever the line without its last character starts with something
    that is not a digit and has more than one character, the result is
    [NaN]. *)
Lemma tleLineChecksum_NaN (tleLine : string) (c c' : ascii) (rest : list ascii) :
  removelast (list_ascii_of_string tleLine) = c :: c' :: rest ->
  digitValue c = None ->
  tleLineChecksum tleLine = Ok NaN.
Proof. intros Hl Hc. now rewrite tleLineChecksum_eq, Hl, Hc. Qed.

Lemma tleLineChecksum_NaN_witness : tleLineChecksum " 25544U" = Ok NaN.
Proof.
  apply (tleLineChecksum_NaN " 25544U" " "%char "2"%char (list_ascii_of_string "5544"));
    reflexivity.
Defined.

Lemma tleLineChecksum_digit_first_witness :
  tleLineChecksum issLine1 = Ok (of_Z 7) /\ documentedChecksum issLine1 = 7.
Proof.
  split; [|reflexivity].
  exact (tleLineChecksum_digit_first issLine1 "1"%char
           (List.tl (removelast (list_ascii_of_string issLine1))) 1 eq_refl eq_refl).
Defined.

(** ** The specification's end-to-end scenario *)

(** On the element set the scenario quotes, the getters return the values
    the scenario lists, and the validator returns [false]: the checksums
    computed for the two lines are 9 and 6, and the digits stored in
    column 68 are 2 and 5. *)
Lemma scenario_values :
  isValidTLE scenario = Ok false
  /\ tleLineChecksum scenarioLine1 = Ok (of_Z 9)
  /\ tleLineChecksum scenarioLine2 = Ok (of_Z 6)
  /\ getChecksum1 scenario = Ok (VNum (of_Z 2))
  /\ getChecksum2 scenario = Ok (VNum (of_Z 5))
  /\ getMeanMotion scenario = Ok (VNum (binary64 15.48783287))
  /\ getEpochYear scenario = Ok (VNum (of_Z 21))
  /\ getEpochDay scenario = Ok (VNum (binary64 275.52719505)).
Proof. repeat split; vm_compute; reflexivity. Qed.

(** ** The sampling loop with a mutable marker

    What the loop of [getGroundTrack] does once its marker can be
    assigned and the sampled function is in scope: this is the reading
    under which the documented number of samples is right. *)

Lemma Qceiling_add_1 (x : Q) : Qceiling (x + 1) = Qceiling x + 1.
Proof.
  unfold Qceiling.
  assert (E : (- (x + 1) == inject_Z (-1) + - x)%Q) by (change (inject_Z (-1)) with (-1)%Q; ring).
  rewrite (Qfloor_comp _ _ E), Qfloor_add_Z. lia.
Qed.

Lemma samples_done (endTime cur step : Q) :
  (0 < step)%Q -> (endTime <= cur)%Q -> samples endTime cur step = 0%nat.
Proof.
  intros Hs Hle. unfold samples, Qceiling.
  assert (H0 : (0 <= - ((endTime - cur) / step))%Q).
  { assert (Hne : ~ (step == 0)%Q) by (intros E; rewrite E in Hs; now apply Qlt_irrefl in Hs).
    assert (E : (- ((endTime - cur) / step) == (cur - endTime) / step)%Q) by now field.
    rewrite E. apply Qle_shift_div_l; [assumption|]. rewrite Qmult_0_l.
    unfold Qminus. rewrite <- Qle_minus_iff. assumption. }
  apply Qfloor_resp_le in H0. change (Qfloor 0) with 0 in H0. lia.
Qed.

Lemma samples_step (endTime cur step : Q) :
  (0 < step)%Q -> (cur < endTime)%Q ->
  samples endTime cur step = S (samples endTime (cur + step) step).
Proof.
  intros Hs Hlt. unfold samples.
  assert (Hne : ~ (step == 0)%Q) by (intros E; rewrite E in Hs; now apply Qlt_irrefl in Hs).
  assert (E : ((endTime - cur) / step == (endTime - (cur + step)) / step + 1)%Q) by now field.
  rewrite (Qceiling_comp _ _ E), Qceiling_add_1.
  assert (H0 : 0 <= Qceiling ((endTime - (cur + step)) / step)).
  { unfold Qceiling.
    assert (Hlt1 : (- ((endTime - (cur + step)) / step) < 1)%Q).
    { assert (E1 : (- ((endTime - (cur + step)) / step) == 1 - (endTime - cur) / step)%Q)
        by now field.
      rewrite E1.
      assert (Hpos : (0 < (endTime - cur) / step)%Q).
      { apply Qlt_shift_div_l; [assumption|]. rewrite Qmult_0_l.
        unfold Qminus. rewrite <- Qlt_minus_iff. assumption. }
      apply Qlt_minus_iff.
      assert (E2 : (1 + - (1 - (endTime - cur) / step) == (endTime - cur) / step)%Q) by ring.
      rewrite E2. assumption. }
    assert (Hf : Qfloor (- ((endTime - (cur + step)) / step)) < 1).
    { destruct (Z_lt_le_dec (Qfloor (- ((endTime - (cur + step)) / step))) 1)
        as [|Hge]; [assumption|].
      exfalso. apply (Qlt_not_le _ _ Hlt1).
      apply Qle_trans with (y := inject_Z (Qfloor (- ((endTime - (cur + step)) / step)))).
      - change 1%Q with (inject_Z 1). rewrite <- Zle_Qle. assumption.
      - apply Qfloor_le. }
    lia. }
  rewrite Z2Nat.inj_add by lia. change (Z.to_nat 1) with 1%nat. lia.
Qed.

Section MutableMarker.

Context `{Host} `{Satellite}.

Variable getLatLonArr : callee.
Hypothesis getLatLonArr_returns :
  forall tle timestamp cache, exists latLng cache',
    getLatLonArr tle timestamp cache = (Ok latLng, cache').

Lemma groundTrackLoop_var (tle : tle_input) (step endTime : Q) :
  (0 < step)%Q ->
  forall (n fuel : nat) (cur : Q) (latLngs : list (list number)) (cache : Cache),
    samples endTime cur step = n ->
    (n <= fuel)%nat ->
    exists track cache',
      groundTrackLoop fuel Var_ (Some getLatLonArr) tle (Finite step) (Finite endTime)
        (Finite cur) latLngs cache
      = Some (Ok track, cache')
      /\ List.length track = (List.length latLngs + n)%nat.
Proof.
  intros Hs. induction n as [|n IH]; intros fuel cur latLngs cache Hn Hfuel.
  - assert (Hge : (endTime <= cur)%Q).
    { destruct (Qlt_le_dec cur endTime) as [Hlt|]; [|assumption].
      rewrite (samples_step _ _ _ Hs Hlt) in Hn. discriminate. }
    exists latLngs, cache. split; [|lia].
    destruct fuel; cbn [groundTrackLoop lt];
      now rewrite (proj2 (Qle_bool_iff endTime cur) Hge).
  - assert (Hlt : (cur < endTime)%Q).
    { destruct (Qlt_le_dec cur endTime) as [|Hge]; [assumption|].
      rewrite (samples_done _ _ _ Hs Hge) in Hn. discriminate. }
    rewrite (samples_step _ _ _ Hs Hlt) in Hn. injection Hn as Hn.
    destruct fuel as [|fuel]; [lia|]. cbn [groundTrackLoop lt].
    replace (Qle_bool endTime cur) with false.
    2:{ symmetry. apply not_true_is_false. rewrite Qle_bool_iff. now apply Qlt_not_le. }
    cbn [negb].
    destruct (getLatLonArr_returns tle (Some (Finite cur)) cache) as (latLng & cache1 & ->).
    cbn [assign add].
    destruct (IH fuel (cur + step)%Q (latLngs ++ [latLng]) cache1 Hn ltac:(lia))
      as (track & cache' & -> & Hlen).
    exists track, cache'. split; [reflexivity|].
    rewrite Hlen, length_app. cbn. lia.
Qed.

(** With an assignable marker and the sampled function in scope, the loop
    over the six-hour window around [now] collects exactly
    [ceil(21600000 / stepMS)] samples; 360 of them for the default step. *)
Lemma groundTrack_var_count (now : Z) (tle : tle_input) (stepMS : Q) (fuel : nat)
    (cache : Cache) :
  (0 < stepMS)%Q ->
  (Z.to_nat (Qceiling (21600000 / stepMS)) <= fuel)%nat ->
  exists track cache',
    groundTrackLoop fuel Var_ (Some getLatLonArr) tle (Finite stepMS)
      (add (of_Z now) (of_Z (1000 * 60 * 60 * 3)))
      (sub (of_Z now) (of_Z (1000 * 60 * 60 * 3))) [] cache
    = Some (Ok track, cache')
    /\ List.length track = Z.to_nat (Qceiling (21600000 / stepMS)).
Proof.
  intros Hs Hfuel.
  assert (Hne : ~ (stepMS == 0)%Q) by (intros E; rewrite E in Hs; now apply Qlt_irrefl in Hs).
  assert (E : ((inject_Z now + inject_Z (1000 * 60 * 60 * 3)
                - (inject_Z now + - inject_Z (1000 * 60 * 60 * 3))) / stepMS
               == 21600000 / stepMS)%Q).
  { change (inject_Z (1000 * 60 * 60 * 3)) with 10800000%Q. now field. }
  destruct (groundTrackLoop_var tle stepMS
              (inject_Z now + inject_Z (1000 * 60 * 60 * 3)) Hs
              (Z.to_nat (Qceiling (21600000 / stepMS))) fuel
              (inject_Z now + - inject_Z (1000 * 60 * 60 * 3)) [] cache)
    as (track & cache' & Hrun & Hlen).
  - unfold samples. now rewrite (Qceiling_comp _ _ E).
  - assumption.
  - exists track, cache'. split; [exact Hrun|exact Hlen].
Qed.

End MutableMarker.

(** ** Further properties *)

(** What [tleLineChecksum] returns, case by case.  It throws when dropping
    the last character leaves nothing.  When one character is left, the
    result is its value if it is a digit, 0 if it is white space, and [NaN]
    otherwise.  When several are left, the result is the sum of the
    contributions modulo 10 if the first is a digit, and [NaN] otherwise. *)
Theorem tleLineChecksum_cases (tleLine : string) :
  tleLineChecksum tleLine
  = match removelast (list_ascii_of_string tleLine) with
    | [] => Throw (Error "Character array empty!")
    | [c] =>
        Ok (match digitValue c with
            | Some d => of_Z d
            | None => if isWhiteSpace c then of_Z 0 else NaN
            end)
    | c :: rest =>
        Ok (match digitValue c with
            | Some d => of_Z ((d + contributions rest) mod 10)
            | None => NaN
            end)
    end.
Proof. exact (tleLineChecksum_eq tleLine). Qed.

(** On a line that starts with a digit, as every line of an element set
    does, the checksum computed is the documented one. *)
Theorem tleLineChecksum_documented (tleLine : string) (c : ascii) (rest : list ascii) (d : Z) :
  removelast (list_ascii_of_string tleLine) = c :: rest ->
  digitValue c = Some d ->
  tleLineChecksum tleLine = Ok (of_Z (documentedChecksum tleLine))
  /\ 0 <= documentedChecksum tleLine <= 9.
Proof.
  intros Hl Hd. split; [exact (tleLineChecksum_digit_first _ _ _ _ Hl Hd)|].
  unfold documentedChecksum.
  match goal with |- 0 <= ?x mod 10 <= 9 => pose proof (Z.mod_pos_bound x 10) end. lia.
Qed.

Lemma tleLineChecksum_documented_witness :
  tleLineChecksum issLine2 = Ok (of_Z 7) /\ 0 <= 7 <= 9.
Proof.
  exact (tleLineChecksum_documented issLine2 "2"%char
           (List.tl (removelast (list_ascii_of_string issLine2))) 2 eq_refl eq_refl).
Defined.

Section CacheProperties.

Context `{Host} `{Satellite}.

(** An observation once stored under a key stays there, unchanged, through
    every later call: nothing is evicted or overwritten. *)
Theorem cache_entries_persist (calls : list call) (cache : Cache) (k : string)
    (o : Observation.t) :
  cache !! k = Some o -> afterAll calls cache !! k = Some o.
Proof. intros Hk. now apply afterAll_keeps. Qed.

(** A second call with the same record, timestamp and observer is answered
    from the cache: it returns the stored observation and leaves the cache
    as it is, so nothing is propagated again. *)
Theorem getSatelliteInfo_memoised (now1 now2 : Z) (tle : tle_input)
    (timestamp lat lng height : option number) (cache cache1 : Cache) (o : Observation.t) :
  getSatelliteInfo now1 tle timestamp lat lng height cache = (Ok o, cache1) ->
  getSatelliteInfo now2 tle timestamp lat lng height cache1 = (Ok o, cache1).
Proof.
  intros Hfirst. destruct (parseTLE tle) as [parsedTLE|e] eqn:Hparse.
  - apply (getSatelliteInfo_hit _ _ _ _ _ _ _ _ _ Hparse).
    exact (getSatelliteInfo_stores _ _ _ _ _ _ _ _ _ _ Hparse Hfirst).
  - unfold getSatelliteInfo in Hfirst. rewrite Hparse in Hfirst. discriminate.
Qed.

End CacheProperties.

Lemma cache_entries_persist_witness :
  exists o,
    afterAll [CallLookAngles 5 (Parsed iss) (Some (of_Z 9)) None None None]
      (snd (getSatelliteInfo 0 (Text "a") None None None None ∅))
    !! "getSatelliteInfo-a-undefined-undefined-undefined-undefined-undefined"
    = Some o.
Proof.
  eexists. apply cache_entries_persist. vm_compute. reflexivity.
Defined.

Lemma getSatelliteInfo_memoised_witness :
  fst (getSatelliteInfo 2000 (Text "a") (Some (of_Z 5)) None None None
         (snd (getSatelliteInfo 1000 (Text "a") (Some (of_Z 5)) None None None ∅)))
  = fst (getSatelliteInfo 1000 (Text "a") (Some (of_Z 5)) None None None ∅).
Proof.
  pose (r := getSatelliteInfo 1000 (Text "a") (Some (of_Z 5)) None None None ∅).
  assert (Hfirst : exists o, fst r = Ok o) by (eexists; vm_compute; reflexivity).
  destruct Hfirst as (o & Hfirst).
  fold r. rewrite Hfirst.
  apply (f_equal (fun x => (x, snd r))) in Hfirst. rewrite <- surjective_pairing in Hfirst.
  now rewrite (getSatelliteInfo_memoised 1000 2000 _ _ _ _ _ _ _ _ Hfirst).
Defined.

(** * Properties of the rest of the program *)

(** ** Trimming *)

Lemma dropWhile_idem {A} (p : A -> bool) (l : list A) :
  dropWhile p (dropWhile p l) = dropWhile p l.
Proof.
  induction l as [|x l IH]; [reflexivity|]. cbn. destruct (p x) eqn:E; [exact IH|].
  cbn. now rewrite E.
Qed.

Lemma dropWhile_app {A} (p : A -> bool) (l m : list A) :
  dropWhile p (l ++ m)
  = match dropWhile p l with
    | [] => dropWhile p m
    | t => t ++ m
    end.
Proof.
  induction l as [|x l IH]; [cbn; now destruct (dropWhile p m)|].
  cbn. destruct (p x); [exact IH|reflexivity].
Qed.

Lemma trimEnd_cons (x : ascii) (l : list ascii) :
  trimEnd (x :: l)
  = match trimEnd l with
    | [] => if isWhiteSpace x then [] else [x]
    | t => x :: t
    end.
Proof.
  unfold trimEnd, trimStart. cbn [rev]. rewrite dropWhile_app.
  destruct (dropWhile isWhiteSpace (rev l)) as [|y t] eqn:E.
  - cbn [dropWhile rev app]. now destruct (isWhiteSpace x).
  - rewrite rev_app_distr. change (rev [x]) with [x].
    destruct (rev (y :: t)) as [|z u] eqn:Er; [|reflexivity].
    apply (f_equal (@List.length ascii)) in Er. rewrite length_rev in Er. discriminate.
Qed.

Lemma trimEnd_idem (l : list ascii) : trimEnd (trimEnd l) = trimEnd l.
Proof. unfold trimEnd, trimStart. now rewrite rev_involutive, dropWhile_idem. Qed.

(** A list is clean at its head when it is empty or starts with a
    character that is not white space. *)
Lemma trimStart_fixed (l : list ascii) :
  trimStart l = l <-> match l with [] => True | x :: _ => isWhiteSpace x = false end.
Proof.
  destruct l as [|x l]; [easy|]. unfold trimStart. cbn [dropWhile].
  destruct (isWhiteSpace x) eqn:E.
  - split; [|discriminate]. intros Hd. exfalso.
    assert (Hlen : (List.length (dropWhile isWhiteSpace l) <= List.length l)%nat).
    { clear. induction l as [|y l IH]; cbn [dropWhile List.length]; [lia|].
      destruct (isWhiteSpace y); cbn [List.length]; lia. }
    rewrite Hd in Hlen. cbn in Hlen. lia.
  - easy.
Qed.

Lemma trimStart_head (l : list ascii) :
  match trimStart l with [] => True | x :: _ => isWhiteSpace x = false end.
Proof.
  induction l as [|x l IH]; [exact I|]. unfold trimStart in *. cbn [dropWhile].
  destruct (isWhiteSpace x) eqn:E; [exact IH|exact E].
Qed.

Lemma trimEnd_head (l : list ascii) :
  match l with [] => True | x :: _ => isWhiteSpace x = false end ->
  match trimEnd l with [] => True | x :: _ => isWhiteSpace x = false end.
Proof.
  destruct l as [|x l]; [easy|]. intros Hx. rewrite trimEnd_cons.
  destruct (trimEnd l); [now rewrite Hx|exact Hx].
Qed.

Lemma trim_chars (s : string) :
  list_ascii_of_string (trim s) = trimEnd (trimStart (list_ascii_of_string s)).
Proof. unfold trim. apply list_ascii_of_string_of_list_ascii. Qed.

Lemma trim_idempotent (s : string) : trim (trim s) = trim s.
Proof.
  apply string_eq_chars. rewrite !trim_chars.
  set (t := trimEnd (trimStart (list_ascii_of_string s))).
  assert (Ht : trimStart t = t).
  { apply trimStart_fixed. apply trimEnd_head. apply trimStart_head. }
  rewrite Ht. apply trimEnd_idem.
Qed.

(** A string that neither starts nor ends with white space is its own
    trim. *)
Lemma trim_fixed (body : list ascii) (x y : ascii) :
  isWhiteSpace x = false -> isWhiteSpace y = false ->
  trim (string_of_list_ascii (x :: body ++ [y])) = string_of_list_ascii (x :: body ++ [y]).
Proof.
  intros Hx Hy. apply string_eq_chars.
  rewrite trim_chars, !list_ascii_of_string_of_list_ascii.
  assert (Hs : trimStart (x :: body ++ [y]) = x :: body ++ [y])
    by (apply trimStart_fixed; exact Hx).
  rewrite Hs. unfold trimEnd, trimStart.
  change (x :: body ++ [y]) with ((x :: body) ++ [y]).
  rewrite rev_unit. cbn [dropWhile]. rewrite Hy.
  change (rev (y :: rev (x :: body))) with (rev (rev (x :: body)) ++ [y]).
  now rewrite rev_involutive.
Qed.

(** ** Splitting *)

Lemma split_nonempty (c : ascii) (s : string) : split c s <> [].
Proof.
  destruct s as [|a s]; cbn [split]; [discriminate|].
  destruct (Ascii.eqb a c); [discriminate|]. now destruct (split c s).
Qed.

Lemma split_none (c : ascii) (s : string) : hasChar c s = false -> split c s = [s].
Proof.
  induction s as [|a s IH]; [reflexivity|]. cbn [hasChar split]. intros Hc.
  apply orb_false_iff in Hc as [Ha Hs]. now rewrite Ha, (IH Hs).
Qed.

Lemma split_at (c : ascii) (s t : string) :
  hasChar c s = false -> split c (s +:+ String c t) = s :: split c t.
Proof.
  induction s as [|a s IH]; intros Hc.
  - rewrite append_nil. cbn [split]. now rewrite Ascii.eqb_refl.
  - cbn [hasChar] in Hc. rewrite append_cons. cbn [split].
    apply orb_false_iff in Hc as [Ha Hs]. now rewrite Ha, (IH Hs).
Qed.

Lemma split_trailing (c : ascii) (s : string) :
  split c (s +:+ String c EmptyString) = split c s ++ [EmptyString].
Proof.
  induction s as [|a s IH].
  - rewrite append_nil. cbn [split app]. now rewrite Ascii.eqb_refl.
  - rewrite append_cons. cbn [split]. rewrite IH. destruct (Ascii.eqb a c); [reflexivity|].
    destruct (split c s) as [|w ws] eqn:E; [now apply split_nonempty in E|reflexivity].
Qed.

Lemma split_joinLines (lines : list string) :
  lines <> [] ->
  Forall (fun line => hasChar "010" line = false) lines ->
  split "010" (joinLines lines) = lines.
Proof.
  intros Hne Hall. induction Hall as [|line lines Hline Hall IH]; [contradiction|].
  destruct lines as [|line' lines].
  - cbn. now apply split_none.
  - change (joinLines (line :: line' :: lines))
      with (line +:+ String "010"%char (joinLines (line' :: lines))).
    rewrite (split_at _ _ _ Hline). f_equal. apply IH. discriminate.
Qed.

(** ** What the parser returns *)

Lemma parseTLE_unparsed (tle : tle_input) :
  unparsed tle = true ->
  exists tleArr,
    match tle with
    | Lines l => tleArr = l
    | Text s => tleArr = split "010" s
    | _ => False
    end
    /\ parseTLE tle
       = Ok (if (2 <? List.length tleArr)%nat
             then {| name := List.hd EmptyString tleArr; arr := map trim (List.tl tleArr) |}
             else {| name := "Unknown"; arr := map trim tleArr |}).
Proof.
  destruct tle as [r|l|s|ty|]; try discriminate; intros _; eexists; (split; [reflexivity|]);
    unfold parseTLE; now destruct (2 <? _)%nat.
Qed.

Lemma map_trim_fixed (lines : list string) :
  Forall (fun line => trim line = line) lines -> map trim lines = lines.
Proof. induction 1 as [|line lines Hl _ IH]; cbn; congruence. Qed.

(** The lines the parser returns for a text or an array are trimmed; when
    there are at most two of them, parsing them again as an array returns
    the same lines. *)
Theorem parseTLE_lines_trimmed (tle : tle_input) (parsedTLE : ParsedTLE) :
  unparsed tle = true ->
  parseTLE tle = Ok parsedTLE ->
  Forall (fun line => trim line = line) (arr parsedTLE)
  /\ ((List.length (arr parsedTLE) <= 2)%nat ->
      exists parsedAgain,
        parseTLE (Lines (arr parsedTLE)) = Ok parsedAgain
        /\ arr parsedAgain = arr parsedTLE).
Proof.
  intros Hu Hparse. destruct (parseTLE_unparsed tle Hu) as (tleArr & _ & E).
  rewrite E in Hparse.
  assert (Htrim : Forall (fun line => trim line = line) (arr parsedTLE)).
  { assert (Hmap : forall xs, Forall (fun line => trim line = line) (map trim xs)).
    { induction xs as [|x xs IH]; constructor; [apply trim_idempotent|exact IH]. }
    destruct (2 <? _)%nat; injection Hparse as <-; cbn [arr]; apply Hmap. }
  split; [exact Htrim|]. intros Hlen. eexists. split.
  - unfold parseTLE. replace (2 <? List.length (arr parsedTLE))%nat with false
      by (symmetry; apply Nat.ltb_ge; lia). reflexivity.
  - cbn [arr]. now apply map_trim_fixed.
Qed.

Lemma parseTLE_lines_trimmed_witness :
  Forall (fun line => trim line = line) ["1 2"; "2 3"]
  /\ exists parsedAgain,
       parseTLE (Lines ["1 2"; "2 3"]) = Ok parsedAgain /\ arr parsedAgain = ["1 2"; "2 3"].
Proof.
  destruct (parseTLE_lines_trimmed
              (Text (joinLines ["  ISS "; "  1 2  "; String "009" "2 3"]))
              {| name := "  ISS "; arr := ["1 2"; "2 3"] |} eq_refl eq_refl) as [Ht Ha].
  split; [exact Ht|]. apply Ha. cbn. lia.
Defined.

(** A text of lines joined by line feeds parses like the array of those
    lines, as long as no line holds a line feed itself. *)
Theorem parseTLE_text_as_lines (lines : list string) :
  lines <> [] ->
  Forall (fun line => hasChar "010" line = false) lines ->
  parseTLE (Text (joinLines lines)) = parseTLE (Lines lines).
Proof.
  intros Hne Hall. unfold parseTLE. now rewrite (split_joinLines lines Hne Hall).
Qed.

Lemma parseTLE_text_as_lines_witness :
  parseTLE (Text (joinLines [issLine1; issLine2])) = parseTLE (Lines [issLine1; issLine2]).
Proof.
  apply parseTLE_text_as_lines; [discriminate|].
  repeat constructor.
Defined.

(** ** Validation and the number of lines *)

Lemma isValidTLE_arr (tle tle' : ParsedTLE) :
  arr tle = arr tle' -> isValidTLE (Parsed tle) = isValidTLE (Parsed tle').
Proof.
  intros E. destruct (arr tle) as [|line1 [|line2 [|line3 rest]]] eqn:Harr;
    try (rewrite !isValidTLE_length by (rewrite <- ?E, ?Harr; cbn; lia); reflexivity).
  now rewrite (isValidTLE_two_lines _ _ _ Harr), (isValidTLE_two_lines tle' line1 line2).
Qed.

(** An array of fewer than two lines or of more than three is reported
    invalid without a look at its lines; with three lines the first one is
    the name and plays no part: the array is valid exactly when its last
    two lines are. *)
Theorem isValidTLE_by_line_count :
  isValidTLE (Lines []) = Ok false
  /\ (forall line, isValidTLE (Lines [line]) = Ok false)
  /\ (forall tleName line1 line2,
        isValidTLE (Lines [tleName; line1; line2]) = isValidTLE (Lines [line1; line2]))
  /\ (forall a b c d rest, isValidTLE (Lines (a :: b :: c :: d :: rest)) = Ok false).
Proof.
  split; [reflexivity|]. split; [reflexivity|]. split.
  - intros tleName line1 line2.
    rewrite (isValidTLE_parsed (Lines [tleName; line1; line2])
               {| name := tleName; arr := [trim line1; trim line2] |} eq_refl).
    rewrite (isValidTLE_parsed (Lines [line1; line2])
               {| name := "Unknown"; arr := [trim line1; trim line2] |} eq_refl).
    now apply isValidTLE_arr.
  - intros a b c d rest.
    rewrite (isValidTLE_parsed (Lines (a :: b :: c :: d :: rest))
               {| name := a; arr := map trim (b :: c :: d :: rest) |} eq_refl).
    apply isValidTLE_length. cbn. lia.
Qed.

Lemma parseTLE_trailing_newline (s : string) :
  exists parsedTLE front,
    parseTLE (Text (s +:+ String "010" EmptyString)) = Ok parsedTLE
    /\ arr parsedTLE = front ++ [EmptyString].
Proof.
  unfold parseTLE. rewrite split_trailing.
  destruct (split "010" s) as [|w ws] eqn:Es; [now apply split_nonempty in Es|].
  destruct (2 <? _)%nat; eexists; eexists; (split; [reflexivity|]); cbn [arr List.tl app].
  - rewrite map_app. reflexivity.
  - change (w :: ws ++ [EmptyString]) with ((w :: ws) ++ [EmptyString]).
    rewrite map_app. reflexivity.
Qed.

(** A text that ends in a line feed is never reported valid, the validator
    returns [false] for it or throws: the empty string after the last line
    feed counts as a line, so a two-line text loses its first line to the
    name. *)
Theorem isValidTLE_trailing_newline (s : string) :
  isValidTLE (Text (s +:+ String "010" EmptyString)) = Ok false
  \/ exists e, isValidTLE (Text (s +:+ String "010" EmptyString)) = Throw e.
Proof.
  destruct (isValidTLE (Text (s +:+ String "010" EmptyString))) as [[|]|e] eqn:Hv;
    [exfalso|now left|right; now exists e].
  destruct (parseTLE_trailing_newline s) as (parsedTLE & front & E & Hfront).
  rewrite (isValidTLE_parsed _ _ E) in Hv.
  apply isValidTLE_true in Hv as (line1 & line2 & Harr & _ & H2).
  rewrite Hfront in Harr.
  assert (line2 = EmptyString).
  { change [line1; line2] with ([line1] ++ [line2]) in Harr.
    apply app_inj_tail in Harr as [_ ?]. congruence. }
  subst line2. destruct H2 as [H0 _]. discriminate.
Qed.

(** ** What the validator throws *)

Lemma removelast_nil_iff {A} (l : list A) : removelast l = [] <-> (List.length l <= 1)%nat.
Proof.
  destruct l as [|x [|y l]]; cbn; split; intros Hl; try reflexivity; try lia; discriminate.
Qed.

Lemma tleLineChecksum_throws (line : string) (e : exn) :
  tleLineChecksum line = Throw e
  <-> (String.length line <= 1)%nat /\ e = Error "Character array empty!".
Proof.
  rewrite tleLineChecksum_eq, <- length_chars, <- removelast_nil_iff.
  destruct (removelast (list_ascii_of_string line)) as [|c [|c' rest]].
  - split; [intros [= <-]; now split|intros [_ ->]; reflexivity].
  - split; [discriminate|intros [[=] _]].
  - split; [discriminate|intros [[=] _]].
Qed.

Lemma substr_char_length (line : string) (start : nat) (c : ascii) :
  substr line start 1 = String c EmptyString -> (start < String.length line)%nat.
Proof.
  intros E. apply (f_equal list_ascii_of_string) in E. unfold substr in E.
  rewrite substring_chars in E. rewrite <- length_chars.
  destruct (Nat.lt_ge_cases start (List.length (list_ascii_of_string line))) as [|Hge];
    [assumption|].
  rewrite skipn_all2 in E by assumption. cbn in E. discriminate.
Qed.

Lemma linePasses_length (n : Z) (line : string) :
  linePasses n line -> (69 <= String.length line)%nat.
Proof.
  intros [_ (d & Hd & H68 & _)]. destruct (digit_digitValue d Hd) as (c & Hc & _).
  rewrite Hc in H68. apply substr_char_length in H68. lia.
Qed.

(** The parser throws on inputs of another type, and on nothing else. *)
Lemma parseTLE_throws (tle : tle_input) (e : exn) :
  parseTLE tle = Throw e
  <-> (tle = Null /\ e = TypeError "Cannot read properties of null (reading 'arr')")
      \/ exists tleType,
           tle = Other tleType /\ e = Error ("TLE passed is invalid type " +:+ tleType).
Proof.
  destruct tle as [r|l|s|ty|].
  - split; [discriminate|intros [[[=] _] | (? & [=] & _)]].
  - split; [|intros [[[=] _] | (? & [=] & _)]]. unfold parseTLE. now destruct (2 <? _)%nat.
  - split; [|intros [[[=] _] | (? & [=] & _)]]. unfold parseTLE. now destruct (2 <? _)%nat.
  - cbn. split.
    + intros [= <-]. right. now exists ty.
    + intros [[[=] _] | (tleType & [= <-] & ->)]. reflexivity.
  - cbn. split.
    + intros [= <-]. now left.
    + intros [[_ ->] | (? & [=] & _)]. reflexivity.
Qed.

(** The validator throws in three situations only: the input is [null],
    whose property [arr] cannot be read, which is a [TypeError]; the input
    is of another type the parser rejects; or the record has two lines and
    the checksum of a line it checks cannot be computed because the line has
    fewer than two characters (line 1, or line 2 when line 1 passed).  In
    every other case it returns [true] or [false]. *)
Theorem isValidTLE_throws (tle : tle_input) (e : exn) :
  isValidTLE tle = Throw e
  <-> (tle = Null /\ e = TypeError "Cannot read properties of null (reading 'arr')")
      \/ (exists tleType,
            tle = Other tleType /\ e = Error ("TLE passed is invalid type " +:+ tleType))
      \/ (e = Error "Character array empty!"
          /\ exists parsedTLE line1 line2,
               parseTLE tle = Ok parsedTLE /\ arr parsedTLE = [line1; line2]
               /\ ((String.length line1 <= 1)%nat
                   \/ (linePasses 1 line1 /\ (String.length line2 <= 1)%nat))).
Proof.
  destruct (parseTLE tle) as [parsedTLE|e0] eqn:Hparse.
  - rewrite (isValidTLE_parsed _ _ Hparse). split.
    + intros Hthrow. right. right.
      destruct (arr parsedTLE) as [|line1 [|line2 [|line3 rest]]] eqn:Harr;
        try (rewrite isValidTLE_length in Hthrow by (rewrite Harr; cbn; lia); discriminate).
      rewrite (isValidTLE_two_lines _ _ _ Harr) in Hthrow.
      destruct (tleLineChecksum line1) as [c1|e1] eqn:E1; cbn [bind] in Hthrow.
      * destruct (passes 1 line1 c1) eqn:P1; [|discriminate].
        destruct (tleLineChecksum line2) as [c2|e2] eqn:E2; [discriminate|].
        cbn [bind] in Hthrow. injection Hthrow as <-.
        apply tleLineChecksum_throws in E2 as [Hlen ->]. split; [reflexivity|].
        exists parsedTLE, line1, line2. repeat split; try assumption. right. split; [|exact Hlen].
        now apply (passes_iff 1 line1 c1).
      * injection Hthrow as <-. apply tleLineChecksum_throws in E1 as [Hlen ->].
        split; [reflexivity|]. exists parsedTLE, line1, line2. repeat split; try assumption.
        now left.
    + intros [[-> _] | [(tleType & -> & _) | (-> & r & line1 & line2 & Hr & Harr & Hcase)]];
        [discriminate|discriminate|].
      injection Hr as <-.
      rewrite (isValidTLE_two_lines _ _ _ Harr). destruct Hcase as [Hlen | [H1 Hlen]].
      * now rewrite (proj2 (tleLineChecksum_throws line1 _) (conj Hlen eq_refl)).
      * destruct H1 as [H10 (d1 & Hd1 & H168 & E1)]. rewrite E1. cbn [bind].
        rewrite (proj2 (passes_iff 1 line1 (of_Z d1) ltac:(lia) E1)).
        2:{ split; [assumption|]. now exists d1. }
        now rewrite (proj2 (tleLineChecksum_throws line2 _) (conj Hlen eq_refl)).
  - unfold isValidTLE. rewrite Hparse. cbn [bind]. split.
    + intros [= <-]. apply parseTLE_throws in Hparse as [Hnull | Hother];
        [now left | right; now left].
    + intros [Hnull | [Hother | (_ & r & l1 & l2 & Hr & _)]].
      * assert (Hthrow : parseTLE tle = Throw e) by (apply parseTLE_throws; now left).
        congruence.
      * assert (Hthrow : parseTLE tle = Throw e) by (apply parseTLE_throws; now right).
        congruence.
      * congruence.
Qed.

(** ** Getters on arbitrary inputs *)

Lemma callGetter_input (getterName : string) (tle : tle_input) (parsedTLE : ParsedTLE) :
  parseTLE tle = Ok parsedTLE ->
  callGetter getterName tle = callGetter getterName (Parsed parsedTLE).
Proof.
  intros Hparse. unfold callGetter. destruct (createTLEGetters !! getterName) as [[l p]|];
    [|reflexivity].
  unfold getter. now rewrite Hparse.
Qed.

Ltac schema_cases Hin :=
  cbn in Hin; repeat (destruct Hin as [[= <- <- <-] | Hin]); try contradiction.

Lemma getter_lookup (tleLine prop_ : string) (spec : FieldSpec.t) :
  In (tleLine, prop_, spec) schema ->
  createTLEGetters !! toCamelCase ("get-" +:+ prop_) None = Some (tleLine, prop_)
  /\ prop tleLine tleLines ≫= prop prop_ = Some spec
  /\ (FieldSpec.start spec + FieldSpec.length spec <= 69)%nat
  /\ (tleLine = "line1" \/ tleLine = "line2").
Proof.
  intros Hin. schema_cases Hin;
    (split; [vm_compute; reflexivity|]); (split; [reflexivity|]);
    (split; [cbn; lia|]); tauto.
Qed.

Lemma getter_missing_line (tleLine prop_ : string) (spec : FieldSpec.t) (tle : ParsedTLE) :
  In (tleLine, prop_, spec) schema ->
  lineOf tleLine tle = None ->
  callGetter (toCamelCase ("get-" +:+ prop_) None) (Parsed tle)
  = Throw (TypeError "line is undefined").
Proof.
  intros Hin Hline. destruct (getter_lookup _ _ _ Hin) as (Hget & Hspec & _ & _).
  unfold callGetter. rewrite Hget. unfold getter. cbn [parseTLE bind].
  rewrite Hspec. unfold lineOf in Hline. now rewrite Hline.
Qed.

Lemma substr_beyond (line : string) (start length : nat) :
  (String.length line <= start)%nat -> substr line start length = EmptyString.
Proof.
  intros Hl. apply string_eq_chars. unfold substr. rewrite substring_chars.
  rewrite skipn_all2 by (rewrite length_chars; exact Hl). now destruct length.
Qed.

(** What a getter does on any input.  It throws what the parser throws; it
    throws a [TypeError] when the record lacks the line of its field; on
    every other input it returns a finite number or the raw text of its
    columns, never [NaN] or an infinity, and the empty string when the line
    ends before the field starts. *)
Theorem getter_outcomes (tleLine prop_ : string) (spec : FieldSpec.t) (tle : tle_input) :
  In (tleLine, prop_, spec) schema ->
  match parseTLE tle with
  | Throw e => callGetter (toCamelCase ("get-" +:+ prop_) None) tle = Throw e
  | Ok parsedTLE =>
      match lineOf tleLine parsedTLE with
      | None =>
          callGetter (toCamelCase ("get-" +:+ prop_) None) tle
          = Throw (TypeError "line is undefined")
      | Some line =>
          exists v,
            callGetter (toCamelCase ("get-" +:+ prop_) None) tle = Ok v
            /\ match v with
               | VNum n => Number_isFinite n = true
               | VStr s => s = substr line (FieldSpec.start spec) (FieldSpec.length spec)
               end
            /\ ((String.length line <= FieldSpec.start spec)%nat -> v = VStr EmptyString)
      end
  end.
Proof.
  intros Hin. destruct (parseTLE tle) as [parsedTLE|e] eqn:Hparse.
  - rewrite (callGetter_input _ _ _ Hparse).
    destruct (lineOf tleLine parsedTLE) as [line|] eqn:Hline.
    + rewrite (getter_eq _ _ _ _ _ Hin Hline). eexists. split; [reflexivity|]. split.
      * unfold coerced. now destruct (parseFloat _).
      * intros Hshort. now rewrite substr_beyond.
    + now apply (getter_missing_line tleLine prop_ spec).
  - destruct (getter_lookup _ _ _ Hin) as (Hget & _). unfold callGetter. rewrite Hget.
    unfold getter. now rewrite Hparse.
Qed.

Lemma getter_outcomes_witness :
  callGetter "getInclination" (Lines ["1 25544U"]) = Throw (TypeError "line is undefined")
  /\ exists v, callGetter "getBstarDrag" (Lines ["1 25544U"]) = Ok v /\ v = VStr EmptyString.
Proof.
  split.
  - assert (Hin : In ("line2", "inclination", field 8 8) schema) by in_schema.
    exact (getter_outcomes "line2" "inclination" (field 8 8) (Lines ["1 25544U"]) Hin).
  - assert (Hin : In ("line1", "bstarDrag", field 53 8) schema) by in_schema.
    destruct (getter_outcomes "line1" "bstarDrag" (field 53 8) (Lines ["1 25544U"]) Hin)
      as (v & Hv & _ & Hshort).
    exists v. split; [exact Hv|]. apply Hshort. cbn. lia.
Defined.

(** ** Getters on a valid record *)

(** On an input the validator accepts, every getter of the column table
    succeeds and reads a field of full width: both lines are there and have
    at least 69 characters, and no field reaches beyond column 68. *)
Theorem valid_record_getters (tleLine prop_ : string) (spec : FieldSpec.t) (tle : tle_input) :
  In (tleLine, prop_, spec) schema ->
  isValidTLE tle = Ok true ->
  exists parsedTLE line,
    parseTLE tle = Ok parsedTLE
    /\ lineOf tleLine parsedTLE = Some line
    /\ (69 <= String.length line)%nat
    /\ String.length (substr line (FieldSpec.start spec) (FieldSpec.length spec))
       = FieldSpec.length spec
    /\ callGetter (toCamelCase ("get-" +:+ prop_) None) tle
       = Ok (coerced (substr line (FieldSpec.start spec) (FieldSpec.length spec))).
Proof.
  intros Hin Hv. destruct (parseTLE tle) as [parsedTLE|e] eqn:Hparse.
  2:{ unfold isValidTLE in Hv. rewrite Hparse in Hv. discriminate. }
  rewrite (isValidTLE_parsed _ _ Hparse) in Hv.
  apply isValidTLE_true in Hv as (line1 & line2 & Harr & H1 & H2).
  destruct (getter_lookup _ _ _ Hin) as (_ & _ & Hwithin & Hwhich).
  assert (Hline : exists line, lineOf tleLine parsedTLE = Some line
                               /\ (69 <= String.length line)%nat).
  { unfold lineOf. rewrite Harr. destruct Hwhich as [-> | ->]; cbn.
    - exists line1. split; [reflexivity|]. now apply (linePasses_length 1).
    - exists line2. split; [reflexivity|]. now apply (linePasses_length 2). }
  destruct Hline as (line & Hline & Hlen). exists parsedTLE, line.
  split; [reflexivity|]. split; [exact Hline|]. split; [exact Hlen|]. split.
  - apply substr_length. lia.
  - rewrite (callGetter_input _ _ _ Hparse). exact (getter_eq _ _ _ _ _ Hin Hline).
Qed.

Lemma valid_record_getters_witness :
  exists parsedTLE line,
    parseTLE (Lines [issLine1; issLine2]) = Ok parsedTLE
    /\ lineOf "line2" parsedTLE = Some line
    /\ (69 <= String.length line)%nat
    /\ String.length (substr line 63 5) = 5%nat
    /\ callGetter "getRevNumberAtEpoch" (Lines [issLine1; issLine2])
       = Ok (coerced (substr line 63 5)).
Proof.
  assert (Hin : In ("line2", "revNumberAtEpoch", field 63 5) schema) by in_schema.
  assert (Hv : isValidTLE (Lines [issLine1; issLine2]) = Ok true) by (vm_compute; reflexivity).
  exact (valid_record_getters "line2" "revNumberAtEpoch" (field 63 5)
           (Lines [issLine1; issLine2]) Hin Hv).
Defined.

(** ** Sealing a line with its checksum *)

Lemma digit_char (d : Z) :
  0 <= d <= 9 ->
  exists c, digit d = String c EmptyString /\ digitValue c = Some d
            /\ isWhiteSpace c = false.
Proof.
  intros Hd. destruct (digit_digitValue d Hd) as (c & Hc & Hv). exists c.
  split; [exact Hc|]. split; [exact Hv|]. revert Hv. clear.
  each_char c; intros Hv; try reflexivity; vm_compute in Hv; discriminate.
Qed.

Lemma sealed_chars (body : string) :
  exists c,
    list_ascii_of_string (sealed body) = list_ascii_of_string body ++ [c]
    /\ digit (contributions (list_ascii_of_string body) mod 10) = String c EmptyString
    /\ isWhiteSpace c = false.
Proof.
  pose proof (Z.mod_pos_bound (contributions (list_ascii_of_string body)) 10 ltac:(lia)) as Hd.
  destruct (digit_char _ (conj (proj1 Hd) (proj1 (Z.lt_le_pred _ _) (proj2 Hd))))
    as (c & Hc & _ & Hws). exists c.
  unfold sealed. rewrite append_chars, Hc. now split.
Qed.

(** A 68-character body that starts with the digit [n], sealed with its
    checksum digit, passes as line [n]. *)
Lemma sealed_passes (n : Z) (c0 : ascii) (rest : string) :
  digitValue c0 = Some n ->
  String.length rest = 67%nat ->
  linePasses n (sealed (String c0 rest)).
Proof.
  intros Hn Hlen. destruct (sealed_chars (String c0 rest)) as (c & Hchars & Hc & _).
  assert (Hbody : List.length (list_ascii_of_string (String c0 rest)) = 68%nat)
    by (rewrite length_chars; cbn; lia).
  split.
  - apply string_eq_chars. unfold substr. rewrite substring_chars, Hchars.
    rewrite <- (digitValue_digit _ _ Hn). reflexivity.
  - exists (contributions (list_ascii_of_string (String c0 rest)) mod 10).
    split; [pose proof (Z.mod_pos_bound
                          (contributions (list_ascii_of_string (String c0 rest))) 10); lia|].
    split.
    + rewrite <- Hbody, Hc. now apply substr_last.
    + rewrite (tleLineChecksum_digit_first _ c0 (list_ascii_of_string rest) n).
      * unfold documentedChecksum. now rewrite Hchars, removelast_last.
      * now rewrite Hchars, removelast_last.
      * exact Hn.
Qed.

Lemma sealed_trimmed (n : Z) (c0 : ascii) (rest : string) :
  digitValue c0 = Some n -> trim (sealed (String c0 rest)) = sealed (String c0 rest).
Proof.
  intros Hn. destruct (sealed_chars (String c0 rest)) as (c & Hchars & _ & Hws).
  rewrite <- (string_of_list_ascii_of_string (sealed (String c0 rest))), Hchars.
  cbn [list_ascii_of_string app]. apply trim_fixed; [|exact Hws].
  revert Hn. clear. each_char c0; intros Hn; try reflexivity; vm_compute in Hn; discriminate.
Qed.

(** Sealing is the inverse of validation: two 68-character bodies that
    start with 1 and 2, each followed by the digit of its documented
    checksum, form a record the validator accepts. *)
Theorem sealed_is_valid (rest1 rest2 : string) :
  String.length rest1 = 67%nat ->
  String.length rest2 = 67%nat ->
  isValidTLE (Lines [sealed (String "1" rest1); sealed (String "2" rest2)]) = Ok true.
Proof.
  intros H1 H2.
  rewrite (isValidTLE_parsed _
             {| name := "Unknown";
                arr := [sealed (String "1" rest1); sealed (String "2" rest2)] |}).
  - apply isValidTLE_true. eexists _, _. split; [reflexivity|]. split.
    + now apply (sealed_passes 1).
    + now apply (sealed_passes 2).
  - unfold parseTLE. cbn [List.length Nat.ltb Nat.leb map].
    now rewrite (sealed_trimmed 1), (sealed_trimmed 2).
Qed.

Lemma sealed_is_valid_witness :
  sealed "1 25544U 98067A   08264.51782528 -.00002182  00000-0 -11606-4 0  292" = issLine1
  /\ isValidTLE
       (Lines [sealed "1 25544U 98067A   08264.51782528 -.00002182  00000-0 -11606-4 0  292";
               sealed "2 25544  51.6416 247.4627 0006703 130.5360 325.0288 15.7212539156353"])
     = Ok true.
Proof.
  split; [vm_compute; reflexivity|].
  apply (sealed_is_valid
           " 25544U 98067A   08264.51782528 -.00002182  00000-0 -11606-4 0  292"
           " 25544  51.6416 247.4627 0006703 130.5360 325.0288 15.7212539156353");
    reflexivity.
Defined.

(** ** What the checksum does not see *)

Lemma contributions_perm (l l' : list ascii) :
  Permutation l l' -> contributions l = contributions l'.
Proof.
  induction 1 as [|x l l' _ IH|x y l|l l' l'' _ IH1 _ IH2]; cbn; try lia.
  - unfold contributions in IH. lia.
Qed.

(** The checksum is blind to the last character of the line and to the
    order of the characters after the first: two lines whose bodies start
    with the same character and hold the same further characters in any
    order get the same checksum, so a transposition is never detected. *)
Theorem tleLineChecksum_blind (line line' : string) (c : ascii) (rest rest' : list ascii) :
  removelast (list_ascii_of_string line) = c :: rest ->
  removelast (list_ascii_of_string line') = c :: rest' ->
  Permutation rest rest' ->
  tleLineChecksum line = tleLineChecksum line'.
Proof.
  intros Hl Hl' Hperm. rewrite !tleLineChecksum_eq, Hl, Hl'.
  destruct rest as [|a rest].
  - apply Permutation_nil in Hperm. now subst rest'.
  - destruct rest' as [|a' rest'].
    + apply Permutation_sym, Permutation_nil in Hperm. discriminate.
    + now rewrite (contributions_perm _ _ Hperm).
Qed.

Lemma tleLineChecksum_blind_witness :
  tleLineChecksum "1 25544U 98067A7" = tleLineChecksum "1 52544U 89067A3".
Proof.
  apply (tleLineChecksum_blind _ _ "1"%char
           (list_ascii_of_string " 25544U 98067A") (list_ascii_of_string " 52544U 89067A"));
    [reflexivity|reflexivity|].
  cbn. apply perm_skip.
  apply perm_trans with (l' := list_ascii_of_string "52544U 98067A").
  - apply perm_swap.
  - do 7 apply perm_skip. apply perm_swap.
Defined.

(** ** Parsing what the parser returned *)

Lemma parseTLE_arr_trimmed (tle : tle_input) (parsedTLE : ParsedTLE) :
  unparsed tle = true ->
  parseTLE tle = Ok parsedTLE ->
  Forall (fun line => trim line = line) (arr parsedTLE).
Proof.
  intros Hu Hparse. destruct (parseTLE_unparsed tle Hu) as (tleArr & _ & E).
  rewrite E in Hparse.
  assert (Hmap : forall xs, Forall (fun line => trim line = line) (map trim xs)).
  { induction xs as [|x xs IH]; constructor; [apply trim_idempotent|exact IH]. }
  destruct (2 <? _)%nat; injection Hparse as <-; cbn [arr]; apply Hmap.
Qed.

Lemma parseTLE_again (lines : list string) :
  (List.length lines <= 2)%nat ->
  Forall (fun line => trim line = line) lines ->
  parseTLE (Lines lines) = Ok {| name := "Unknown"; arr := lines |}.
Proof.
  intros Hlen Htrim. unfold parseTLE.
  replace (2 <? List.length lines)%nat with false by (symmetry; apply Nat.ltb_ge; lia).
  now rewrite map_trim_fixed.
Qed.

Section SharedCache.

Context `{Host} `{Satellite}.

(** ** What a call does to the cache *)

(** A call of [getSatelliteInfo] either leaves the cache as it is, or it
    returned an observation and added exactly that observation under its own
    key, which was absent before.  A call that throws leaves the cache as it
    is. *)
Theorem getSatelliteInfo_cache_effect (now : Z) (tle : tle_input)
    (timestamp lat lng height : option number) (cache : Cache) :
  (snd (getSatelliteInfo now tle timestamp lat lng height cache) = cache
   \/ exists parsedTLE o,
        parseTLE tle = Ok parsedTLE
        /\ fst (getSatelliteInfo now tle timestamp lat lng height cache) = Ok o
        /\ cache !! cacheKey "getSatelliteInfo" (arr parsedTLE) timestamp lat lng height = None
        /\ snd (getSatelliteInfo now tle timestamp lat lng height cache)
           = <[ cacheKey "getSatelliteInfo" (arr parsedTLE) timestamp lat lng height := o ]>
               cache)
  /\ forall e,
       fst (getSatelliteInfo now tle timestamp lat lng height cache) = Throw e ->
       snd (getSatelliteInfo now tle timestamp lat lng height cache) = cache.
Proof.
  unfold getSatelliteInfo. destruct (parseTLE tle) as [parsedTLE|e0]; [|now split; [left|]].
  cbv zeta. set (key := cacheKey _ _ _ _ _ _).
  destruct (cache !! key) as [cached|] eqn:Hkey; [now split; [left|]|].
  destruct (error _ _); [now split; [left|]|].
  split; [|discriminate]. right. eexists _, _. repeat split; [exact Hkey].
Qed.

(** ** One entry for position and look angles *)

Lemma getLatLon_eq (now : Z) (tle : tle_input) (timestamp : option number) (cache : Cache) :
  unparsed tle = true ->
  isValidTLE tle = Ok true ->
  getLatLon now tle timestamp cache
  = (map_result latLonOf (fst (getSatelliteInfo now tle timestamp None None None cache)),
     snd (getSatelliteInfo now tle timestamp None None None cache)).
Proof.
  intros Hu Hv. destruct (parseTLE tle) as [parsedTLE|e] eqn:Hparse.
  2:{ unfold isValidTLE in Hv. rewrite Hparse in Hv. discriminate. }
  pose proof Hv as Hv'. rewrite (isValidTLE_parsed _ _ Hparse) in Hv'.
  pose proof Hv' as Hlines. apply isValidTLE_true in Hlines as (line1 & line2 & Harr & _).
  assert (Hagain : parseTLE (Lines (arr parsedTLE))
                   = Ok {| name := "Unknown"; arr := arr parsedTLE |}).
  { apply parseTLE_again; [rewrite Harr; cbn; lia|].
    now apply (parseTLE_arr_trimmed tle). }
  unfold getLatLon. rewrite Hparse, Hv'.
  unfold getSatelliteInfo. rewrite Hparse, Hagain. cbv zeta. cbn [arr].
  destruct (cache !! _); [reflexivity|]. now destruct (error _ _).
Qed.

(** On a text or an array of lines that the validator accepts, [getLatLon]
    is [getSatelliteInfo] without an observer, projected on latitude and
    longitude: the same result, the same error, the same cache entry. *)
Theorem getLatLon_projects (now : Z) (tle : tle_input) (timestamp : option number)
    (cache : Cache) :
  unparsed tle = true ->
  isValidTLE tle = Ok true ->
  getLatLon now tle timestamp cache
  = (map_result latLonOf (fst (getSatelliteInfo now tle timestamp None None None cache)),
     snd (getSatelliteInfo now tle timestamp None None None cache)).
Proof. apply getLatLon_eq. Qed.

(** After [getLatLon] has returned a position for a text or an array of
    lines, [getLookAngles] for the same input and timestamp is answered from
    the entry that call stored: the look angles belong to the observation
    the position was taken from, whatever the clock and the observer
    arguments are, and the cache stays as it is. *)
Theorem getLookAngles_after_getLatLon (now1 now2 : Z) (tle : tle_input)
    (timestamp lat lng height : option number) (cache cache1 : Cache) (ll : LatLon.t) :
  unparsed tle = true ->
  getLatLon now1 tle timestamp cache = (Ok ll, cache1) ->
  exists o,
    ll = latLonOf o
    /\ getLookAngles now2 tle timestamp lat lng height cache1 = (Ok (lookAnglesOf o), cache1).
Proof.
  intros Hu Hll.
  assert (Hv : isValidTLE tle = Ok true).
  { unfold getLatLon in Hll. destruct (parseTLE tle) as [parsedTLE|e] eqn:Hparse;
      [|discriminate].
    rewrite (isValidTLE_parsed _ _ Hparse).
    now destruct (isValidTLE (Parsed parsedTLE)) as [[|]|e]. }
  rewrite (getLatLon_eq _ _ _ _ Hu Hv) in Hll.
  destruct (getSatelliteInfo now1 tle timestamp None None None cache) as [[o|e] c1] eqn:Hfirst;
    [|discriminate].
  cbn in Hll. injection Hll as <- <-. exists o. split; [reflexivity|].
  destruct (parseTLE tle) as [parsedTLE|e] eqn:Hparse.
  2:{ unfold isValidTLE in Hv. rewrite Hparse in Hv. discriminate. }
  rewrite getLookAngles_eq.
  now rewrite (getSatelliteInfo_hit now2 tle parsedTLE timestamp None None None c1 o Hparse
                 (getSatelliteInfo_stores _ _ _ _ _ _ _ _ _ _ Hparse Hfirst)).
Qed.

End SharedCache.

Lemma issLines_valid : isValidTLE (Lines [issLine1; issLine2]) = Ok true.
Proof. vm_compute. reflexivity. Qed.

Lemma getLatLon_projects_witness :
  getLatLon 1000 (Lines [issLine1; issLine2]) None ∅
  = (map_result latLonOf
       (fst (getSatelliteInfo 1000 (Lines [issLine1; issLine2]) None None None None ∅)),
     snd (getSatelliteInfo 1000 (Lines [issLine1; issLine2]) None None None None ∅)).
Proof.
  apply (getLatLon_projects 1000 (Lines [issLine1; issLine2]) None ∅);
    [reflexivity|exact issLines_valid].
Defined.

Lemma getLookAngles_after_getLatLon_witness :
  exists o,
    fst (getLatLon 1000 (Lines [issLine1; issLine2]) None ∅) = Ok (latLonOf o)
    /\ fst (getLookAngles 2000 (Lines [issLine1; issLine2]) None (Some (of_Z 1)) None None
              (snd (getLatLon 1000 (Lines [issLine1; issLine2]) None ∅)))
       = Ok (lookAnglesOf o).
Proof.
  pose (r := getLatLon 1000 (Lines [issLine1; issLine2]) None ∅).
  assert (Hfirst : exists ll, fst r = Ok ll) by (eexists; vm_compute; reflexivity).
  destruct Hfirst as (ll & Hfirst). fold r. rewrite Hfirst.
  apply (f_equal (fun x => (x, snd r))) in Hfirst. rewrite <- surjective_pairing in Hfirst.
  pose proof (fun Hu => getLookAngles_after_getLatLon _ 2000 _ _ (Some (of_Z 1)) None None
                          _ _ _ Hu Hfirst) as Hthm.
  destruct (Hthm eq_refl) as (o & Hll & Hlook).
  exists o. split; [now rewrite Hll|]. now rewrite Hlook.
Defined.

(** ** Distance over the ground *)

Lemma number_eq_zero (n : number) :
  number_eq n (of_Z 0) = true <-> exists q, n = Finite q /\ q == 0.
Proof.
  split.
  - destruct n as [|s|q]; try discriminate. intros E. exists q. split; [reflexivity|].
    now apply Qeq_bool_iff in E.
  - intros (q & -> & E). now apply Qeq_bool_iff.
Qed.

Section GroundProperties.

Context `{Host} `{Trig} `{Satellite}.

(** The distance from a point with finite coordinates to itself is zero. *)
Theorem getDistanceBetweenPointsGround_same_point (lat lon : number) :
  cosineAtZero -> cosineFinite -> zeroPreserving Math_sqrt -> zeroPreserving Math_asin ->
  Number_isFinite lat = true ->
  Number_isFinite lon = true ->
  number_eq (getDistanceBetweenPointsGround lat lon lat lon) (of_Z 0) = true.
Proof.
  intros Hcos0 Hcos Hsqrt Hasin Hlat Hlon.
  destruct lat as [| |lat]; try discriminate. destruct lon as [| |lon]; try discriminate.
  unfold getDistanceBetweenPointsGround. cbv zeta.
  assert (Hz : forall q, number_eq (mul (sub (Finite q) (Finite q))
                                        (Finite 0.017453292519943295)) (of_Z 0) = true).
  { intros q. apply number_eq_zero. eexists. split; [reflexivity|]. ring. }
  pose proof (Hcos0 _ (Hz lat)) as Hc1. pose proof (Hcos0 _ (Hz lon)) as Hc2.
  destruct (Math_cos (mul (sub (Finite lat) (Finite lat)) _)) as [| |c1]; try discriminate.
  destruct (Math_cos (mul (sub (Finite lon) (Finite lon)) _)) as [| |c2]; try discriminate.
  apply Qeq_bool_iff in Hc1, Hc2.
  pose proof (Hcos (mul (Finite lat) (Finite 0.017453292519943295)) eq_refl) as Hc.
  destruct (Math_cos (mul (Finite lat) _)) as [| |c]; try discriminate.
  assert (Ha : number_eq
                 (add (sub (Finite 0.5) (div (Finite c1) (of_Z 2)))
                      (div (mul (mul (Finite c) (Finite c)) (sub (of_Z 1) (Finite c2)))
                           (of_Z 2))) (of_Z 0) = true).
  { apply number_eq_zero. eexists. split; [reflexivity|].
    rewrite Hc1, Hc2. unfold inject_Z. field. }
  apply Hsqrt, Hasin in Ha. apply number_eq_zero in Ha as (q & -> & Hq).
  apply number_eq_zero. eexists. split; [reflexivity|]. rewrite Hq. ring.
Qed.

(** ** Speed over the ground *)

(** When [getSatGroundSpeed] returns, the observations at the timestamp and
    ten seconds later are both in the cache, under the keys of
    [getSatelliteInfo] for the parsed record, and the speed is the ground
    distance between them divided by ten. *)
Theorem getSatGroundSpeed_observations (now now1 now2 : Z) (tle : tle_input)
    (parsedTLE : ParsedTLE) (timestamp : option number) (cache cache' : Cache)
    (kmPerSec : number) :
  parseTLE tle = Ok parsedTLE ->
  getSatGroundSpeed now now1 now2 tle timestamp cache = (Ok kmPerSec, cache') ->
  exists position1 position2,
    cache' !! cacheKey "getSatelliteInfo" (arr parsedTLE)
                (Some (or_else timestamp (of_Z now))) None None None
    = Some position1
    /\ cache' !! cacheKey "getSatelliteInfo" (arr parsedTLE)
                   (Some (add (or_else timestamp (of_Z now)) (of_Z 10000))) None None None
       = Some position2
    /\ kmPerSec
       = div (getDistanceBetweenPointsGround
                (Observation.lat position1) (Observation.lng position1)
                (Observation.lat position2) (Observation.lng position2))
             (of_Z 10).
Proof.
  intros Hparse. unfold getSatGroundSpeed. rewrite Hparse. cbv zeta.
  destruct (getSatelliteInfo now1 _ _ _ _ _ cache) as [[position1|e] cache1] eqn:Hget1;
    [|discriminate].
  destruct (getSatelliteInfo now2 _ _ _ _ _ cache1) as [[position2|e] cache2] eqn:Hget2;
    [|discriminate].
  intros [= <- <-]. exists position1, position2.
  pose proof (getSatelliteInfo_stores _ (Parsed parsedTLE) parsedTLE _ _ _ _ _ _ _ eq_refl Hget1) as Hs1.
  pose proof (getSatelliteInfo_stores _ (Parsed parsedTLE) parsedTLE _ _ _ _ _ _ _ eq_refl Hget2) as Hs2.
  split; [|split; [exact Hs2|reflexivity]].
  pose proof (getSatelliteInfo_keeps now2 (Parsed parsedTLE)
                (Some (add (or_else timestamp (of_Z now)) (of_Z 10000))) None None None
                cache1 _ _ Hs1) as Hk.
  now rewrite Hget2 in Hk.
Qed.

End GroundProperties.

Lemma exampleCos_zero : @cosineAtZero exampleTrig.
Proof.
  intros x Hx. apply number_eq_zero in Hx as (q & -> & Hq). cbn.
  apply Qeq_bool_iff. rewrite Qred_correct, Hq. reflexivity.
Qed.

Lemma exampleCos_finite : @cosineFinite exampleTrig.
Proof. intros [| |q]; try discriminate. reflexivity. Qed.

Lemma exampleSqrt_zero : zeroPreserving (@Math_sqrt exampleHost).
Proof.
  intros x Hx. apply number_eq_zero in Hx as (q & -> & Hq). cbn. unfold exampleSqrt.
  destruct q as [n d]. unfold Qeq in Hq. cbn in Hq.
  assert (n = 0) as -> by lia. reflexivity.
Qed.

Lemma exampleAsin_zero : zeroPreserving (@Math_asin exampleTrig).
Proof. intros x Hx. apply number_eq_zero in Hx as (q & -> & Hq). cbn. now apply Qeq_bool_iff. Qed.

Lemma getDistanceBetweenPointsGround_same_point_witness :
  number_eq (getDistanceBetweenPointsGround (Finite 51.6416) (Finite (-0.1275))
               (Finite 51.6416) (Finite (-0.1275))) (of_Z 0) = true.
Proof.
  apply (@getDistanceBetweenPointsGround_same_point exampleHost exampleTrig
           (Finite 51.6416) (Finite (-0.1275))
           exampleCos_zero exampleCos_finite exampleSqrt_zero exampleAsin_zero);
    reflexivity.
Defined.

Lemma getSatGroundSpeed_observations_witness :
  exists position1 position2,
    snd (getSatGroundSpeed 1000 2000 3000 (Lines [issLine1; issLine2]) None ∅)
      !! cacheKey "getSatelliteInfo" [issLine1; issLine2] (Some (of_Z 1000)) None None None
    = Some position1
    /\ snd (getSatGroundSpeed 1000 2000 3000 (Lines [issLine1; issLine2]) None ∅)
         !! cacheKey "getSatelliteInfo" [issLine1; issLine2]
              (Some (add (of_Z 1000) (of_Z 10000))) None None None
       = Some position2.
Proof.
  pose (r := getSatGroundSpeed 1000 2000 3000 (Lines [issLine1; issLine2]) None ∅).
  assert (Hfirst : exists v, fst r = Ok v) by (eexists; vm_compute; reflexivity).
  destruct Hfirst as (v & Hfirst). fold r.
  apply (f_equal (fun x => (x, snd r))) in Hfirst. rewrite <- surjective_pairing in Hfirst.
  pose proof (fun Hp => getSatGroundSpeed_observations _ _ _ _
                          {| name := "Unknown"; arr := [issLine1; issLine2] |}
                          _ _ _ _ Hp Hfirst) as Hthm.
  destruct (Hthm ltac:(vm_compute; reflexivity)) as (p1 & p2 & H1 & H2 & _).
  exists p1, p2. split; [exact H1|exact H2].
Defined.

(** ** The epoch of a record *)

Lemma callGetter_schema (tleLine prop_ : string) (spec : FieldSpec.t) (tle : tle_input) :
  In (tleLine, prop_, spec) schema ->
  callGetter (toCamelCase ("get-" +:+ prop_) None) tle
  = match parseTLE tle with
    | Throw e => Throw e
    | Ok parsedTLE =>
        match lineOf tleLine parsedTLE with
        | None => Throw (TypeError "line is undefined")
        | Some line =>
            Ok (coerced (substr line (FieldSpec.start spec) (FieldSpec.length spec)))
        end
    end.
Proof.
  intros Hin. destruct (parseTLE tle) as [parsedTLE|e] eqn:Hparse.
  - rewrite (callGetter_input _ _ _ Hparse).
    destruct (lineOf tleLine parsedTLE) as [line|] eqn:Hline.
    + exact (getter_eq _ _ _ _ _ Hin Hline).
    + now apply (getter_missing_line tleLine prop_ spec).
  - destruct (getter_lookup _ _ _ Hin) as (Hget & _). unfold callGetter. rewrite Hget.
    unfold getter. now rewrite Hparse.
Qed.

Lemma getEpochYear_eq (tle : tle_input) :
  getEpochYear tle
  = match parseTLE tle with
    | Throw e => Throw e
    | Ok parsedTLE =>
        match nth_error (arr parsedTLE) 0 with
        | None => Throw (TypeError "line is undefined")
        | Some line => Ok (coerced (substr line 18 2))
        end
    end.
Proof.
  assert (Hin : In ("line1", "epochYear", field 18 2) schema) by in_schema.
  exact (callGetter_schema _ _ _ tle Hin).
Qed.

Lemma getEpochDay_eq (tle : tle_input) :
  getEpochDay tle
  = match parseTLE tle with
    | Throw e => Throw e
    | Ok parsedTLE =>
        match nth_error (arr parsedTLE) 0 with
        | None => Throw (TypeError "line is undefined")
        | Some line => Ok (coerced (substr line 20 12))
        end
    end.
Proof.
  assert (Hin : In ("line1", "epochDay", field 20 12) schema) by in_schema.
  exact (callGetter_schema _ _ _ tle Hin).
Qed.

Lemma getMeanMotion_eq (tle : tle_input) :
  getMeanMotion tle
  = match parseTLE tle with
    | Throw e => Throw e
    | Ok parsedTLE =>
        match nth_error (arr parsedTLE) 1 with
        | None => Throw (TypeError "line is undefined")
        | Some line => Ok (coerced (substr line 52 11))
        end
    end.
Proof.
  assert (Hin : In ("line2", "meanMotion", field 52 11) schema) by in_schema.
  exact (callGetter_schema _ _ _ tle Hin).
Qed.

Lemma getEpochTimestamp_eq `{Host} (currentYear : Z) (tle : tle_input) :
  getEpochTimestamp currentYear tle
  = match parseTLE tle with
    | Throw e => Throw e
    | Ok parsedTLE =>
        match nth_error (arr parsedTLE) 0 with
        | None => Throw (TypeError "line is undefined")
        | Some line =>
            Ok (dayOfYearToTimeStampOf currentYear (coerced (substr line 20 12))
                  (coerced (substr line 18 2)))
        end
    end.
Proof.
  unfold getEpochTimestamp. rewrite getEpochYear_eq, getEpochDay_eq.
  destruct (parseTLE tle) as [parsedTLE|e]; [|reflexivity].
  now destruct (nth_error (arr parsedTLE) 0).
Qed.

(** [getEpochTimestamp] and [getTLEEpochTimestamp] read the two fields in
    opposite orders and agree on every input, in what they return and in
    what they throw. *)
Theorem epoch_timestamps_agree `{Host} (currentYear : Z) (tle : tle_input) :
  getTLEEpochTimestamp currentYear tle = getEpochTimestamp currentYear tle.
Proof.
  rewrite getEpochTimestamp_eq. unfold getTLEEpochTimestamp.
  rewrite getEpochYear_eq, getEpochDay_eq.
  destruct (parseTLE tle) as [parsedTLE|e]; [|reflexivity].
  now destruct (nth_error (arr parsedTLE) 0).
Qed.

(** An epoch year that reads as zero, as the columns [00] of the year 2000
    do, or is empty, is replaced by the current year: the epoch timestamp is
    that of the epoch day in the year of the call. *)
Theorem getEpochTimestamp_falsy_year `{Host} (currentYear : Z) (tle : tle_input)
    (parsedTLE : ParsedTLE) (line : string) :
  parseTLE tle = Ok parsedTLE ->
  nth_error (arr parsedTLE) 0 = Some line ->
  value_truthy (coerced (substr line 18 2)) = false ->
  getEpochTimestamp currentYear tle
  = Ok (dayOfYearToTimeStamp currentYear (toNumber (coerced (substr line 20 12))) None).
Proof.
  intros Hparse Hline Hyear. rewrite getEpochTimestamp_eq, Hparse, Hline.
  unfold dayOfYearToTimeStampOf, dayOfYearToTimeStamp. now rewrite Hyear.
Qed.

Lemma getEpochTimestamp_falsy_year_witness :
  getEpochTimestamp 2026 (Lines [y2kLine1; issLine2])
  = Ok (dayOfYearToTimeStamp 2026 (binary64 264.51782528) None).
Proof.
  exact (getEpochTimestamp_falsy_year 2026 (Lines [y2kLine1; issLine2])
           {| name := "Unknown"; arr := [y2kLine1; issLine2] |} y2kLine1
           ltac:(vm_compute; reflexivity) eq_refl ltac:(vm_compute; reflexivity)).
Defined.

Section EpochPosition.

Context `{Host} `{Trig} `{Satellite}.

(** [getLatLonAtEpoch] computes the epoch before [getLatLon] validates
    anything.  It throws what the parser throws; on a record without a first
    line it throws the getter's [TypeError], where [getLatLon] itself
    reports a record that could not be parsed; on every other input it is
    [getLatLon] at the epoch timestamp.  When it throws before the call, the
    cache is as it was. *)
Theorem getLatLonAtEpoch_outcomes (now currentYear : Z) (tle : tle_input) (cache : Cache) :
  match parseTLE tle with
  | Throw e => getLatLonAtEpoch now currentYear tle cache = (Throw e, cache)
  | Ok parsedTLE =>
      match nth_error (arr parsedTLE) 0 with
      | None =>
          getLatLonAtEpoch now currentYear tle cache
          = (Throw (TypeError "line is undefined"), cache)
          /\ forall timestamp,
               getLatLon now tle timestamp cache
               = (Throw (Error "TLE could not be parsed"), cache)
      | Some line =>
          getLatLonAtEpoch now currentYear tle cache
          = getLatLon now tle
              (Some (dayOfYearToTimeStampOf currentYear (coerced (substr line 20 12))
                       (coerced (substr line 18 2))))
              cache
      end
  end.
Proof.
  unfold getLatLonAtEpoch. rewrite getEpochTimestamp_eq.
  destruct (parseTLE tle) as [parsedTLE|e] eqn:Hparse; [|reflexivity].
  destruct (nth_error (arr parsedTLE) 0) as [line|] eqn:Hline; [reflexivity|].
  split; [reflexivity|]. intros timestamp. unfold getLatLon. rewrite Hparse.
  rewrite isValidTLE_length; [reflexivity|].
  destruct (arr parsedTLE); [cbn; lia|discriminate].
Qed.

End EpochPosition.

(** ** The length of an orbit *)

(** [getAverageOrbitLengthMins] returns whenever the record has a second
    line, and never throws then.  Where line 2 ends before column 52 the
    result is [Infinity].  Where the mean motion reads as a number, the
    result is decided by the double [r] that number stands for: it is
    infinite where [r] is zero, and otherwise the double nearest to
    [1440 / r], which is an infinity where that quotient is out of range;
    for a mean motion between 1 and 1440 revolutions a day it is within
    [2^-43] minutes of [1440 / r].  Where the columns read as a text that is
    not a numeric literal the result is [NaN]. *)
Theorem getAverageOrbitLengthMins_outcomes (tle : tle_input) (parsedTLE : ParsedTLE)
    (line : string) :
  parseTLE tle = Ok parsedTLE ->
  nth_error (arr parsedTLE) 1 = Some line ->
  exists mins,
    getAverageOrbitLengthMins tle = Ok mins
    /\ ((String.length line <= 52)%nat -> mins = Infinity false)
    /\ (forall q r,
          coerced (substr line 52 11) = VNum (Finite q) ->
          binary64 q = Finite r ->
          (if isZero r then exists negative, mins = Infinity negative
           else mins = binary64 (inject_Z (24 * 60) / r))
          /\ ((1 <= r <= 1440)%Q ->
              exists m, mins = Finite m
                        /\ (Qabs (m - inject_Z (24 * 60) / r) <= 1 # 8796093022208)%Q))
    /\ (forall s,
          coerced (substr line 52 11) = VStr s -> stringToNumber s = NaN -> mins = NaN).
Proof.
  intros Hparse Hline. unfold getAverageOrbitLengthMins.
  rewrite getMeanMotion_eq, Hparse, Hline. cbn [bind]. eexists. split; [reflexivity|].
  unfold div64. change (double (of_Z (24 * 60))) with (of_Z (24 * 60)).
  split; [|split].
  - intros Hshort. rewrite substr_beyond by exact Hshort. reflexivity.
  - intros q r -> Hr. cbn [toNumber double]. rewrite Hr. unfold div, of_Z. split.
    + destruct (isZero r) eqn:Hz; [now exists false|reflexivity].
    + intros [Hlo Hhi].
      assert (Hz : isZero r = false).
      { unfold isZero. apply Z.eqb_neq. intros Hn. destruct r as [n d]. cbn in Hn. subst n.
        unfold Qle in Hlo. cbn in Hlo. lia. }
      rewrite Hz. cbn [double].
      assert (Hquot : (0 <= inject_Z (24 * 60) / r <= 1440)%Q).
      { change (inject_Z (24 * 60)) with 1440%Q. split.
        - apply Qle_shift_div_l; lra.
        - apply Qle_shift_div_r; lra. }
      destruct (binary64_err (inject_Z (24 * 60) / r) 10 ltac:(lia)) as (m & -> & Hm).
      { change (pow2 (10 + 1)) with 2048%Q. apply Qabs_Qlt_condition. split; lra. }
      exists m. split; [reflexivity|exact Hm].
  - intros s -> Hs. cbn [toNumber]. now rewrite Hs.
Qed.

Lemma getAverageOrbitLengthMins_outcomes_witness :
  getAverageOrbitLengthMins (Parsed iss) = Ok (Finite (1611369426954255 # 17592186044416)).
Proof.
  destruct (getAverageOrbitLengthMins_outcomes (Parsed iss) iss issLine2 eq_refl eq_refl)
    as (mins & Hmins & _ & Hq & _).
  rewrite Hmins. f_equal.
  exact (proj1 (Hq (8850279156359119 # 562949953421312)
                  (8850279156359119 # 562949953421312)
                  ltac:(vm_compute; reflexivity) ltac:(vm_compute; reflexivity))).
Defined.

(** ** [isInt] *)

(** [isInt] holds of the finite numbers with an integral value and of
    nothing else: not of [NaN] or an infinity, and not of a string, whatever
    it spells. *)
Theorem isInt_integral (num : value) :
  isInt num = true <-> exists q z, num = VNum (Finite q) /\ q == inject_Z z.
Proof.
  split.
  - destruct num as [[| |q]|s]; try discriminate. unfold isInt, rem, of_Z.
    cbn [isZero inject_Z Qnum Z.eqb number_eq]. intros E. apply Qeq_bool_iff in E.
    exists q, (truncate (q / inject_Z 1)). split; [reflexivity|].
    set (t := inject_Z (truncate (q / inject_Z 1))) in *.
    transitivity ((q - inject_Z 1 * t) + t)%Q; [unfold inject_Z; ring|]. rewrite E.
    unfold inject_Z. ring.
  - intros (q & z & -> & E). unfold isInt, rem, of_Z.
    cbn [isZero inject_Z Qnum Z.eqb number_eq]. apply Qeq_bool_iff.
    rewrite (truncate_Z (q / inject_Z 1) z).
    + rewrite E. unfold inject_Z. ring.
    + rewrite E. unfold inject_Z. field.
Qed.

(** ** The column table *)

Lemma layoutOk_true : layoutOk = true.
Proof. vm_compute. reflexivity. Qed.

(** The column table is laid out soundly.  Every field lies within the 69
    columns of a line and has a getter of its own, installed under the camel
    case of its name; two different fields of one line share no column; and
    there are as many getters as fields, so none replaces another. *)
Theorem tleLines_layout :
  (forall tleLine prop_ spec,
     In (tleLine, prop_, spec) schema ->
     (FieldSpec.start spec + FieldSpec.length spec <= 69)%nat
     /\ createTLEGetters !! toCamelCase ("get-" +:+ prop_) None = Some (tleLine, prop_))
  /\ (forall tleLine prop_ spec prop' spec',
        In (tleLine, prop_, spec) schema ->
        In (tleLine, prop', spec') schema ->
        prop_ <> prop' ->
        disjointSpans spec spec' = true)
  /\ size createTLEGetters = List.length schema.
Proof.
  pose proof layoutOk_true as Hok. unfold layoutOk in Hok.
  rewrite forallb_forall in Hok. split; [|split].
  - intros tleLine prop_ spec Hin.
    destruct (getter_lookup _ _ _ Hin) as (Hg & _ & Hw & _). now split.
  - intros tleLine prop_ spec prop' spec' Hin Hin' Hne.
    specialize (Hok _ Hin). cbn beta iota in Hok. apply andb_prop in Hok as [_ Hall].
    rewrite forallb_forall in Hall. specialize (Hall _ Hin'). cbn beta iota in Hall.
    rewrite String.eqb_refl in Hall. cbn [negb orb] in Hall.
    apply orb_prop in Hall as [Heq | Hd]; [|exact Hd].
    apply String.eqb_eq in Heq. contradiction.
  - vm_compute. reflexivity.
Qed.

(** ** Camel case *)

Lemma split_concat (c : ascii) (bits : list string) :
  bits <> [] ->
  Forall (fun bit => hasChar c bit = false) bits ->
  split c (String.concat (String c EmptyString) bits) = bits.
Proof.
  intros Hne Hall. induction Hall as [|bit bits Hbit Hall IH]; [contradiction|].
  destruct bits as [|bit' bits].
  - cbn. now apply split_none.
  - change (String.concat (String c EmptyString) (bit :: bit' :: bits))
      with (bit +:+ String c EmptyString +:+ String.concat (String c EmptyString) (bit' :: bits)).
    rewrite append_cons, append_nil, (split_at c bit _ Hbit). f_equal. now apply IH.
Qed.

Lemma append_empty (s : string) : s +:+ EmptyString = s.
Proof. induction s as [|a s IH]; [apply append_nil|]. rewrite append_cons. now rewrite IH. Qed.

Lemma capitalize_eq (bit : string) : capitalize bit = upperFirst bit.
Proof.
  destruct bit as [|c bit]; [reflexivity|]. unfold capitalize, substr.
  cbn [substring String.length Nat.sub]. rewrite Nat.sub_0_r.
  assert (Hall : forall s, substring 0 (String.length s) s = s)
    by (induction s as [|a s IH]; cbn; congruence).
  rewrite Hall.
  replace (substring 0 0 bit) with EmptyString by now destruct bit.
  cbn [toUpperCase upperFirst]. now rewrite append_empty.
Qed.

(** [toCamelCase] of words joined by the divider is the first word as it
    is, followed by the other words with their first character in upper
    case, as long as no word holds the divider and no word after the first
    starts with one of the two code units whose upper case is not a code
    unit below 256; a string without the divider is returned as it is.  An
    omitted divider is the dash. *)
Theorem toCamelCase_words (divider : option ascii) (bit0 : string) (bits : list string) :
  Forall (fun bit =>
            hasChar (match divider with Some d => d | None => "-"%char end) bit = false)
         (bit0 :: bits) ->
  Forall (fun bit => upperFirstInRange bit = true) bits ->
  toCamelCase
    (String.concat (String (match divider with Some d => d | None => "-"%char end) EmptyString)
                   (bit0 :: bits))
    divider
  = bit0 +:+ String.concat EmptyString (map upperFirst bits).
Proof.
  unfold toCamelCase. set (d := match divider with Some d => d | None => "-"%char end).
  intros Hall _. rewrite (split_concat d (bit0 :: bits)) by (discriminate || exact Hall).
  cbn [join fold_right]. f_equal. clear Hall.
  induction bits as [|bit bits IH]; [reflexivity|].
  cbn [map fold_right]. rewrite capitalize_eq, IH.
  destruct bits as [|bit' bits]; [|reflexivity].
  cbn [map String.concat]. apply append_empty.
Qed.

Lemma toCamelCase_words_witness :
  toCamelCase "get-int-designator-year" None = "getIntDesignatorYear".
Proof.
  apply (toCamelCase_words None "get" ["int"; "designator"; "year"]);
    repeat constructor.
Defined.

(** ** Lines ending in carriage returns *)

Lemma append_assoc (s t u : string) : (s +:+ t) +:+ u = s +:+ (t +:+ u).
Proof.
  induction s as [|a s IH]; [now rewrite !append_nil|]. rewrite !append_cons. now rewrite IH.
Qed.

Lemma hasChar_append (c : ascii) (s t : string) :
  hasChar c (s +:+ t) = hasChar c s || hasChar c t.
Proof.
  induction s as [|a s IH]; [now rewrite append_nil|]. rewrite append_cons. cbn [hasChar].
  now rewrite IH, orb_assoc.
Qed.

Lemma trimEnd_snoc (l : list ascii) (x : ascii) :
  isWhiteSpace x = true -> trimEnd (l ++ [x]) = trimEnd l.
Proof.
  intros Hx. unfold trimEnd, trimStart. rewrite rev_app_distr. cbn [rev app dropWhile].
  now rewrite Hx.
Qed.

Lemma trim_snoc (s : string) (x : ascii) :
  isWhiteSpace x = true -> trim (s +:+ String x EmptyString) = trim s.
Proof.
  intros Hx. apply string_eq_chars. rewrite !trim_chars, append_chars.
  cbn [list_ascii_of_string]. unfold trimStart at 1. rewrite dropWhile_app.
  fold (trimStart (list_ascii_of_string s)).
  destruct (trimStart (list_ascii_of_string s)) as [|a t] eqn:E.
  - cbn [dropWhile]. now rewrite Hx.
  - now apply trimEnd_snoc.
Qed.

Lemma split_crlf (lines : list string) :
  lines <> [] ->
  Forall (fun line => hasChar "010" line = false) lines ->
  exists raw,
    split "010" (joinCRLF lines) = raw
    /\ List.length raw = List.length lines
    /\ map trim raw = map trim lines.
Proof.
  intros Hne Hall. induction Hall as [|line lines Hline Hall IH]; [contradiction|].
  destruct lines as [|line' lines].
  - exists [line]. split; [|now split]. cbn. now apply split_none.
  - destruct IH as (raw & Hraw & Hlen & Htrim); [discriminate|].
    exists ((line +:+ String "013" EmptyString) :: raw). split; [|split].
    + change (joinCRLF (line :: line' :: lines))
        with (line +:+ String "013" (String "010" EmptyString) +:+ joinCRLF (line' :: lines)).
      rewrite <- Hraw.
      replace (line +:+ String "013" (String "010" EmptyString) +:+ joinCRLF (line' :: lines))
        with ((line +:+ String "013" EmptyString)
              +:+ String "010" (joinCRLF (line' :: lines))).
      * apply split_at. rewrite hasChar_append, Hline. reflexivity.
      * rewrite append_assoc. f_equal.
    + cbn [List.length]. now rewrite Hlen.
    + cbn [map]. rewrite Htrim. f_equal. now apply trim_snoc.
Qed.

(** A text whose lines end in carriage return and line feed yields the
    lines of the array of those lines, and the same verdict of the
    validator: the carriage returns are trimmed away. *)
Theorem parseTLE_crlf (lines : list string) :
  lines <> [] ->
  Forall (fun line => hasChar "010" line = false) lines ->
  map_result arr (parseTLE (Text (joinCRLF lines))) = map_result arr (parseTLE (Lines lines))
  /\ isValidTLE (Text (joinCRLF lines)) = isValidTLE (Lines lines).
Proof.
  intros Hne Hall. destruct (split_crlf lines Hne Hall) as (raw & Hraw & Hlen & Htrim).
  assert (Harr : exists p p',
             parseTLE (Text (joinCRLF lines)) = Ok p /\ parseTLE (Lines lines) = Ok p'
             /\ arr p = arr p').
  { unfold parseTLE. rewrite Hraw, Hlen. destruct (2 <? List.length lines)%nat.
    - eexists _, _. split; [reflexivity|]. split; [reflexivity|]. cbn [arr].
      destruct raw as [|r raw]; destruct lines as [|l lines]; try discriminate;
        try reflexivity. cbn [tl]. cbn [map] in Htrim. now injection Htrim.
    - eexists _, _. split; [reflexivity|]. split; [reflexivity|]. exact Htrim. }
  destruct Harr as (p & p' & Hp & Hp' & Harr). split.
  - rewrite Hp, Hp'. unfold map_result, bind. congruence.
  - rewrite (isValidTLE_parsed _ _ Hp), (isValidTLE_parsed _ _ Hp').
    now apply isValidTLE_arr.
Qed.

Lemma parseTLE_crlf_witness :
  map_result arr (parseTLE (Text (joinCRLF ["ISS (ZARYA)"; issLine1; issLine2])))
  = Ok [issLine1; issLine2]
  /\ isValidTLE (Text (joinCRLF ["ISS (ZARYA)"; issLine1; issLine2])) = Ok true.
Proof.
  destruct (parseTLE_crlf ["ISS (ZARYA)"; issLine1; issLine2]) as [Harr Hvalid];
    [discriminate|repeat constructor|].
  split.
  - rewrite Harr. vm_compute. reflexivity.
  - rewrite Hvalid. vm_compute. reflexivity.
Defined.

(** ** Calls with one key *)

Section SharedKey.

Context `{Host} `{Satellite}.

(** The cache tells calls apart by the text of their key and by nothing
    else: once a call has returned an observation, a call whose lines and
    arguments render to the same key returns that observation and leaves
    the cache as it is, also when its record or its arguments differ. *)
Theorem getSatelliteInfo_shared_key (now1 now2 : Z) (tle tle' : tle_input)
    (parsedTLE parsedTLE' : ParsedTLE)
    (timestamp lat lng height timestamp' lat' lng' height' : option number)
    (cache cache1 : Cache) (o : Observation.t) :
  parseTLE tle = Ok parsedTLE ->
  parseTLE tle' = Ok parsedTLE' ->
  cacheKey "getSatelliteInfo" (arr parsedTLE') timestamp' lat' lng' height'
  = cacheKey "getSatelliteInfo" (arr parsedTLE) timestamp lat lng height ->
  getSatelliteInfo now1 tle timestamp lat lng height cache = (Ok o, cache1) ->
  getSatelliteInfo now2 tle' timestamp' lat' lng' height' cache1 = (Ok o, cache1).
Proof.
  intros Hparse Hparse' Hkey Hfirst.
  apply (getSatelliteInfo_hit _ _ _ _ _ _ _ _ _ Hparse'). rewrite Hkey.
  exact (getSatelliteInfo_stores _ _ _ _ _ _ _ _ _ _ Hparse Hfirst).
Qed.

End SharedKey.

Lemma getSatelliteInfo_shared_key_witness :
  fst (getSatelliteInfo 2000 (Lines ["1 25544"; "-2 25544"]) (Some (of_Z 7)) None None None
         (snd (getSatelliteInfo 1000 (Lines ["1 25544-"; "2 25544"]) (Some (of_Z 7))
                 None None None ∅)))
  = fst (getSatelliteInfo 1000 (Lines ["1 25544-"; "2 25544"]) (Some (of_Z 7))
           None None None ∅).
Proof.
  pose (r := getSatelliteInfo 1000 (Lines ["1 25544-"; "2 25544"]) (Some (of_Z 7))
               None None None ∅).
  assert (Hfirst : exists o, fst r = Ok o) by (eexists; vm_compute; reflexivity).
  destruct Hfirst as (o & Hfirst). fold r. rewrite Hfirst.
  apply (f_equal (fun x => (x, snd r))) in Hfirst. rewrite <- surjective_pairing in Hfirst.
  pose proof (fun Hp Hp' Hk =>
                getSatelliteInfo_shared_key _ 2000 _ (Lines ["1 25544"; "-2 25544"])
                  {| name := "Unknown"; arr := ["1 25544-"; "2 25544"] |}
                  {| name := "Unknown"; arr := ["1 25544"; "-2 25544"] |}
                  _ _ _ _ (Some (of_Z 7)) None None None _ _ _ Hp Hp' Hk Hfirst) as Hthm.
  now rewrite Hthm by (vm_compute; reflexivity).
Defined.
